(** * hosted: the device-side runtime of info-beamer packages

    A shallow embedding of the control-protocol client
    ([InfoBeamerQuery]), the RPC channel ([RPC]) and the proof-of-play
    pipeline ([ProofOfPlay]) of [.pylib/hosted/__init__.py], and the
    properties of them that the specification states.

    The source is Python 2 ([Queue], [str.encode('hex')]): a [str] is a
    byte string, modelled as [string]; exceptions are values of a class
    in the interpreter's hierarchy; the operating system (sockets, the
    clock, the random source, the file system, the HTTP session) is an
    explicit script that the code consumes.

    Beside these, the file models the schedules of the configuration
    ([OptionExpandedSchedule]), the queries of the client, the
    receiving side of the RPC channel, the file cache ([Cache]), the
    key-value store ([DeviceKV]), the index of the APIs
    ([OnDeviceAPIs]), the key of the hosted API ([HostedAPI]), the
    connection to the syncer ([Device]) and the files a node writes
    ([Node]), with properties read off the code. *)

From Stdlib Require Import ZArith QArith Qminmax Ascii String List HexadecimalString.
From Stdlib Require Import Lqa.
From stdpp Require Import gmap strings list fin_maps pretty.

Open Scope string_scope.

(** ** Python values, exceptions and control flow *)

Module Py.

(** The exception classes the modelled code raises or catches.  The
    hierarchy is the one of Python 2.7: [socket.timeout] derives from
    [socket.error], which derives from [IOError]. *)
Inductive pyclass :=
  | Exception | StandardError | EnvironmentError | IOError | OSError
  | socket_error | socket_timeout
  | LookupError | KeyError | TypeError | ValueError | AttributeError
  | UnicodeError | RequestException | HTTPError | Queue_Empty
  | InfoBeamerQueryException | APIError.

#[global] Instance pyclass_eq_dec : EqDecision pyclass.
Proof. solve_decision. Defined.

Definition base (c : pyclass) : option pyclass :=
  match c with
  | Exception => None
  | StandardError => Some Exception
  | EnvironmentError => Some StandardError
  | IOError => Some EnvironmentError
  | OSError => Some EnvironmentError
  | socket_error => Some IOError
  | socket_timeout => Some socket_error
  | LookupError => Some StandardError
  | KeyError => Some LookupError
  | TypeError => Some StandardError
  | ValueError => Some StandardError
  | AttributeError => Some StandardError
  | UnicodeError => Some ValueError
  | RequestException => Some IOError
  | HTTPError => Some RequestException
  | Queue_Empty => Some Exception
  | InfoBeamerQueryException => Some Exception   (* class InfoBeamerQueryException(Exception) *)
  | APIError => Some Exception                   (* class APIError(Exception) *)
  end.

Fixpoint issubclass_upto (depth : nat) (c d : pyclass) : bool :=
  if decide (c = d) then true
  else match depth with
       | O => false
       | S depth' =>
           match base c with
           | Some b => issubclass_upto depth' b d
           | None => false
           end
       end.

(** No class above lies deeper than six steps below [Exception]. *)
Definition issubclass : pyclass -> pyclass -> bool := issubclass_upto 8.

(** An exception instance: its class and its message. *)
Record exn := Exn { exn_class : pyclass; exn_msg : string }.

#[global] Instance exn_eq_dec : EqDecision exn.
Proof. solve_decision. Defined.

Definition isinstance (e : exn) (c : pyclass) : bool :=
  issubclass (exn_class e) c.

(** The outcome of a call: a value or a raised exception. *)
Inductive result (A : Type) :=
  | Return (a : A)
  | Raise (e : exn).
Arguments Return {A} a.
Arguments Raise {A} e.

(** Code that reads and updates a state [S] and may raise; the state
    a raising call leaves behind is kept, as in Python. *)
Definition M (S A : Type) : Type := S -> result A * S.

Definition ret {S A} (a : A) : M S A := fun s => (Return a, s).

Definition bind {S A B} (m : M S A) (k : A -> M S B) : M S B :=
  fun s => match m s with
           | (Return a, s') => k a s'
           | (Raise e, s') => (Raise e, s')
           end.

Definition raise {S A} (e : exn) : M S A := fun s => (Raise e, s).

Definition get {S} : M S S := fun s => (Return s, s).

Definition modify {S} (f : S -> S) : M S unit := fun s => (Return tt, f s).

(** [try: body  except C1: h1  except C2: h2 ...]: the first clause
    whose class the exception is an instance of handles it. *)
Fixpoint select_handler {S A} (e : exn)
    (clauses : list (pyclass * (exn -> M S A))) : option (exn -> M S A) :=
  match clauses with
  | [] => None
  | (c, h) :: rest => if isinstance e c then Some h else select_handler e rest
  end.

Definition try_except {S A} (body : M S A)
    (clauses : list (pyclass * (exn -> M S A))) : M S A :=
  fun s => match body s with
           | (Return a, s') => (Return a, s')
           | (Raise e, s') =>
               match select_handler e clauses with
               | Some h => h e s'
               | None => (Raise e, s')
               end
           end.

(** [try: body  except: handler], the bare clause that catches
    everything. *)
Definition try_except_all {S A} (body : M S A) (handler : M S A) : M S A :=
  fun s => match body s with
           | (Return a, s') => (Return a, s')
           | (Raise _, s') => handler s'
           end.

(** The outcome of a pure call, inside stateful code. *)
Definition lift {S A} (r : result A) : M S A := fun s => (r, s).

(** [for x in xs: body], where the body either falls through or
    [continue]s ([None]) or [return]s a value; [orelse] runs when the
    loop is exhausted. *)
Fixpoint for_in {S X A} (xs : list X) (body : X -> M S (option A))
    (orelse : M S A) : M S A :=
  match xs with
  | [] => orelse
  | x :: rest =>
      bind (body x) (fun r =>
        match r with
        | Some v => ret v
        | None => for_in rest body orelse
        end)
  end.

(** Byte strings. *)
Definition is_empty (s : string) : bool :=
  match s with EmptyString => true | String _ _ => false end.

(** [str.isspace] of one byte: the six ASCII whitespace characters. *)
Definition isspace (c : ascii) : bool :=
  let n := nat_of_ascii c in
  (Nat.eqb n 32 || (Nat.leb 9 n && Nat.leb n 13))%bool.

(** [s.rstrip()]: [s] without its trailing whitespace. *)
Fixpoint rstrip (s : string) : string :=
  match s with
  | EmptyString => EmptyString
  | String c s' =>
      let r := rstrip s' in
      if (isspace c && is_empty r)%bool then EmptyString else String c r
  end.

(** The newline, ["\n"]. *)
Definition nl : string := String "010"%char EmptyString.

(** Whether a string ends in whitespace. *)
Fixpoint ends_in_space (s : string) : bool :=
  match s with
  | EmptyString => false
  | String c EmptyString => isspace c
  | String _ s' => ends_in_space s'
  end.

(** [sep.join(xs)]. *)
Definition join (sep : string) (xs : list string) : string :=
  String.concat sep xs.

(** [a <= b] on a value that is [None] or a [str], and a [str]:
    Python 2 orders [None] before every string and compares strings
    byte by byte. *)
Definition le_str (a : option string) (b : string) : bool :=
  match a with
  | None => true
  | Some a => String.leb a b
  end.

(** ["%s" % v] for such a value. *)
Definition str_of (a : option string) : string :=
  match a with
  | None => "None"
  | Some a => a
  end.

End Py.

Import Py.

Declare Scope py_scope.
Delimit Scope py_scope with py.
Notation "x <- m ;; k" := (bind m (fun x => k))
  (at level 100, m at next level, k at level 200, right associativity) : py_scope.
Notation "m ;; k" := (bind m (fun _ => k))
  (at level 100, k at level 200, right associativity) : py_scope.
Open Scope py_scope.

(** ** InfoBeamerQuery: the control-protocol client *)

Module InfoBeamerQuery.

(** What a socket call can raise: [socket.timeout] or another
    [socket.error]. *)
Inductive sockfault := timed_out | refused.

Definition exn_of_fault (f : sockfault) : exn :=
  match f with
  | timed_out => Exn socket_timeout "timed out"
  | refused => Exn socket_error "[Errno 111] Connection refused"
  end.

(** The file object of [sock.makefile()]: the outcomes of the calls
    still to come on this connection.  [fo_sends] answers each
    [write] and [flush] in turn ([None]: the call returns; an exhausted
    list: every later call returns); [fo_recvs] answers each [readline]
    (an exhausted list: the peer has closed, [readline] returns ['']). *)
Record fileobj := FileObj {
  fo_id : nat;
  fo_sends : list (option exn);
  fo_recvs : list (exn + string)
}.

(** A peer as one [socket.create_connection] finds it: the outcome of
    reading its banner line, and of the calls after it. *)
Record peer := Peer {
  banner : sockfault + string;
  sends : list (option exn);
  recvs : list (exn + string)
}.

(** What happens on the network, in order. *)
Inductive event :=
  | EvConnect (id : nat)                 (* socket.create_connection called *)
  | EvWrite (id : nat) (data : string)   (* conn.write(data) called *)
  | EvFlush (id : nat)                   (* conn.flush() called *)
  | EvClose (id : nat).                  (* conn.close() called *)

#[global] Instance event_eq_dec : EqDecision event.
Proof. solve_decision. Defined.

(** The network around the client: [net] answers each
    [socket.create_connection] in turn (an exhausted list: the
    connection is refused); [connects] counts these calls and names
    the connections; [trace] records the calls made, the latest last. *)
Record world := World {
  net : list (sockfault + peer);
  connects : nat;
  trace : list event
}.

(** The object's attributes, and the world it runs in. *)
Record state := State {
  _sock : option nat;
  _conn : option fileobj;
  _host : string;
  _port : N;
  _timeout : Z;
  _version : option string;
  env : world
}.

(** [__init__(self, host='127.0.0.1', port=4444)] *)
Definition __init__ (host : string) (port : N) (w : world) : state :=
  {| _sock := None; _conn := None; _host := host; _port := port;
     _timeout := 2; _version := None; env := w |}.

Definition set_sock (v : option nat) (s : state) : state :=
  {| _sock := v; _conn := _conn s; _host := _host s; _port := _port s;
     _timeout := _timeout s; _version := _version s; env := env s |}.

Definition set_conn (v : option fileobj) (s : state) : state :=
  {| _sock := _sock s; _conn := v; _host := _host s; _port := _port s;
     _timeout := _timeout s; _version := _version s; env := env s |}.

Definition set_version (v : option string) (s : state) : state :=
  {| _sock := _sock s; _conn := _conn s; _host := _host s; _port := _port s;
     _timeout := _timeout s; _version := v; env := env s |}.

Definition set_env (w : world) (s : state) : state :=
  {| _sock := _sock s; _conn := _conn s; _host := _host s; _port := _port s;
     _timeout := _timeout s; _version := _version s; env := w |}.

Definition emit (ev : event) (s : state) : state :=
  set_env {| net := net (env s); connects := connects (env s);
             trace := trace (env s) ++ [ev] |} s.

(** [socket.create_connection((host, port), timeout)]: the next
    answer of the network. *)
Definition create_connection : M state (nat * peer) :=
  fun s =>
    let id := connects (env s) in
    let s' := set_env {| net := tail (net (env s)); connects := S id;
                         trace := trace (env s) ++ [EvConnect id] |} s in
    match net (env s) with
    | [] => (Raise (exn_of_fault refused), s')
    | inl f :: _ => (Raise (exn_of_fault f), s')
    | inr p :: _ => (Return (id, p), s')
    end.

Definition AttributeError_None (attr : string) : exn :=
  Exn AttributeError ("'NoneType' object has no attribute '" ++ attr ++ "'").

(** [self._conn.readline()] *)
Definition readline : M state string :=
  fun s =>
    match _conn s with
    | None => (Raise (AttributeError_None "readline"), s)
    | Some fo =>
        match fo_recvs fo with
        | [] => (Return "", s)
        | r :: rest =>
            let s' := set_conn (Some (FileObj (fo_id fo) (fo_sends fo) rest)) s in
            match r with
            | inl e => (Raise e, s')
            | inr line => (Return line, s')
            end
        end
    end.

(** One call that sends on a file object, [write] or [flush]: the
    exception it raises, if any, and the file object afterwards. *)
Definition send_on (fo : fileobj) : option exn * fileobj :=
  (match fo_sends fo with
   | Some e :: _ => Some e
   | _ => None
   end,
   FileObj (fo_id fo) (tail (fo_sends fo)) (fo_recvs fo)).

(** [self._conn.write(data)] or [self._conn.flush()]. *)
Definition sending (attr : string) (ev : nat -> event) : M state unit :=
  fun s =>
    match _conn s with
    | None => (Raise (AttributeError_None attr), s)
    | Some fo =>
        let s' := emit (ev (fo_id fo)) (set_conn (Some (snd (send_on fo))) s) in
        match fst (send_on fo) with
        | Some e => (Raise e, s')
        | None => (Return tt, s')
        end
    end.

Definition write (data : string) : M state unit :=
  sending "write" (fun id => EvWrite id data).

Definition flush : M state unit :=
  sending "flush" EvFlush.

(** [_reset(self, close=True)]: an error of [close()] is swallowed by
    the bare [except]. *)
Definition _reset (close : bool) : M state unit :=
  fun s =>
    let s1 := if close
              then match _conn s with
                   | Some fo => emit (EvClose (fo_id fo)) s
                   | None => s
                   end
              else s in
    (Return tt, set_sock None (set_conn None s1)).

(** [re.match("^Info Beamer PI ([^ ]+)", intro)], giving [m.group(1)]:
    the longest run of characters other than a space that follows the
    prefix, which must not be empty. *)
Fixpoint strip_prefix (p s : string) : option string :=
  match p, s with
  | EmptyString, _ => Some s
  | String a p', String b s' =>
      if Ascii.eqb a b then strip_prefix p' s' else None
  | String _ _, EmptyString => None
  end.

Fixpoint non_spaces (s : string) : string :=
  match s with
  | EmptyString => EmptyString
  | String c s' =>
      if Ascii.eqb c " " then EmptyString else String c (non_spaces s')
  end.

Definition match_intro (intro : string) : option string :=
  match strip_prefix "Info Beamer PI " intro with
  | None => None
  | Some rest =>
      let v := non_spaces rest in
      if is_empty v then None else Some v
  end.

Definition IBQE (msg : string) : exn := Exn InfoBeamerQueryException msg.

Definition msg_reopen_timeout : string := "Timeout while reopening connection".
Definition msg_cannot_connect (host : string) (port : N) (err : exn) : string :=
  "Cannot connect to " ++ host ++ ":" ++ pretty port ++ ": " ++ exn_msg err.
Definition msg_handshake : string := "Invalid handshake. Not info-beamer?".
Definition msg_unsupported (min_version : string) (found : option string) : string :=
  "This query is not implemented in your version of info-beamer. "
  ++ min_version ++ " or higher required, " ++ str_of found ++ " found".
Definition msg_timeout : string := "Timeout waiting for response".
Definition msg_failed : string := "Failed to get a response".

(** [_reconnect(self)] *)
Definition _reconnect : M state unit :=
  s <- get ;;
  match _conn s with
  | Some _ => ret tt
  | None =>
      intro <- try_except
        (c <- create_connection ;;
         modify (set_sock (Some (fst c))) ;;
         modify (set_conn (Some (FileObj (fst c) (sends (snd c)) (recvs (snd c))))) ;;
         match banner (snd c) with
         | inl f => raise (exn_of_fault f)
         | inr intro => ret intro
         end)
        [ (socket_timeout, fun _ =>
             _reset true ;; raise (IBQE msg_reopen_timeout));
          (socket_error, fun err =>
             _reset true ;;
             raise (IBQE (msg_cannot_connect (_host s) (_port s) err))) ] ;;
      match match_intro intro with
      | None => _reset true ;; raise (IBQE msg_handshake)
      | Some v => modify (set_version (Some v))
      end
  end.

(** [_parse_line(self)] *)
Definition _parse_line : M state (option string) :=
  line <- readline ;;
  if is_empty line then ret None
  else ret (Some (rstrip line)).

(** The [while 1] loop of [_parse_multi_line], over the answers the
    connection still holds: the lines read so far, the outcome, and
    the answers left. *)
Fixpoint parse_multi_line_loop (answers : list (exn + string))
    (lines : list string) : result (option string) * list (exn + string) :=
  match answers with
  | [] => (Return None, [])
  | inl e :: rest => (Raise e, rest)
  | inr line :: rest =>
      if is_empty line then (Return None, rest)
      else
        let line := rstrip line in
        if is_empty line then (Return (Some (join nl lines)), rest)
        else parse_multi_line_loop rest (lines ++ [line])
  end.

(** [_parse_multi_line(self)] *)
Definition _parse_multi_line : M state (option string) :=
  fun s =>
    match _conn s with
    | None => (Raise (AttributeError_None "readline"), s)
    | Some fo =>
        let (r, rest) := parse_multi_line_loop (fo_recvs fo) [] in
        (r, set_conn (Some (FileObj (fo_id fo) (fo_sends fo) rest)) s)
    end.

(** The send and the receive inside the [try] of [_send_cmd]:
    [write], [flush], and the response parsed. *)
Definition send_receive (cmd : string) (multiline : bool)
    : M state (option string) :=
  write (cmd ++ nl) ;;
  flush ;;
  if multiline then _parse_multi_line else _parse_line.

(** The [try] statement of [_send_cmd] with its three [except]
    clauses, in the order of the source: [None] stands for
    [continue], [Some response] for [return response]. *)
Definition exchange (cmd : string) (multiline : bool)
    : M state (option string) :=
  try_except
    (response <- send_receive cmd multiline ;;
     match response with
     | None => _reset true ;; ret None
     | Some r => ret (Some r)
     end)
    [ (socket_error, fun _ => _reset true ;; ret None);
      (socket_timeout, fun _ => _reset true ;; raise (IBQE msg_timeout));
      (Exception, fun _ => _reset true ;; ret None) ].

(** The body of the [for retry in (1, 2)] loop of [_send_cmd]. *)
Definition attempt (min_version cmd : string) (multiline : bool)
    : M state (option string) :=
  _reconnect ;;
  s <- get ;;
  if le_str (_version s) min_version then
    raise (IBQE (msg_unsupported min_version (_version s)))
  else exchange cmd multiline.

(** [_send_cmd(self, min_version, cmd, multiline=False)] *)
Definition _send_cmd (min_version cmd : string) (multiline : bool)
    : M state string :=
  for_in [1%Z; 2%Z] (fun retry => attempt min_version cmd multiline)
    (raise (IBQE msg_failed)).

(** [Node.io(self, raw=True)]: the stream to a node, taken over from
    the client.  [_sock] and [_conn] are set and reset together, so
    [sock.settimeout(None)] fails on [None] exactly when there is no
    [_conn] to return; on a socket it changes no outcome here. *)
Definition Node_io (path : string) (raw : bool) : M state fileobj :=
  status <- _send_cmd "0.6" ((if raw then "*raw/" else "") ++ path) false ;;
  if negb (String.eqb status "ok!") then
    raise (IBQE ("Cannot connect to node " ++ path))
  else
    s <- get ;;
    match _conn s with
    | Some fo => ret fo
    | None => raise (AttributeError_None "settimeout")
    end.

(** The error of the version gate, whatever version was found. *)
Definition unsupported (min_version : string) (e : exn) : Prop :=
  exists found, e = IBQE (msg_unsupported min_version found).


(** What a trace shows: the data of the [write] calls, and the
    connections opened. *)
Definition sent (t : list event) : list string :=
  omap (fun ev => match ev with EvWrite _ data => Some data | _ => None end) t.

Definition opened (t : list event) : list nat :=
  omap (fun ev => match ev with EvConnect id => Some id | _ => None end) t.

End InfoBeamerQuery.

(** ** RPC: the line-based channel to a node *)

Module RPC.

Import InfoBeamerQuery.

(** The channel's attributes ([_callbacks] and [_lock] play no part in
    sending) and the network it shares with every client. *)
Record state := State {
  _path : string;
  _con : option fileobj;
  env : world
}.

Definition set_con (v : option fileobj) (s : state) : state :=
  {| _path := _path s; _con := v; env := env s |}.

Definition set_env (w : world) (s : state) : state :=
  {| _path := _path s; _con := _con s; env := w |}.

Definition emit (ev : event) (s : state) : state :=
  set_env {| net := net (env s); connects := connects (env s);
             trace := trace (env s) ++ [ev] |} s.

(** [_get_connection(self)]: a fresh [InfoBeamerQuery()] opens the
    stream to [<path>/rpc/python]. *)
Definition _get_connection : M state (option fileobj) :=
  fun s =>
    match _con s with
    | Some fo => (Return (Some fo), s)
    | None =>
        match Node_io (_path s ++ "/rpc/python") true
                (InfoBeamerQuery.__init__ "127.0.0.1" 4444 (env s)) with
        | (Return fo, ib) =>
            (Return (Some fo),
             set_con (Some fo) (set_env (InfoBeamerQuery.env ib) s))
        | (Raise e, ib) =>
            if isinstance e InfoBeamerQueryException
            then (Return None, set_env (InfoBeamerQuery.env ib) s)
            else (Raise e, set_env (InfoBeamerQuery.env ib) s)
        end
    end.

(** [_close_connection(self)] *)
Definition _close_connection : M state unit :=
  fun s =>
    let s1 := match _con s with
              | Some fo => emit (EvClose (fo_id fo)) s
              | None => s
              end in
    (Return tt, set_con None s1).

(** [con.write(data)] or [con.flush()], on the stream [_send] holds. *)
Definition sending (attr : string) (ev : nat -> event) : M state unit :=
  fun s =>
    match _con s with
    | None => (Raise (AttributeError_None attr), s)
    | Some fo =>
        let s' := emit (ev (fo_id fo)) (set_con (Some (snd (send_on fo))) s) in
        match fst (send_on fo) with
        | Some e => (Raise e, s')
        | None => (Return tt, s')
        end
    end.



End RPC.

(** ** ProofOfPlay: the event log and its submission *)

Module ProofOfPlay.

(** The values that cross the JSON boundary. *)
#[warnings="-register-all"] Inductive pyval :=
  | PyNone
  | PyBool (b : bool)
  | PyInt (z : Z)
  | PyStr (s : string)
  | PyList (l : list pyval)
  | PyDict (d : list (string * pyval)).

(** [bool(v)] *)
Definition truthy (v : pyval) : bool :=
  match v with
  | PyNone => false
  | PyBool b => b
  | PyInt z => negb (z =? 0)%Z
  | PyStr s => negb (is_empty s)
  | PyList l => match l with [] => false | _ => true end
  | PyDict d => match d with [] => false | _ => true end
  end.

Fixpoint dict_lookup (d : list (string * pyval)) (key : string) : option pyval :=
  match d with
  | [] => None
  | (k, v) :: rest => if String.eqb k key then Some v else dict_lookup rest key
  end.

(** [v[key]] for a string key. *)
Definition getitem (v : pyval) (key : string) : result pyval :=
  match v with
  | PyDict d =>
      match dict_lookup d key with
      | Some x => Return x
      | None => Raise (Exn KeyError key)
      end
  | PyStr _ => Raise (Exn TypeError "string indices must be integers, not str")
  | PyList _ => Raise (Exn TypeError "list indices must be integers, not str")
  | _ => Raise (Exn TypeError "object has no attribute '__getitem__'")
  end.


(** What [requests] hands back for one request. *)
Record response := Response {
  raise_for_status : option exn;   (* what r.raise_for_status() raises *)
  status_code : Z;
  content_type : option string;    (* r.headers['content-type'] *)
  json : result pyval;             (* r.json() *)
  content : string
}.

(** What the program does to the outside, in order. *)
Inductive event :=
  | Waited (lines : Z) (max_wait : Q)     (* self._q.get(block=True, timeout=max_wait) *)
  | Renamed (src dst : string)            (* os.rename *)
  | Unlinked (name : string)              (* os.unlink *)
  | Posted (name : string) (queue_size : Z) (body : string)  (* session.post *)
  | Slept (delay : Q).                    (* time.sleep at the end of a cycle *)

(** The machine around the object.  [dir] holds the files of the
    directory [self._prefix], by name.  Each list answers the calls of
    one kind in turn: [getrandom] gives the return value and the buffer
    (exhausted: the call fails with -1); [time_time] the integral part
    of [time.time()] and [clock] the readings of [monotonic_time()]
    (exhausted: 0); [write_faults] tells whether an append to the log
    raises (exhausted: it does not); [api_index] answers
    [get_api_index()] and [posts] answers [session.post] (exhausted: a
    [requests] error). *)
Record world := World {
  dir : gmap string string;
  getrandom : list (Z * string);
  time_time : list N;
  clock : list Q;
  write_faults : list bool;
  api_index : list (result (list (string * pyval)));
  posts : list (result response);
  out : list event
}.

Definition set_dir (d : gmap string string) (w : world) : world :=
  {| dir := d; getrandom := getrandom w; time_time := time_time w;
     clock := clock w; write_faults := write_faults w;
     api_index := api_index w; posts := posts w; out := out w |}.

Definition set_getrandom (v : list (Z * string)) (w : world) : world :=
  {| dir := dir w; getrandom := v; time_time := time_time w;
     clock := clock w; write_faults := write_faults w;
     api_index := api_index w; posts := posts w; out := out w |}.

Definition set_time_time (v : list N) (w : world) : world :=
  {| dir := dir w; getrandom := getrandom w; time_time := v;
     clock := clock w; write_faults := write_faults w;
     api_index := api_index w; posts := posts w; out := out w |}.

Definition set_clock (v : list Q) (w : world) : world :=
  {| dir := dir w; getrandom := getrandom w; time_time := time_time w;
     clock := v; write_faults := write_faults w;
     api_index := api_index w; posts := posts w; out := out w |}.

Definition set_write_faults (v : list bool) (w : world) : world :=
  {| dir := dir w; getrandom := getrandom w; time_time := time_time w;
     clock := clock w; write_faults := v;
     api_index := api_index w; posts := posts w; out := out w |}.



Definition set_out (v : list event) (w : world) : world :=
  {| dir := dir w; getrandom := getrandom w; time_time := time_time w;
     clock := clock w; write_faults := write_faults w;
     api_index := api_index w; posts := posts w; out := v |}.

(** The object's attributes.  [_q] is the [Queue.Queue()], unbounded
    and first-in first-out; [_log] names the open log file. *)
Record state := State {
  _prefix : string;
  _max_delay : Q;
  _max_lines : Z;
  _submission_min_delay : Q;
  _submission_error_delay : Q;
  _q : list string;
  _log : option string;
  env : world
}.

Definition set_q (v : list string) (s : state) : state :=
  {| _prefix := _prefix s; _max_delay := _max_delay s;
     _max_lines := _max_lines s;
     _submission_min_delay := _submission_min_delay s;
     _submission_error_delay := _submission_error_delay s;
     _q := v; _log := _log s; env := env s |}.

Definition set_log (v : option string) (s : state) : state :=
  {| _prefix := _prefix s; _max_delay := _max_delay s;
     _max_lines := _max_lines s;
     _submission_min_delay := _submission_min_delay s;
     _submission_error_delay := _submission_error_delay s;
     _q := _q s; _log := v; env := env s |}.

Definition set_env (w : world) (s : state) : state :=
  {| _prefix := _prefix s; _max_delay := _max_delay s;
     _max_lines := _max_lines s;
     _submission_min_delay := _submission_min_delay s;
     _submission_error_delay := _submission_error_delay s;
     _q := _q s; _log := _log s; env := w |}.

Definition on_env (f : world -> world) : M state unit :=
  modify (fun s => set_env (f (env s)) s).

Definition emit (ev : event) : M state unit :=
  on_env (fun w => set_out (out w ++ [ev]) w).

(** *** The operating system *)

(** [monotonic_time()] *)
Definition monotonic_time : M state Q :=
  s <- get ;;
  on_env (set_clock (tail (clock (env s)))) ;;
  ret (hd 0%Q (clock (env s))).

(** [time.time()], as ["%08x"] takes it: its integral part. *)
Definition time_time_int : M state N :=
  s <- get ;;
  on_env (set_time_time (tail (time_time (env s)))) ;;
  ret (hd 0%N (time_time (env s))).

(** [get_random_bytes(num_bytes)] *)
Definition get_random_bytes (num_bytes : Z) : M state string :=
  s <- get ;;
  on_env (set_getrandom (tail (getrandom (env s)))) ;;
  let '(result, buf) := hd ((-1)%Z, "") (getrandom (env s)) in
  if negb (result =? num_bytes)%Z then
    raise (Exn OSError "Error getting random bytes from getrandom")
  else ret buf.

(** [os.path.exists(name)] *)
Definition os_path_exists (name : string) : M state bool :=
  s <- get ;;
  ret (bool_decide (is_Some (dir (env s) !! name))).

(** [os.rename(src, dst)]: replaces [dst] when it exists. *)
Definition os_rename (src dst : string) : M state unit :=
  s <- get ;;
  match dir (env s) !! src with
  | None => raise (Exn OSError "[Errno 2] No such file or directory")
  | Some data =>
      on_env (set_dir (<[dst := data]> (delete src (dir (env s))))) ;;
      emit (Renamed src dst)
  end.

(** [open(name, 'wb')]: an empty file under that name. *)
Definition open_wb (name : string) : M state string :=
  s <- get ;;
  on_env (set_dir (<[name := ""]> (dir (env s)))) ;;
  ret name.

(** [f.write(data); f.flush(); os.fsync(f.fileno())] on the open log
    file: the bytes are appended, or the call raises before any is. *)
Definition write_sync (f data : string) : M state unit :=
  s <- get ;;
  on_env (set_write_faults (tail (write_faults (env s)))) ;;
  if hd false (write_faults (env s)) then
    raise (Exn IOError "[Errno 28] No space left on device")
  else
    on_env (set_dir (<[f := default "" (dir (env s) !! f) ++ data]> (dir (env s)))).

(** [os.listdir(self._prefix)], in the order the map enumerates. *)
Definition os_listdir : M state (list string) :=
  s <- get ;;
  ret ((map_to_list (dir (env s))).*1).


(** [os.unlink(name)] *)
Definition os_unlink (name : string) : M state unit :=
  s <- get ;;
  match dir (env s) !! name with
  | None => raise (Exn OSError "[Errno 2] No such file or directory")
  | Some _ =>
      on_env (set_dir (delete name (dir (env s)))) ;;
      emit (Unlinked name)
  end.


(** [self._q.put(item)]: the queue has no bound, nothing to wait for. *)
Definition q_put (item : string) : M state unit :=
  modify (fun s => set_q (_q s ++ [item]) s).

(** [self._q.get(block=True, timeout=max_wait)]: the oldest item, or
    [Queue.Empty] once the wait is over with none. *)
Definition q_get (lines : Z) (max_wait : Q) : M state string :=
  emit (Waited lines max_wait) ;;
  s <- get ;;
  match _q s with
  | [] => raise (Exn Queue_Empty "")
  | item :: rest => modify (set_q rest) ;; ret item
  end.

(** [s.encode('hex')] *)
Definition hex_digit (n : nat) : ascii :=
  ascii_of_nat (if Nat.ltb n 10 then 48 + n else 87 + n).

Fixpoint encode_hex (s : string) : string :=
  match s with
  | EmptyString => EmptyString
  | String c s' =>
      let n := nat_of_ascii c in
      String (hex_digit (n / 16)) (String (hex_digit (n mod 16)) (encode_hex s'))
  end.

(** ["%08x" % n] *)
Fixpoint zeros (n : nat) : string :=
  match n with
  | O => EmptyString
  | S n' => String "0"%char (zeros n')
  end.

Definition hex08 (n : N) : string :=
  let digits := HexadecimalString.NilZero.string_of_uint (N.to_hex_uint n) in
  zeros (8 - String.length digits) ++ digits.

(** *** The API proxy of the [pop] endpoint *)





(** *** The submitter *)





(** *** The writer *)

Definition log_name : string := "current.log".

Definition segment_name (random : string) : string :=
  "submit-" ++ encode_hex random ++ ".log".

(** [reopen_log(self)] *)
Definition reopen_log : M state string :=
  s <- get ;;
  (match _log s with
   | Some _ => modify (set_log None)
   | None => ret tt
   end) ;;
  present <- os_path_exists log_name ;;
  (if (present : bool) then
     random <- get_random_bytes 16 ;;
     os_rename log_name (segment_name random)
   else ret tt) ;;
  f <- open_wb log_name ;;
  modify (set_log (Some f)) ;;
  ret f.

(** The local variables of [_writer_thread]. *)
Record writer := Writer {
  submit : Q;
  log_file : string;
  lines : Z
}.

(** The first line of [_writer_thread]. *)
Definition _writer_thread_start : M state writer :=
  s <- get ;;
  now <- monotonic_time ;;
  f <- reopen_log ;;
  ret {| submit := now + _max_delay s; log_file := f; lines := 0 |}.

(** One turn of its [while 1] loop. *)
Definition _writer_thread_turn (w : writer) : M state writer :=
  s <- get ;;
  now <- monotonic_time ;;
  let max_wait := Qmax (1 # 10) (submit w - now) in
  r <- try_except
    (line <- q_get (lines w) max_wait ;;
     write_sync (log_file w) (line ++ nl) ;;
     ret (submit w, (lines w + 1)%Z, false))
    [ (Queue_Empty, fun _ =>
         if (lines w =? 0)%Z
         then ret ((submit w + _max_delay s)%Q, lines w, false)
         else ret (submit w, lines w, true));
      (Exception, fun err => ret (submit w, lines w, false)) ] ;;
  let '(submit1, lines1, reopen) := r in
  let reopen := if (lines1 >=? _max_lines s)%Z then true else reopen in
  if (reopen : bool) then
    now <- monotonic_time ;;
    f <- reopen_log ;;
    ret {| submit := now + _max_delay s; log_file := f; lines := 0 |}
  else
    ret {| submit := submit1; log_file := log_file w; lines := lines1 |}.

(** The first [n] turns of the loop. *)
Fixpoint _writer_thread_turns (n : nat) (w : writer) : M state writer :=
  match n with
  | O => ret w
  | S n' => w' <- _writer_thread_turn w ;; _writer_thread_turns n' w'
  end.

(** What a trace shows: the segments rotated out, in order. *)
Definition rotated (t : list event) : list string :=
  omap (fun ev => match ev with Renamed _ dst => Some dst | _ => None end) t.

(** The bytes of a log file to which these lines were written, one
    [write(line + '\n')] each. *)
Fixpoint written (ls : list string) : string :=
  match ls with
  | [] => EmptyString
  | l :: ls' => (l ++ nl) ++ written ls'
  end.

(** *** Logging an event *)

Section Log.

(** [json.dumps(entry, ensure_ascii=False, separators=(',',':'))
    .encode('utf8')], a function of the standard library: the line, or
    the exception it raises on a value it cannot serialise. *)
Variable json_dumps_utf8 : list pyval -> result string.

(** [log(self, play_start, duration, asset_id, asset_filename)] *)
Definition log (play_start duration asset_id asset_filename : pyval)
    : M state unit :=
  now <- time_time_int ;;
  random <- get_random_bytes 12 ;;
  let uuid := hex08 now ++ encode_hex random in
  line <- lift (json_dumps_utf8
                  [ PyStr uuid; play_start; duration;
                    match asset_id with PyNone => PyInt 0 | _ => asset_id end;
                    asset_filename ]) ;;
  q_put line.

End Log.

End ProofOfPlay.

(** ** Concrete runs *)

Module Scenarios.

Import InfoBeamerQuery.

Definition intro_1_0 : string :=
  "Info Beamer PI 1.0 (https://info-beamer.com). Select your channel!" ++ nl.

Definition intro_0_9 : string :=
  "Info Beamer PI 0.9 (https://info-beamer.com). Select your channel!" ++ nl.

Definition timed_out_error : exn := Exn socket_timeout "timed out".

(** A peer that answers one command with [pong]. *)
Definition peer_pong : peer :=
  {| banner := inr intro_1_0; sends := []; recvs := [inr ("pong" ++ nl)] |}.

(** A peer that pads its answer with two spaces. *)
Definition peer_padded : peer :=
  {| banner := inr intro_1_0; sends := []; recvs := [inr ("pong  " ++ nl)] |}.

(** A peer that accepts the connection and then lets the read time out. *)
Definition peer_stalled : peer :=
  {| banner := inr intro_1_0; sends := [];
     recvs := [inl timed_out_error] |}.


(** A peer of version 0.9. *)
Definition peer_old : peer :=
  {| banner := inr intro_0_9; sends := []; recvs := [inr ("ok" ++ nl)] |}.

(** A peer that answers a multi-line query with two lines. *)
Definition peer_traceback : peer :=
  {| banner := inr intro_1_0; sends := [];
     recvs := [inr ("error in" ++ nl); inr ("node.lua:3" ++ nl); inr nl] |}.


(** A fresh client on a network that gives these peers in turn. *)
Definition client (peers : list (sockfault + peer)) : state :=
  __init__ "127.0.0.1" 4444 {| net := peers; connects := 0; trace := [] |}.

Definition ping : string := "*query/*ping".

(** A channel to the node [root], not yet connected, on such a
    network. *)
Definition channel (peers : list (sockfault + peer)) : RPC.state :=
  {| RPC._path := "root"; RPC._con := None;
     RPC.env := {| net := peers; connects := 0; trace := [] |} |}.

(** [json.dumps] on entries of integers and plain ASCII strings with
    nothing to escape; it gives up on anything else. *)
Definition json_scalar (v : ProofOfPlay.pyval) : result string :=
  match v with
  | ProofOfPlay.PyInt z => Return (pretty z)
  | ProofOfPlay.PyStr s => Return (String "034"%char s ++ String "034"%char "")
  | _ => Raise (Exn TypeError "is not JSON serializable")
  end.

Fixpoint json_items (vs : list ProofOfPlay.pyval) : result (list string) :=
  match vs with
  | [] => Return []
  | v :: vs' =>
      match json_scalar v, json_items vs' with
      | Return x, Return xs => Return (x :: xs)
      | Raise e, _ => Raise e
      | _, Raise e => Raise e
      end
  end.

Definition json_plain (vs : list ProofOfPlay.pyval) : result string :=
  match json_items vs with
  | Return xs => Return ("[" ++ join "," xs ++ "]")
  | Raise e => Raise e
  end.

(** A proof-of-play object over a directory holding [files], with
    [queue] waiting to be written, in a world that answers [getrandom]
    with [randoms]; the clock stands still. *)
Definition recorder (max_lines : Z) (queue : list string)
    (files : list (string * string)) (randoms : list (Z * string))
    : ProofOfPlay.state :=
  {| ProofOfPlay._prefix := "/space/scratch/pop";
     ProofOfPlay._max_delay := 60;
     ProofOfPlay._max_lines := max_lines;
     ProofOfPlay._submission_min_delay := 300;
     ProofOfPlay._submission_error_delay := 30;
     ProofOfPlay._q := queue;
     ProofOfPlay._log := None;
     ProofOfPlay.env :=
       {| ProofOfPlay.dir := list_to_map files;
          ProofOfPlay.getrandom := randoms;
          ProofOfPlay.time_time := [1700000000%N];
          ProofOfPlay.clock := [];
          ProofOfPlay.write_faults := [];
          ProofOfPlay.api_index := [];
          ProofOfPlay.posts := [];
          ProofOfPlay.out := [] |} |}.


(** The collector accepts a segment. *)
Definition accepted : ProofOfPlay.response :=
  {| ProofOfPlay.raise_for_status := None;
     ProofOfPlay.status_code := 200;
     ProofOfPlay.content_type := Some "application/json";
     ProofOfPlay.json :=
       Return (ProofOfPlay.PyDict
                 [("ok", ProofOfPlay.PyBool true);
                  ("pop", ProofOfPlay.PyDict
                            [("disabled", ProofOfPlay.PyBool false)])]);
     ProofOfPlay.content := "" |}.


Definition random_a : string := "aaaaaaaaaaaaaaaa".
Definition random_b : string := "bbbbbbbbbbbbbbbb".
Definition random_c : string := "cccccccccccccccc".

Definition seven_lines : list string :=
  ["e1"; "e2"; "e3"; "e4"; "e5"; "e6"; "e7"].

End Scenarios.

(** ** More of the interpreter: numbers, strings and JSON values *)

Module Builtin.

Import ProofOfPlay.

(** [a < b] and [a > b] on numbers. *)
Definition lt (a b : Q) : bool := negb (Qle_bool b a).
Definition gt (a b : Q) : bool := lt b a.

(** [s.split(sep)] for a separator of one byte: the fields between
    its occurrences, at least one. *)
Fixpoint str_split (sep : ascii) (s : string) : list string :=
  match s with
  | EmptyString => [EmptyString]
  | String c s' =>
      if Ascii.eqb c sep then EmptyString :: str_split sep s'
      else match str_split sep s' with
           | [] => [String c EmptyString]
           | field :: fields => String c field :: fields
           end
  end.

(** [for x in xs: body], a body that always falls through. *)
Definition for_each {S X} (xs : list X) (body : X -> M S unit) : M S unit :=
  for_in xs (fun x => body x ;; ret None) (ret tt).

(** [v == s] for a JSON value [v] and a string [s]. *)
Definition eq_str (v : pyval) (s : string) : bool :=
  match v with
  | PyStr s' => String.eqb s' s
  | _ => false
  end.

(** [key in v], for a string [key]: a key of a dict, an element of a
    list, a substring of a string; other values are not iterable. *)
Definition contains (v : pyval) (key : string) : result bool :=
  match v with
  | PyDict d => Return (bool_decide (is_Some (dict_lookup d key)))
  | PyList l => Return (existsb (fun x => eq_str x key) l)
  | PyStr s => Return (bool_decide (is_Some (String.index 0 key s)))
  | _ => Raise (Exn TypeError "argument of type is not iterable")
  end.

(** A JSON value as a number, where arithmetic takes it as one. *)
Definition number (v : pyval) : result Q :=
  match v with
  | PyInt z => Return (inject_Z z)
  | PyBool b => Return (inject_Z (if b then 1 else 0))
  | _ => Raise (Exn TypeError "unsupported operand type(s)")
  end.

(** [v + s] for a JSON value [v] and a string [s]. *)
Definition concat (v : pyval) (s : string) : result string :=
  match v with
  | PyStr p => Return (p ++ s)
  | _ => Raise (Exn TypeError "unsupported operand type(s) for +")
  end.

End Builtin.

(** ** OptionExpandedSchedule: a schedule expanded into ranges *)

Module OptionExpandedSchedule.

Import Builtin.

(** The [__schedules] of the configuration: the time range the
    expansion covers, as [(start, duration)], and for every schedule
    its active ranges, each [(start, duration)].  A key that is missing
    is [None]. *)
Record schedules := Schedules {
  range : option (Q * Q);
  expanded : option (gmap string (list (Q * Q)))
}.

(** The object's attributes; [_schedules] is [None] when the
    configuration has no [__schedules]. *)
Record state := State {
  _value : string;
  _schedules : option schedules
}.






End OptionExpandedSchedule.

(** ** InfoBeamerQuery: the queries *)

Module Queries.

Import InfoBeamerQuery Builtin.

(** [close(self)] *)
Definition close : M state unit := _reset true.

(** [ping] *)
Definition ping : M state bool :=
  response <- _send_cmd "0.6" "*query/*ping" false ;;
  ret (String.eqb response "pong").

(** [version] *)
Definition version : M state string :=
  _send_cmd "0.6" "*query/*version" false.

(** [runid] *)
Definition runid : M state string :=
  _send_cmd "0.9.0" "*query/*runid" false.

(** [nodes] *)
Definition nodes : M state (list string) :=
  response <- _send_cmd "0.9.3" "*query/*nodes" false ;;
  let nodes := str_split "," response in
  if is_empty (hd "" nodes) then ret [] else ret nodes.

(** [Node.error] *)
Definition Node_error (path : string) : M state string :=
  _send_cmd "0.8.2" ("*query/*error/" ++ path) true.

End Queries.

(** ** RPC: the receiving side *)

Module Listener.

Import InfoBeamerQuery RPC ProofOfPlay.

(** A registered callback: what calling it with the arguments of a
    line does. *)
Definition callback : Type := list pyval -> M RPC.state unit.

(** [register(self, name, fn)] on [self._callbacks]. *)
Definition register (name : string) (fn : callback)
    (callbacks : gmap string callback) : gmap string callback :=
  <[name := fn]> callbacks.

(** [register_callbacks(self, callbacks)]: [dict.update], the new
    entries win. *)
Definition register_callbacks (new callbacks : gmap string callback)
    : gmap string callback :=
  new ∪ callbacks.

(** [con.readline()], on the stream the channel holds. *)
Definition readline : M RPC.state string :=
  fun s =>
    match _con s with
    | None => (Raise (AttributeError_None "readline"), s)
    | Some fo =>
        match fo_recvs fo with
        | [] => (Return "", s)
        | r :: rest =>
            let s' := set_con (Some (FileObj (fo_id fo) (fo_sends fo) rest)) s in
            match r with
            | inl e => (Raise e, s')
            | inr line => (Return line, s')
            end
        end
    end.

(** [_recv(self)]: the line, or Python's [None]. *)
Definition _recv : M RPC.state (option string) :=
  con <- _get_connection ;;
  try_except_all
    (line <- readline ;; ret (Some line))
    (_close_connection ;; ret None).

(** [method = args.pop(0)] on the decoded line: the method and the
    arguments left, or [None] when the call raises ([IndexError] on an
    empty list, [KeyError] on a dict, [AttributeError] on the others). *)
Definition pop0 (args : pyval) : option (pyval * list pyval) :=
  match args with
  | PyList (method :: rest) => Some (method, rest)
  | _ => None
  end.

(** [self._callbacks.get(method)]: a list or a dict cannot be hashed;
    the names registered are strings. *)
Definition lookup_callback (callbacks : gmap string callback)
    (method : pyval) : result (option callback) :=
  match method with
  | PyStr name => Return (callbacks !! name)
  | PyList _ => Raise (Exn TypeError "unhashable type: 'list'")
  | PyDict _ => Raise (Exn TypeError "unhashable type: 'dict'")
  | _ => Return None
  end.

(** What one turn of the loop of [_listen_thread] did. *)
Inductive turn :=
  | Idle                    (* no line: closed the connection, slept 0.5 s *)
  | Called (name : pyval)   (* the callback registered for the method ran *)
  | NotFound (name : pyval) (* logged that there is no such callback *)
  | Failed.                 (* an exception, printed by traceback.print_exc() *)

Section Listen.

(** [json.loads(line)], a function of the standard library. *)
Variable json_loads : string -> result pyval.

(** The [try] statement of the loop, whose bare [except] prints the
    exception and goes on. *)
Definition dispatch (callbacks : gmap string callback) (line : string)
    : M RPC.state turn :=
  try_except_all
    (args <- lift (json_loads line) ;;
     match pop0 args with
     | None => ret Failed
     | Some (method, args) =>
         callback <- lift (lookup_callback callbacks method) ;;
         match callback with
         | Some fn => fn args ;; ret (Called method)
         | None => ret (NotFound method)
         end
     end)
    (ret Failed).

(** One turn of the [while 1] loop of [_listen_thread], with the
    callbacks registered at that time. *)
Definition _listen_thread_turn (callbacks : gmap string callback)
    : M RPC.state turn :=
  line <- _recv ;;
  match line with
  | None => _close_connection ;; ret Idle
  | Some line =>
      if is_empty line then _close_connection ;; ret Idle
      else dispatch callbacks line
  end.

End Listen.

End Listener.

(** ** Cache: values kept in files of the working directory *)

Module Cache.

Import Builtin ProofOfPlay.

(** A file: its bytes and the time of its last modification. *)
Record file := File {
  data : string;
  st_mtime : Q
}.

(** How writing a file can fail: [open(fname, "wb")] raises and the
    file is as before, or [f.write(value)] raises after [open] has
    truncated the file. *)
Inductive fault := open_fails | write_fails.

(** The machine around the cache: the files of the working directory
    by name; the time, which [time.time()] reads and which stamps the
    files written; whether the next writes fail (exhausted: they do
    not); the files that [os.unlink] cannot remove. *)
Record world := World {
  files : gmap string file;
  now : Q;
  write_faults : list (option fault);
  undeletable : gset string
}.

Definition set_files (v : gmap string file) (w : world) : world :=
  {| files := v; now := now w; write_faults := write_faults w;
     undeletable := undeletable w |}.

Definition set_now (v : Q) (w : world) : world :=
  {| files := files w; now := v; write_faults := write_faults w;
     undeletable := undeletable w |}.

Definition set_write_faults (v : list (option fault)) (w : world) : world :=
  {| files := files w; now := now w; write_faults := v;
     undeletable := undeletable w |}.

(** The object's attributes. *)
Record state := State {
  _touched : gset string;
  _prefix : string;
  env : world
}.

(** [__init__(self, scope='default')] *)
Definition __init__ (scope : string) (w : world) : state :=
  {| _touched := ∅; _prefix := "cache-" ++ scope ++ "-"; env := w |}.

Definition set_touched (v : gset string) (s : state) : state :=
  {| _touched := v; _prefix := _prefix s; env := env s |}.

Definition set_env (w : world) (s : state) : state :=
  {| _touched := _touched s; _prefix := _prefix s; env := w |}.

Definition on_env (f : world -> world) : M state unit :=
  modify (fun s => set_env (f (env s)) s).

(** *** The operating system *)

(** [time.time()] *)
Definition time_time : M state Q :=
  s <- get ;; ret (now (env s)).

(** [os.stat(fname)], and [open(fname)] with what [f.read()] and
    [os.fstat(f.fileno())] give. *)
Definition os_stat (fname : string) : M state file :=
  s <- get ;;
  match files (env s) !! fname with
  | None => raise (Exn OSError "[Errno 2] No such file or directory")
  | Some f => ret f
  end.

Definition open_r (fname : string) : M state file :=
  s <- get ;;
  match files (env s) !! fname with
  | None => raise (Exn IOError "[Errno 2] No such file or directory")
  | Some f => ret f
  end.

(** [with open(fname, "wb") as f: f.write(value)] *)
Definition open_wb_write (fname value : string) : M state unit :=
  s <- get ;;
  on_env (set_write_faults (tail (write_faults (env s)))) ;;
  match hd None (write_faults (env s)) with
  | Some open_fails => raise (Exn IOError "[Errno 13] Permission denied")
  | Some write_fails =>
      on_env (set_files (<[fname := File "" (now (env s))]> (files (env s)))) ;;
      raise (Exn IOError "[Errno 28] No space left on device")
  | None =>
      on_env (set_files (<[fname := File value (now (env s))]> (files (env s))))
  end.

(** [os.listdir(".")], in the order the map enumerates. *)
Definition os_listdir : M state (list string) :=
  s <- get ;; ret ((map_to_list (files (env s))).*1).

(** [os.unlink(fname)] *)
Definition os_unlink (fname : string) : M state unit :=
  s <- get ;;
  match files (env s) !! fname with
  | None => raise (Exn OSError "[Errno 2] No such file or directory")
  | Some _ =>
      if bool_decide (fname ∈ undeletable (env s))
      then raise (Exn OSError "[Errno 13] Permission denied")
      else on_env (set_files (delete fname (files (env s))))
  end.

Section Digest.

(** [hashlib.md5(key).hexdigest()] *)
Variable md5_hexdigest : string -> string.

(** [key_to_fname(self, key)] *)
Definition key_to_fname (key : string) : M state string :=
  s <- get ;; ret (_prefix s ++ md5_hexdigest key).

(** The name of the file of a key, and the state in which that file
    is marked as used. *)
Definition file_of (key : string) (s : state) : string :=
  _prefix s ++ md5_hexdigest key.

Definition marked (key : string) (s : state) : state :=
  set_touched ({[ file_of key s ]} ∪ _touched s) s.

(** Whether a file stamped [mtime] is too old: [max_age is not None]
    and [now > stat.st_mtime + max_age]. *)
Definition expired (max_age : option Q) (mtime : Q) : M state bool :=
  match max_age with
  | None => ret false
  | Some age => now <- time_time ;; ret (gt now (mtime + age))
  end.

(** [has(self, key, max_age=None)] *)
Definition has (key : string) (max_age : option Q) : M state bool :=
  try_except_all
    (fname <- key_to_fname key ;;
     stat <- os_stat fname ;;
     old <- expired max_age (st_mtime stat) ;;
     if (old : bool) then ret false else ret true)
    (ret false).

(** [file_ref(self, key)] *)
Definition file_ref (key : string) : M state string :=
  fname <- key_to_fname key ;;
  modify (fun s => set_touched ({[ fname ]} ∪ _touched s) s) ;;
  ret fname.

(** [get(self, key, max_age=None)]: the bytes, or Python's [None]. *)
Definition get (key : string) (max_age : option Q) : M state (option string) :=
  try_except_all
    (fname <- file_ref key ;;
     f <- open_r fname ;;
     old <- expired max_age (st_mtime f) ;;
     if (old : bool) then ret None else ret (Some (data f)))
    (ret None).

(** [set(self, key, value)] *)
Definition set (key value : string) : M state unit :=
  fname <- file_ref key ;;
  open_wb_write fname value.

(** [start(self)] *)
Definition start : M state unit :=
  modify (set_touched ∅).

(** [prune(self)] *)
Definition prune : M state unit :=
  s <- Py.get ;;
  listing <- os_listdir ;;
  let existing : gset string :=
    list_to_set (List.filter (String.prefix (_prefix s)) listing) in
  let prunable := existing ∖ _touched s in
  for_each (elements prunable)
    (fun fname => try_except_all (os_unlink fname) (ret tt)).

(** [clear(self)] *)
Definition clear : M state unit :=
  start ;; prune.

(** [json.loads] and [json.dumps], [marshal.loads] and the two uses of
    [marshal.dumps]: on a value, and on [(fn.__name__, args, kwargs)],
    given as the name and the arguments. *)
Variable json_loads : string -> result pyval.
Variable json_dumps : pyval -> result string.
Variable marshal_loads : string -> result pyval.
Variable marshal_dumps : pyval -> result string.
Variable marshal_dumps_call : string -> pyval -> result string.

(** [get_json(self, key, max_age=None)] *)
Definition get_json (key : string) (max_age : option Q)
    : M state (option pyval) :=
  data <- get key max_age ;;
  match data with
  | None => ret None
  | Some data => v <- lift (json_loads data) ;; ret (Some v)
  end.

(** [set_json(self, key, data)] *)
Definition set_json (key : string) (data : pyval) : M state unit :=
  value <- lift (json_dumps data) ;;
  set key value.


(** [file_producer(self, max_age=None)]: the [wrapper] around [fn],
    which gives the bytes of the file or Python's [None]. *)
Definition file_producer (max_age : option Q) (name : string)
    (fn : pyval -> M state (option string)) (args : pyval)
    : M state (option string) :=
  key <- lift (marshal_dumps_call name args) ;;
  present <- has key max_age ;;
  if (present : bool) then fname <- file_ref key ;; ret (Some fname)
  else
    val <- fn args ;;
    match val with
    | None => ret None
    | Some val =>
        set key val ;;
        fname <- file_ref key ;;
        ret (Some fname)
    end.

End Digest.

(** Time passes: the state when the clock shows [t]. *)
Definition at_time (t : Q) (s : state) : state :=
  set_env (set_now t (env s)) s.

End Cache.

(** ** DeviceKV: the key-value store of the device, with its cache *)

Module DeviceKV.

Import Builtin ProofOfPlay.

(** A call on [self._api['kv']]: [post(data=...)],
    [get(params=dict(keys=key), timeout=5)] or [get(timeout=5)],
    [delete(params=dict(keys=key), timeout=5)] or [delete()]. *)
Inductive request :=
  | Post (data : gmap string string)
  | Get (keys : option string)
  | Delete (keys : option string).

(** The machine around the store: the readings of [monotonic_time()]
    in turn (exhausted: 0); what the calls on the API return or raise,
    in turn (exhausted: an [APIError]); the calls made, the latest
    last. *)
Record world := World {
  clock : list Q;
  answers : list (result pyval);
  requests : list request
}.

(** The object's attributes.  Keys and the values the caller stores
    are strings; the values the server sends are JSON values. *)
Record state := State {
  _cache : gmap string pyval;
  _cache_complete : bool;
  _use_cache : bool;
  _next_refresh : Q;
  env : world
}.

Definition set_cache (v : gmap string pyval) (s : state) : state :=
  {| _cache := v; _cache_complete := _cache_complete s;
     _use_cache := _use_cache s; _next_refresh := _next_refresh s;
     env := env s |}.

Definition set_cache_complete (v : bool) (s : state) : state :=
  {| _cache := _cache s; _cache_complete := v;
     _use_cache := _use_cache s; _next_refresh := _next_refresh s;
     env := env s |}.

Definition set_use_cache (v : bool) (s : state) : state :=
  {| _cache := _cache s; _cache_complete := _cache_complete s;
     _use_cache := v; _next_refresh := _next_refresh s;
     env := env s |}.

Definition set_next_refresh (v : Q) (s : state) : state :=
  {| _cache := _cache s; _cache_complete := _cache_complete s;
     _use_cache := _use_cache s; _next_refresh := v;
     env := env s |}.

Definition set_env (w : world) (s : state) : state :=
  {| _cache := _cache s; _cache_complete := _cache_complete s;
     _use_cache := _use_cache s; _next_refresh := _next_refresh s;
     env := w |}.

(** [monotonic_time()] *)
Definition monotonic_time : M state Q :=
  s <- get ;;
  modify (set_env {| clock := tail (clock (env s));
                     answers := answers (env s);
                     requests := requests (env s) |}) ;;
  ret (hd 0%Q (clock (env s))).

(** A call on [self._api['kv']]. *)
Definition api (r : request) : M state pyval :=
  s <- get ;;
  modify (set_env {| clock := clock (env s);
                     answers := tail (answers (env s));
                     requests := requests (env s) ++ [r] |}) ;;
  lift (hd (Raise (Exn APIError "connection error")) (answers (env s))).

(** [__init__(self, api)] *)
Definition __init__ (w : world) : state :=
  {| _cache := ∅; _cache_complete := false; _use_cache := true;
     _next_refresh := hd 0%Q (clock w) + 3600;
     env := {| clock := tail (clock w); answers := answers w;
               requests := requests w |} |}.

(** How a method ends: it returns, or raises [DeviceKV.Error(err)],
    the class of this module, around the exception [err] it caught, or
    raises an exception of the interpreter. *)
Inductive outcome (A : Type) :=
  | Returned (a : A)
  | RaisedError (err : exn)
  | Raised (e : exn).
Arguments Returned {A} a.
Arguments RaisedError {A} err.
Arguments Raised {A} e.

Definition K (A : Type) : Type := state -> outcome A * state.

(** [try: body  except Exception as err: raise self.Error(err)] *)
Definition guarded {A} (body : M state A) : K A :=
  fun s => match body s with
           | (Return a, s') => (Returned a, s')
           | (Raise e, s') =>
               if isinstance e Exception then (RaisedError e, s')
               else (Raised e, s')
           end.

(** The same with [except KeyError: raise] before. *)
Definition guarded_but_KeyError {A} (body : M state A) : K A :=
  fun s => match body s with
           | (Return a, s') => (Returned a, s')
           | (Raise e, s') =>
               if isinstance e KeyError then (Raised e, s')
               else if isinstance e Exception then (RaisedError e, s')
               else (Raised e, s')
           end.

(** A method called first, and what follows when it returns. *)
Definition and_then {A B} (m : K A) (k : A -> K B) : K B :=
  fun s => match m s with
           | (Returned a, s') => k a s'
           | (RaisedError err, s') => (RaisedError err, s')
           | (Raised e, s') => (Raised e, s')
           end.

Definition returning {A} (a : A) : K A := fun s => (Returned a, s).

(** [cache_enabled(self, enabled)] *)
Definition cache_enabled (enabled : bool) : K unit :=
  fun s => (Returned tt,
            set_cache_complete false (set_cache ∅ (set_use_cache enabled s))).

(** Code outside every [try]: what it raises reaches the caller. *)
Definition plain {A} (body : M state A) : K A :=
  fun s => match body s with
           | (Return a, s') => (Returned a, s')
           | (Raise e, s') => (Raised e, s')
           end.

(** [self._next_refresh = monotonic_time() + 3600] *)
Definition postpone_refresh : M state unit :=
  now <- monotonic_time ;;
  modify (set_next_refresh (now + 3600)).

(** [maybe_refresh(self)] *)
Definition maybe_refresh : K unit :=
  and_then (plain monotonic_time) (fun now s =>
    if lt now (_next_refresh s) then (Returned tt, s)
    else
      and_then (plain postpone_refresh)
        (fun _ => guarded (api (Post ∅) ;; ret tt)) s).

(** [key in self._cache and self._cache[key] == value] *)
Definition cached_as (key value : string) (s : state) : bool :=
  match _cache s !! key with
  | Some v => eq_str v value
  | None => false
  end.

(** [__setitem__(self, key, value)] *)
Definition __setitem__ (key value : string) : K unit :=
  fun s =>
    if (_use_cache s && cached_as key value s)%bool then maybe_refresh s
    else
      guarded
        (api (Post {[ key := value ]}) ;;
         s' <- get ;;
         if _use_cache s' then
           postpone_refresh ;;
           modify (fun s => set_cache (<[key := PyStr value]> (_cache s)) s)
         else ret tt)
        s.

(** [__getitem__(self, key)] *)
Definition __getitem__ (key : string) : K pyval :=
  fun s =>
    match (if _use_cache s then _cache s !! key else None) with
    | Some _ =>
        and_then maybe_refresh
          (fun _ => plain (s' <- get ;;
                           match _cache s' !! key with
                           | Some value => ret value
                           | None => raise (Exn KeyError key)
                           end)) s
    | None =>
        guarded_but_KeyError
          (answer <- api (Get (Some key)) ;;
           result <- lift (getitem answer "v") ;;
           present <- lift (contains result key) ;;
           (if negb present then raise (Exn KeyError key) else ret tt) ;;
           value <- lift (getitem result key) ;;
           s' <- get ;;
           (if _use_cache s' then
              postpone_refresh ;;
              modify (fun s => set_cache (<[key := value]> (_cache s)) s)
            else ret tt) ;;
           ret value)
          s
    end.

(** [__delitem__(self, key)] *)
Definition __delitem__ (key : string) : K unit :=
  fun s =>
    if (_use_cache s && _cache_complete s &&
        negb (bool_decide (is_Some (_cache s !! key))))%bool
    then maybe_refresh s
    else
      guarded
        (api (Delete (Some key)) ;;
         s' <- get ;;
         if (_use_cache s' && bool_decide (is_Some (_cache s' !! key)))%bool then
           postpone_refresh ;;
           modify (fun s => set_cache (delete key (_cache s)) s)
         else ret tt)
        s.

(** The entries of [dct] that [update] leaves in it: those not cached
    with the same value. *)
Definition changed (dct : gmap string string) (s : state)
    : gmap string string :=
  filter (fun kv => cached_as (fst kv) (snd kv) s = false) dct.

(** [update(self, dct)]: along with the outcome, the dict of the
    caller as the call leaves it. *)
Definition update (dct : gmap string string) : K (gmap string string) :=
  fun s =>
    let dct' := if _use_cache s then changed dct s else dct in
    if (_use_cache s && bool_decide (dct' = ∅))%bool
    then and_then maybe_refresh (fun _ => returning dct') s
    else
      guarded
        (api (Post dct') ;;
         s' <- get ;;
         (if _use_cache s' then
            postpone_refresh ;;
            modify (fun s => set_cache ((PyStr <$> dct') ∪ _cache s) s)
          else ret tt) ;;
         ret dct')
        s.

(** [get(self, key, default=None)] *)
Definition get (key : string) (default : pyval) : K pyval :=
  fun s =>
    match __getitem__ key s with
    | (Raised e, s') =>
        if isinstance e KeyError then (Returned default, s')
        else (Raised e, s')
    | other => other
    end.

(** [result.iteritems()] and [result.items()] on what the server
    sent. *)
Definition dict_items (v : pyval) : result (list (string * pyval)) :=
  match v with
  | PyDict d => Return d
  | _ => Raise (Exn AttributeError "object has no attribute 'iteritems'")
  end.

(** [items(self)] *)
Definition items : K (list (string * pyval)) :=
  fun s =>
    if (_use_cache s && _cache_complete s)%bool
    then and_then maybe_refresh
           (fun _ s' => (Returned (map_to_list (_cache s')), s')) s
    else
      guarded
        (answer <- api (Get None) ;;
         result <- lift (getitem answer "v") ;;
         s' <- Py.get ;;
         (if _use_cache s' then
            postpone_refresh ;;
            entries <- lift (dict_items result) ;;
            modify (fun s =>
              set_cache (foldl (fun c kv => <[fst kv := snd kv]> c)
                               (_cache s) entries) s) ;;
            modify (set_cache_complete true)
          else ret tt) ;;
         lift (dict_items result))
        s.

(** [clear(self)] *)
Definition clear : K unit :=
  guarded
    (api (Delete None) ;;
     s' <- Py.get ;;
     if _use_cache s' then
       modify (set_cache ∅) ;;
       modify (set_cache_complete false)
     else ret tt).

(** The state after one reading of the clock. *)
Definition after_reading (s : state) : state := snd (monotonic_time s).

(** The state after a call on the API. *)
Definition requested (r : request) (s : state) : state := snd (api r s).

(** The next reading of the clock. *)
Definition next_reading (s : state) : Q := hd 0%Q (clock (env s)).

End DeviceKV.

(** ** OnDeviceAPIs: the index of the APIs, fetched and kept *)

Module OnDeviceAPIs.

Import Builtin ProofOfPlay.

(** The machine around the object: the readings of [time.time()] in
    turn and how many were made; what [self._session.get] returns or
    raises, in turn (exhausted: a [requests] error); how many requests
    were made. *)
Record world := World {
  time_time : nat -> Q;
  reads : nat;
  answers : list (result response);
  fetched : nat
}.

(** The object's attributes; [metadata] is [self._config.metadata],
    a dict. *)
Record state := State {
  metadata : list (string * pyval);
  _index : pyval;
  _valid_until : Q;
  env : world
}.

Definition set_index (v : pyval) (s : state) : state :=
  {| metadata := metadata s; _index := v;
     _valid_until := _valid_until s; env := env s |}.

Definition set_valid_until (v : Q) (s : state) : state :=
  {| metadata := metadata s; _index := _index s;
     _valid_until := v; env := env s |}.

Definition set_env (w : world) (s : state) : state :=
  {| metadata := metadata s; _index := _index s;
     _valid_until := _valid_until s; env := w |}.

(** [__init__(self, config)] *)
Definition __init__ (config_metadata : list (string * pyval)) (w : world)
    : state :=
  {| metadata := config_metadata; _index := PyNone; _valid_until := 0;
     env := w |}.

(** [time.time()] *)
Definition now : M state Q :=
  s <- get ;;
  modify (set_env {| time_time := time_time (env s);
                     reads := S (reads (env s));
                     answers := answers (env s);
                     fetched := fetched (env s) |}) ;;
  ret (time_time (env s) (reads (env s))).

(** [self._session.get(url=url, timeout=5)] *)
Definition session_get (url : pyval) : M state response :=
  s <- get ;;
  modify (set_env {| time_time := time_time (env s);
                     reads := reads (env s);
                     answers := tail (answers (env s));
                     fetched := S (fetched (env s)) |}) ;;
  lift (hd (Raise (Exn RequestException "connection error"))
           (answers (env s))).

(** [update_apis(self)] *)
Definition update_apis : M state unit :=
  s <- get ;;
  url <- lift (getitem (PyDict (metadata s)) "api") ;;
  r <- session_get url ;;
  (match raise_for_status r with
   | Some e => raise e
   | None => ret tt
   end) ;;
  resp <- lift (json r) ;;
  ok <- lift (getitem resp "ok") ;;
  (if negb (truthy ok)
   then raise (Exn APIError "cannot retrieve api index")
   else ret tt) ;;
  apis <- lift (getitem resp "apis") ;;
  modify (set_index apis) ;;
  valid_until <- lift (getitem resp "valid_until") ;;
  valid_until <- lift (number valid_until) ;;
  modify (set_valid_until (valid_until - 300)).

(** [get_api_index(self)] *)
Definition get_api_index : M state pyval :=
  now <- now ;;
  s <- get ;;
  (if gt now (_valid_until s) then update_apis else ret tt) ;;
  s <- get ;;
  ret (_index s).

(** The state after one reading of the clock. *)
Definition after_reading (s : state) : state := snd (now s).

(** The next reading of the clock. *)
Definition next_reading (s : state) : Q := time_time (env s) (reads (env s)).

End OnDeviceAPIs.

(** ** HostedAPI: calls on the hosted API with a key for the occasion *)

Module HostedAPI.

Import Builtin ProofOfPlay.

Inductive verb := GET | POST | DELETE.

(** The machine around the object: the readings of [time.time()] in
    turn and how many were made; what
    [self._api['api_key'].get(...)] returns or raises, in turn
    (exhausted: an [APIError]), and for each of these requests the
    reading of the clock before it, the latest last; what the requests
    of [self._session] return or raise, in turn (exhausted: a
    [requests] error), and these requests, with their URL and their
    keyword arguments. *)
Record world := World {
  time_time : nat -> Q;
  reads : nat;
  key_answers : list (result pyval);
  key_requests : list Q;
  answers : list (result response);
  sent : list (verb * string * gmap string pyval)
}.

Definition set_reads (v : nat) (w : world) : world :=
  {| time_time := time_time w; reads := v; key_answers := key_answers w;
     key_requests := key_requests w; answers := answers w; sent := sent w |}.

Definition set_key_answers (v : list (result pyval)) (w : world) : world :=
  {| time_time := time_time w; reads := reads w; key_answers := v;
     key_requests := key_requests w; answers := answers w; sent := sent w |}.

Definition set_key_requests (v : list Q) (w : world) : world :=
  {| time_time := time_time w; reads := reads w; key_answers := key_answers w;
     key_requests := v; answers := answers w; sent := sent w |}.

Definition set_answers (v : list (result response)) (w : world) : world :=
  {| time_time := time_time w; reads := reads w; key_answers := key_answers w;
     key_requests := key_requests w; answers := v; sent := sent w |}.

Definition set_sent (v : list (verb * string * gmap string pyval))
    (w : world) : world :=
  {| time_time := time_time w; reads := reads w; key_answers := key_answers w;
     key_requests := key_requests w; answers := answers w; sent := v |}.

(** The object's attributes. *)
Record state := State {
  _next_refresh : Q;
  _api_key : pyval;
  _uses : pyval;
  _expire : Q;
  _base_url : pyval;
  env : world
}.

Definition set_next_refresh (v : Q) (s : state) : state :=
  {| _next_refresh := v; _api_key := _api_key s; _uses := _uses s;
     _expire := _expire s; _base_url := _base_url s; env := env s |}.

Definition set_api_key (v : pyval) (s : state) : state :=
  {| _next_refresh := _next_refresh s; _api_key := v; _uses := _uses s;
     _expire := _expire s; _base_url := _base_url s; env := env s |}.

Definition set_uses (v : pyval) (s : state) : state :=
  {| _next_refresh := _next_refresh s; _api_key := _api_key s; _uses := v;
     _expire := _expire s; _base_url := _base_url s; env := env s |}.

Definition set_expire (v : Q) (s : state) : state :=
  {| _next_refresh := _next_refresh s; _api_key := _api_key s;
     _uses := _uses s; _expire := v; _base_url := _base_url s;
     env := env s |}.

Definition set_base_url (v : pyval) (s : state) : state :=
  {| _next_refresh := _next_refresh s; _api_key := _api_key s;
     _uses := _uses s; _expire := _expire s; _base_url := v;
     env := env s |}.

Definition set_env (w : world) (s : state) : state :=
  {| _next_refresh := _next_refresh s; _api_key := _api_key s;
     _uses := _uses s; _expire := _expire s; _base_url := _base_url s;
     env := w |}.

Definition on_env (f : world -> world) : M state unit :=
  modify (fun s => set_env (f (env s)) s).

(** [__init__(self, api, on_device_token)] *)
Definition __init__ (w : world) : state :=
  {| _next_refresh := 0; _api_key := PyNone; _uses := PyInt 0;
     _expire := 0; _base_url := PyNone; env := w |}.

(** [time.time()] *)
Definition now : M state Q :=
  s <- get ;;
  on_env (set_reads (S (reads (env s)))) ;;
  ret (time_time (env s) (reads (env s))).

(** The reading of the clock made last (0 before the first). *)
Definition last_reading (w : world) : Q :=
  match reads w with
  | O => 0
  | S n => time_time w n
  end.

(** [self._api['api_key'].get(params=dict(on_device_token=...),
    timeout=5)] *)
Definition get_api_key : M state pyval :=
  s <- get ;;
  on_env (set_key_answers (tail (key_answers (env s)))) ;;
  on_env (fun w => set_key_requests (key_requests w ++ [last_reading w]) w) ;;
  lift (hd (Raise (Exn APIError "connection error")) (key_answers (env s))).

(** [v - 1] on the value of [self._uses]. *)
Definition minus_one (v : pyval) : result Z :=
  match v with
  | PyInt z => Return (z - 1)%Z
  | PyBool b => Return ((if b then 1 else 0) - 1)%Z
  | _ => Raise (Exn TypeError "unsupported operand type(s) for -=")
  end.

Definition is_None (v : pyval) : bool :=
  match v with
  | PyNone => true
  | _ => false
  end.

(** The block of [use_api_key] under [if self._api_key is None], up
    to the [return] after it; [now_] is the time read at the start of
    [use_api_key]. *)
Definition refresh_api_key (now_ : Q) : M state pyval :=
  s <- get ;;
  t <- now ;;
  if lt t (_next_refresh s) then ret PyNone
  else
    t <- now ;;
    modify (set_next_refresh (t + 15)) ;;
    answer <- try_except_all
                (r <- get_api_key ;; ret (Some r))
                (ret None) ;;
    match answer with
    | None => ret PyNone
    | Some r =>
        api_key <- lift (getitem r "api_key") ;;
        modify (set_api_key api_key) ;;
        uses <- lift (getitem r "uses") ;;
        modify (set_uses uses) ;;
        expire <- lift (getitem r "expire") ;;
        expire <- lift (number expire) ;;
        modify (set_expire (now_ + expire - 1)) ;;
        base_url <- lift (getitem r "base_url") ;;
        modify (set_base_url base_url) ;;
        s <- get ;;
        ret (_api_key s)
    end.

(** [use_api_key(self)] *)
Definition use_api_key : M state pyval :=
  now_ <- now ;;
  s <- get ;;
  uses <- lift (minus_one (_uses s)) ;;
  modify (set_uses (PyInt uses)) ;;
  s <- get ;;
  (if (uses <=? 0)%Z then modify (set_api_key PyNone)
   else if gt now_ (_expire s) then modify (set_api_key PyNone)
   else ret tt) ;;
  s <- get ;;
  if is_None (_api_key s) then refresh_api_key now_
  else ret (_api_key s).

(** [add_default_args(self, kwargs)] *)
Definition add_default_args (kwargs : gmap string pyval)
    : gmap string pyval :=
  match kwargs !! "timeout" with
  | Some _ => kwargs
  | None => <["timeout" := PyInt 10]> kwargs
  end.

(** [ensure_api_key(self, kwargs)]: the keyword arguments with
    [auth]; the pair [('', api_key)] is given as a list. *)
Definition ensure_api_key (kwargs : gmap string pyval)
    : M state (gmap string pyval) :=
  api_key <- use_api_key ;;
  if is_None api_key then raise (Exn APIError "cannot retrieve API key")
  else ret (<["auth" := PyList [PyStr ""; api_key]]> kwargs).

(** [self._session.get], [.post] or [.delete] with [url] and the
    keyword arguments. *)
Definition session_request (v : verb) (url : string)
    (kwargs : gmap string pyval) : M state response :=
  s <- get ;;
  on_env (set_answers (tail (answers (env s)))) ;;
  on_env (fun w => set_sent (sent w ++ [(v, url, kwargs)]) w) ;;
  lift (hd (Raise (Exn RequestException "connection error"))
           (answers (env s))).

(** The body that [get], [post] and [delete] share, each with the
    request of its own. *)
Definition request (v : verb) (endpoint : string)
    (kwargs : gmap string pyval) : M state pyval :=
  try_except
    (kwargs <- ensure_api_key kwargs ;;
     s <- get ;;
     url <- lift (concat (_base_url s) endpoint) ;;
     r <- session_request v url (add_default_args kwargs) ;;
     (match raise_for_status r with
      | Some e => raise e
      | None => ret tt
      end) ;;
     lift (json r))
    [ (APIError, fun err => raise err);
      (Exception, fun err => raise (Exn APIError (exn_msg err))) ].

(** [get(self, endpoint, **kwargs)] *)
Definition get (endpoint : string) (kwargs : gmap string pyval)
    : M state pyval :=
  request GET endpoint kwargs.

(** [post(self, endpoint, **kwargs)] *)
Definition post (endpoint : string) (kwargs : gmap string pyval)
    : M state pyval :=
  request POST endpoint kwargs.

(** [delete(self, endpoint, **kwargs)] *)
Definition delete (endpoint : string) (kwargs : gmap string pyval)
    : M state pyval :=
  request DELETE endpoint kwargs.

(** The state after so many calls of [use_api_key], whatever they
    return or raise. *)
Fixpoint after_calls (n : nat) (s : state) : state :=
  match n with
  | O => s
  | S n' => after_calls n' (snd (use_api_key s))
  end.

(** Times that lie at least 15 seconds after one another. *)
Fixpoint spaced (times : list Q) : Prop :=
  match times with
  | [] => True
  | t :: rest => Forall (fun t' => (t + 15 <= t')%Q) rest /\ spaced rest
  end.

(** A clock that does not go back. *)
Definition monotone (clock : nat -> Q) : Prop :=
  forall i j, (i <= j)%nat -> (clock i <= clock j)%Q.

End HostedAPI.

(** ** Device: the connection to the syncer *)

Module Device.

(** A socket: its number, and whether [connect] has succeeded on it. *)
Record sock := Sock {
  sock_id : nat;
  connected : bool
}.

(** What happens on the sockets, in order. *)
Inductive event :=
  | EvConnect (id : nat) (ok : bool)     (* sock.connect called *)
  | EvSend (id : nat) (data : string)    (* sock.send delivered the data *)
  | EvClose (id : nat).                  (* sock.close called *)

(** The machine around the object: what [connect] and what [send] on
    a connected socket raise, if anything, in turn (exhausted: they
    succeed); the number of sockets created; the calls made, the
    latest last.  A socket can always be created, and closing it does
    not raise. *)
Record world := World {
  connects : list (option exn);
  sends : list (option exn);
  created : nat;
  trace : list event
}.

(** The object's attribute [_socket]. *)
Record state := State {
  _socket : option sock;
  env : world
}.

Definition set_socket (v : option sock) (s : state) : state :=
  {| _socket := v; env := env s |}.

Definition set_env (w : world) (s : state) : state :=
  {| _socket := _socket s; env := w |}.

Definition emit (ev : event) : M state unit :=
  modify (fun s => set_env {| connects := connects (env s);
                              sends := sends (env s);
                              created := created (env s);
                              trace := trace (env s) ++ [ev] |} s).

(** [socket.socket(socket.AF_UNIX, socket.SOCK_STREAM)] *)
Definition socket_socket : M state sock :=
  s <- get ;;
  modify (set_env {| connects := connects (env s); sends := sends (env s);
                     created := S (created (env s));
                     trace := trace (env s) |}) ;;
  ret {| sock_id := created (env s); connected := false |}.

(** [self._socket.connect(path)] *)
Definition connect : M state unit :=
  s <- get ;;
  match _socket s with
  | None => raise (InfoBeamerQuery.AttributeError_None "connect")
  | Some sk =>
      modify (set_env {| connects := tail (connects (env s));
                         sends := sends (env s);
                         created := created (env s);
                         trace := trace (env s) |}) ;;
      match hd None (connects (env s)) with
      | Some e => emit (EvConnect (sock_id sk) false) ;; raise e
      | None =>
          emit (EvConnect (sock_id sk) true) ;;
          modify (set_socket (Some {| sock_id := sock_id sk;
                                      connected := true |}))
      end
  end.

(** [self._socket.send(data)]: on a socket that is not connected it
    raises a [socket.error]. *)
Definition send (data : string) : M state unit :=
  s <- get ;;
  match _socket s with
  | None => raise (InfoBeamerQuery.AttributeError_None "send")
  | Some sk =>
      if connected sk then
        modify (set_env {| connects := connects (env s);
                           sends := tail (sends (env s));
                           created := created (env s);
                           trace := trace (env s) |}) ;;
        match hd None (sends (env s)) with
        | Some e => raise e
        | None => emit (EvSend (sock_id sk) data)
        end
      else raise (Exn socket_error "[Errno 107] Transport endpoint is not connected")
  end.

(** [ensure_connected(self)] *)
Definition ensure_connected : M state bool :=
  s <- get ;;
  match _socket s with
  | Some _ => ret true
  | None =>
      try_except
        (sk <- socket_socket ;;
         modify (set_socket (Some sk)) ;;
         connect ;;
         ret true)
        [ (Exception, fun err => ret false) ]
  end.

(** [send_raw(self, raw)] *)
Definition send_raw (raw : string) : M state unit :=
  try_except
    (ok <- ensure_connected ;;
     if (ok : bool) then send (raw ++ nl) else ret tt)
    [ (Exception, fun err =>
         s <- get ;;
         (match _socket s with
          | Some sk => emit (EvClose (sock_id sk))
          | None => ret tt
          end) ;;
         modify (set_socket None)) ].

(** [turn_screen_off(self)] and [reboot(self)], two of the commands
    built on [send_raw]. *)
Definition turn_screen_off : M state unit := send_raw "tv off".
Definition reboot : M state unit := send_raw "system reboot".

(** What a trace shows: the data delivered, and the attempts to
    connect. *)
Definition delivered (t : list event) : list string :=
  omap (fun ev => match ev with EvSend _ data => Some data | _ => None end) t.

Definition attempts (t : list event) : list nat :=
  omap (fun ev => match ev with EvConnect id _ => Some id | _ => None end) t.

End Device.

(** ** Node: files written for the node *)

Module Node.

Import ProofOfPlay.

(** How writing a file through a temporary file can fail: [f.write]
    raises; [f.close] raises while it flushes, with only some bytes
    written; [os.rename] raises. *)
Inductive fault :=
  | write_fails
  | close_fails (written : string)
  | rename_fails.

(** The machine around the node: the files of the working directory
    by name; the random parts of the names that [NamedTemporaryFile]
    tries, in turn; whether the next writes fail (exhausted: they do
    not). *)
Record world := World {
  files : gmap string string;
  random_names : list string;
  faults : list (option fault)
}.

Definition set_files (v : gmap string string) (w : world) : world :=
  {| files := v; random_names := random_names w; faults := faults w |}.

Definition set_random_names (v : list string) (w : world) : world :=
  {| files := files w; random_names := v; faults := faults w |}.

Definition set_faults (v : list (option fault)) (w : world) : world :=
  {| files := files w; random_names := random_names w; faults := v |}.

Definition temp_prefix : string := ".hosted-py-tmp".

(** The first name that is not taken, among those tried. *)
Fixpoint first_free (taken : gmap string string) (candidates : list string)
    : option string * list string :=
  match candidates with
  | [] => (None, [])
  | c :: rest =>
      match taken !! (temp_prefix ++ c) with
      | None => (Some (temp_prefix ++ c), rest)
      | Some _ => first_free taken rest
      end
  end.

(** [NamedTemporaryFile(prefix='.hosted-py-tmp', dir=os.getcwd())]:
    an empty file under a name that was not taken. *)
Definition NamedTemporaryFile : M world string :=
  w <- get ;;
  let (name, rest) := first_free (files w) (random_names w) in
  modify (set_random_names rest) ;;
  match name with
  | None => raise (Exn IOError "[Errno 17] No usable temporary file name found")
  | Some name =>
      modify (fun w => set_files (<[name := ""]> (files w)) w) ;;
      ret name
  end.

(** What goes wrong while the next file is written, if anything. *)
Definition next_fault : M world (option fault) :=
  w <- get ;;
  modify (set_faults (tail (faults w))) ;;
  ret (hd None (faults w)).

(** [f.write(content)]: the bytes go to the buffer of the file. *)
Definition f_write (fault : option fault) : M world unit :=
  match fault with
  | Some write_fails => raise (Exn IOError "[Errno 28] No space left on device")
  | _ => ret tt
  end.

(** [f.close()] on the temporary file [f] to which [content] was
    written: the buffer is flushed; with [f.delete] set, the file is
    removed. *)
Definition f_close (fault : option fault) (f content : string)
    (delete : bool) : M world unit :=
  if delete then modify (fun w => set_files (base.delete f (files w)) w)
  else
    match fault with
    | Some (close_fails written) =>
        modify (fun w => set_files (<[f := written]> (files w)) w) ;;
        raise (Exn IOError "[Errno 28] No space left on device")
    | _ => modify (fun w => set_files (<[f := content]> (files w)) w)
    end.

(** [os.rename(f.name, filename)]: replaces [filename]. *)
Definition os_rename (fault : option fault) (f filename : string)
    : M world unit :=
  match fault with
  | Some rename_fails => raise (Exn OSError "[Errno 13] Permission denied")
  | _ =>
      w <- get ;;
      match files w !! f with
      | None => raise (Exn OSError "[Errno 2] No such file or directory")
      | Some data =>
          modify (set_files (<[filename := data]> (base.delete f (files w))))
      end
  end.

(** [try: body  except: handler; raise  else: orelse] *)
Definition try_reraise_else {S A} (body handler : M S unit) (orelse : M S A)
    : M S A :=
  fun s => match body s with
           | (Return _, s') => orelse s'
           | (Raise e, s') =>
               match handler s' with
               | (Return _, s'') => (Raise e, s'')
               | (Raise e', s'') => (Raise e', s'')
               end
           end.

(** [write_file(self, filename, content)] *)
Definition write_file (filename content : string) : M world unit :=
  f <- NamedTemporaryFile ;;
  fault <- next_fault ;;
  try_reraise_else
    (f_write fault)
    (f_close fault f "" true)
    (f_close fault f content false ;;
     os_rename fault f filename).

Section Json.

(** [json.dumps(data, ensure_ascii=False, separators=(',',':'))
    .encode('utf8')] *)
Variable json_dumps_utf8 : pyval -> result string.

(** [write_json(self, filename, data)] *)
Definition write_json (filename : string) (data : pyval) : M world unit :=
  content <- lift (json_dumps_utf8 data) ;;
  write_file filename content.

End Json.

(** A name that [NamedTemporaryFile] can give. *)
Definition temporary (name : string) : bool := String.prefix temp_prefix name.

End Node.

(** ** More concrete runs *)

Module Examples.

Import ProofOfPlay.


(** A peer that lists two nodes. *)
Definition peer_nodes : InfoBeamerQuery.peer :=
  {| InfoBeamerQuery.banner := inr Scenarios.intro_1_0;
     InfoBeamerQuery.sends := [];
     InfoBeamerQuery.recvs := [inr ("root,root/child" ++ nl)] |}.

(** A peer that grants the stream to a node and then sends a line. *)
Definition peer_calling : InfoBeamerQuery.peer :=
  {| InfoBeamerQuery.banner := inr Scenarios.intro_1_0;
     InfoBeamerQuery.sends := [];
     InfoBeamerQuery.recvs := [inr ("ok!" ++ nl); inr ("[beat,1]" ++ nl)] |}.

(** A decoder that reads every line as the call of [beat] with 1. *)
Definition decode_beat (line : string) : result pyval :=
  Return (PyList [PyStr "beat"; PyInt 1]).

(** A callback that closes the channel. *)
Definition hang_up : Listener.callback :=
  fun args => RPC._close_connection.

(** A cache in an empty directory at time 100; keys stand for their
    digests. *)
Definition empty_cache (faults : list (option Cache.fault)) : Cache.state :=
  Cache.__init__ "default"
    {| Cache.files := ∅; Cache.now := 100; Cache.write_faults := faults;
       Cache.undeletable := ∅ |}.

Definition digest (key : string) : string := key.



Definition dumps_call (name : string) (args : pyval) : result string :=
  Return name.

(** A store whose clock shows 0, 1, 2, ... and whose requests are
    answered as given. *)
Definition store (answers : list (result pyval)) : DeviceKV.state :=
  DeviceKV.__init__
    {| DeviceKV.clock := [0; 1; 2; 3; 4; 5]%Q; DeviceKV.answers := answers;
       DeviceKV.requests := [] |}.

(** The same store holding the key [k]. *)
Definition store_with_k : DeviceKV.state :=
  DeviceKV.set_cache {[ "k" := PyStr "v" ]} (store []).

(** A store holding the key [k], whose requests are answered as
    given. *)
Definition store_holding_k (answers : list (result pyval)) : DeviceKV.state :=
  DeviceKV.set_cache {[ "k" := PyStr "v" ]} (store answers).

(** The answer of a server that holds the one entry [a]. *)
Definition only_a : pyval :=
  PyDict [("v", PyDict [("a", PyStr "1")])].

(** A clock that shows the number of the reading, in seconds. *)
Definition ticking (i : nat) : Q := inject_Z (Z.of_nat i).

(** A hosted API whose key requests are answered as given. *)
Definition hosted (key_answers : list (result pyval)) : HostedAPI.state :=
  HostedAPI.__init__
    {| HostedAPI.time_time := ticking; HostedAPI.reads := 0;
       HostedAPI.key_answers := key_answers; HostedAPI.key_requests := [];
       HostedAPI.answers := []; HostedAPI.sent := [] |}.

(** The same with a key that has three uses left and expires at
    1000. *)
Definition hosted_with_key : HostedAPI.state :=
  HostedAPI.set_expire 1000
    (HostedAPI.set_uses (PyInt 3)
       (HostedAPI.set_api_key (PyStr "secret") (hosted []))).

(** A device with no socket, where [connect] ends as given. *)
Definition device (connects : list (option exn)) : Device.state :=
  {| Device._socket := None;
     Device.env := {| Device.connects := connects; Device.sends := [];
                      Device.created := 0; Device.trace := [] |} |}.

(** A directory holding one file, where the next write fails as
    given. *)
Definition directory (fault : option Node.fault) : Node.world :=
  {| Node.files := {[ "data.json" := "old" ]};
     Node.random_names := ["Ab12Cd"];
     Node.faults := [fault] |}.

End Examples.

(** * Properties *)

#[local] Arguments isinstance : simpl never.

(** Unfolds the control-flow combinators. *)
Ltac run :=
  cbv [bind ret get modify raise lift try_except try_except_all for_in].

(** Decides [isinstance] on exceptions of a known class. *)
Ltac classes :=
  repeat match goal with
  | |- context [isinstance (Exn ?c ?m) ?d] =>
      let b := eval vm_compute in (isinstance (Exn c m) d) in
      change (isinstance (Exn c m) d) with b
  end.

(** Reads an outcome and a final state off an equation of pairs. *)
Ltac inj := let H := fresh in (intros H; injection H as <- <-).

(** Two tests that decide the same proposition. *)
Ltac same_test :=
  match goal with
  | |- (if bool_decide ?P then _ else _) = (if bool_decide ?Q then _ else _) =>
      rewrite (bool_decide_ext P Q); [reflexivity|]
  end.

(** ** The exception hierarchy *)

Lemma isinstance_Exception e : isinstance e Exception = true.
Proof. destruct e as [c m]; destruct c; reflexivity. Qed.

Lemma timeout_is_socket_error e :
  isinstance e socket_timeout = true -> isinstance e socket_error = true.
Proof. destruct e as [c m]; destruct c; vm_compute; congruence. Qed.

(** ** Byte strings *)

Lemma is_empty_true s : is_empty s = true <-> s = "".
Proof. destruct s; cbn; split; congruence. Qed.

Lemma is_empty_app_nl s : is_empty (s ++ nl) = false.
Proof. destruct s; reflexivity. Qed.

Lemma rstrip_app_nl s : rstrip (s ++ nl) = rstrip s.
Proof.
  induction s as [|c s IH]; [reflexivity|].
  simpl. rewrite IH. reflexivity.
Qed.

Lemma rstrip_clean s : ends_in_space s = false -> rstrip s = s.
Proof.
  induction s as [|c s IH]; [reflexivity|].
  destruct s as [|d s].
  - cbn. intros ->. reflexivity.
  - intros H. change (ends_in_space (String d s) = false) in H.
    specialize (IH H). cbn [rstrip] in *. rewrite IH.
    rewrite andb_false_r. reflexivity.
Qed.

(** ** The control link *)

Section ControlLink.

Import InfoBeamerQuery.

Lemma sent_app t u : sent (t ++ u)%list = (sent t ++ sent u)%list.
Proof. apply omap_app. Qed.

Lemma reconnect_connected s fo :
  _conn s = Some fo -> _reconnect s = (Return tt, s).
Proof. intros H. unfold _reconnect. run. rewrite H. reflexivity. Qed.

(** [_reconnect] writes nothing, and opens one connection exactly
    when there is none. *)
Lemma reconnect_frame s r s1 :
  _reconnect s = (r, s1) ->
  (exists t, trace (env s1) = (trace (env s) ++ t)%list /\ sent t = []) /\
  connects (env s1) =
    (connects (env s) + match _conn s with Some _ => 0 | None => 1 end)%nat.
Proof.
  unfold _reconnect. run.
  destruct (_conn s) as [fo|] eqn:Hc.
  - inj. split; [exists []; by rewrite app_nil_r | lia].
  - unfold create_connection.
    destruct (net (env s)) as [|[f|p] rest] eqn:Hn; cbn.
    + classes. cbn. rewrite Hc. inj. cbn. split; [eauto | lia].
    + destruct f; cbn; classes; cbn; rewrite Hc; cbn; inj; cbn;
        (split; [eauto | lia]).
    + destruct (banner p) as [f|intro] eqn:Hb; cbn.
      * destruct f; cbn; classes; cbn; inj; cbn; rewrite <- app_assoc;
          (split; [eauto | lia]).
      * destruct (match_intro intro) as [v|] eqn:Hm; cbn; inj; cbn;
          rewrite <- ?app_assoc; (split; [eauto | lia]).
Qed.

(** It returns with a connection, or raises one of its three errors
    with none. *)
Lemma reconnect_cases s r s1 :
  _reconnect s = (r, s1) ->
  (r = Return tt /\ is_Some (_conn s1)) \/
  (exists msg, r = Raise (IBQE msg) /\
     (msg = msg_reopen_timeout \/
      (exists host port err, msg = msg_cannot_connect host port err) \/
      msg = msg_handshake) /\
     _conn s1 = None /\ _sock s1 = None).
Proof.
  unfold _reconnect. run.
  destruct (_conn s) as [fo|] eqn:Hc.
  - inj. left. rewrite Hc. eauto.
  - unfold create_connection.
    destruct (net (env s)) as [|[f|p] rest] eqn:Hn; cbn.
    + classes. cbn. rewrite Hc. inj. right. eexists. split; [done|]. eauto 8.
    + destruct f; cbn; classes; cbn; rewrite Hc; cbn; inj;
        right; eexists; (split; [done|]); eauto 8.
    + destruct (banner p) as [f|intro] eqn:Hb; cbn.
      * destruct f; cbn; classes; cbn; inj;
          right; eexists; (split; [done|]); eauto 8.
      * destruct (match_intro intro) as [v|] eqn:Hm; cbn; inj.
        -- left. eauto.
        -- right. eexists. split; [done|]. eauto 8.
Qed.

(** The outcome of the [try] statement, from the outcome of its send
    and receive: every exception, a timeout included, ends in
    [continue]. *)
Lemma exchange_outcome cmd ml s r s' :
  send_receive cmd ml s = (r, s') ->
  exchange cmd ml s =
    match r with
    | Return (Some v) => (Return (Some v), s')
    | _ => (Return None, snd (_reset true s'))
    end.
Proof.
  intros H. unfold exchange. run. rewrite H.
  destruct r as [[v|]|e]; [reflexivity..|].
  cbn [select_handler].
  destruct (isinstance e socket_error) eqn:He; [reflexivity|].
  destruct (isinstance e socket_timeout) eqn:Ht.
  - apply timeout_is_socket_error in Ht. congruence.
  - rewrite isinstance_Exception. reflexivity.
Qed.

(** The send and receive on a connection: one [write] of the command
    on it, and nothing else changes. *)
Lemma send_receive_frame cmd ml s fo r s' :
  _conn s = Some fo ->
  send_receive cmd ml s = (r, s') ->
  (exists fo', _conn s' = Some fo' /\ fo_id fo' = fo_id fo) /\
  _version s' = _version s /\
  connects (env s') = connects (env s) /\
  trace (env s') =
    (trace (env s) ++ EvWrite (fo_id fo) (cmd ++ nl)%string ::
       match fst (send_on fo) with
       | Some _ => []
       | None => [EvFlush (fo_id fo)]
       end)%list.
Proof.
  intros Hc. unfold send_receive, write, flush, sending. run. rewrite Hc.
  destruct fo as [id sends recvs].
  destruct sends as [|[e1|] [|[e2|] sends]]; cbn;
    try (inj; cbn; rewrite <- ?app_assoc; by eauto 10);
    (destruct ml;
     [ unfold _parse_multi_line; cbn;
       destruct (parse_multi_line_loop _ _) as [r0 rest]; inj; cbn;
       rewrite <- app_assoc; by eauto 10
     | unfold _parse_line, readline; run; cbn;
       destruct recvs as [|[e|line] rest]; cbn;
       try destruct (is_empty line); inj; cbn; rewrite <- app_assoc;
       by eauto 10 ]).
Qed.

Lemma reset_frame s :
  _conn (snd (_reset true s)) = None /\ _sock (snd (_reset true s)) = None /\
  _version (snd (_reset true s)) = _version s /\
  connects (env (snd (_reset true s))) = connects (env s) /\
  exists t, trace (env (snd (_reset true s))) = (trace (env s) ++ t)%list /\
            sent t = [].
Proof.
  unfold _reset. cbn. destruct (_conn s); cbn; repeat split; eauto.
  exists []. by rewrite app_nil_r.
Qed.

Lemma attempt_reconnect_fails mv cmd ml s e s1 :
  _reconnect s = (Raise e, s1) -> attempt mv cmd ml s = (Raise e, s1).
Proof. intros H. unfold attempt. run. rewrite H. reflexivity. Qed.

Lemma attempt_gate_closed mv cmd ml s s1 :
  _reconnect s = (Return tt, s1) ->
  le_str (_version s1) mv = true ->
  attempt mv cmd ml s = (Raise (IBQE (msg_unsupported mv (_version s1))), s1).
Proof. intros H Hv. unfold attempt. run. rewrite H, Hv. reflexivity. Qed.

Lemma attempt_gate_open mv cmd ml s s1 :
  _reconnect s = (Return tt, s1) ->
  le_str (_version s1) mv = false ->
  attempt mv cmd ml s = exchange cmd ml s1.
Proof. intros H Hv. unfold attempt. run. rewrite H, Hv. reflexivity. Qed.

(** The loop of [_send_cmd], unrolled. *)
Lemma send_cmd_unrolled mv cmd ml s :
  _send_cmd mv cmd ml s =
    match attempt mv cmd ml s with
    | (Return (Some v), s1) => (Return v, s1)
    | (Raise e, s1) => (Raise e, s1)
    | (Return None, s1) =>
        match attempt mv cmd ml s1 with
        | (Return (Some v), s2) => (Return v, s2)
        | (Raise e, s2) => (Raise e, s2)
        | (Return None, s2) => (Raise (IBQE msg_failed), s2)
        end
    end.
Proof.
  unfold _send_cmd. run.
  destruct (attempt mv cmd ml s) as [[[v|]|e] s1]; try reflexivity.
  destruct (attempt mv cmd ml s1) as [[[v|]|e] s2]; reflexivity.
Qed.

(** How one attempt ends. *)
Lemma attempt_cases mv cmd ml s r s' :
  attempt mv cmd ml s = (r, s') ->
  (exists v, r = Return (Some v) /\ is_Some (_conn s')) \/
  (r = Return None /\ _conn s' = None /\ _sock s' = None) \/
  (r = Raise (IBQE (msg_unsupported mv (_version s'))) /\
     is_Some (_conn s') /\ le_str (_version s') mv = true) \/
  (exists msg, r = Raise (IBQE msg) /\
     (msg = msg_reopen_timeout \/
      (exists host port err, msg = msg_cannot_connect host port err) \/
      msg = msg_handshake) /\
     _conn s' = None /\ _sock s' = None).
Proof.
  destruct (_reconnect s) as [[[]|e] s1] eqn:Hr.
  - destruct (reconnect_cases _ _ _ Hr) as [[_ Hc]|(msg & [=] & _)].
    destruct (le_str (_version s1) mv) eqn:Hv.
    + rewrite (attempt_gate_closed _ _ _ _ _ Hr Hv). inj. eauto 8.
    + rewrite (attempt_gate_open _ _ _ _ _ Hr Hv).
      destruct (send_receive cmd ml s1) as [r1 s2] eqn:Hsr.
      rewrite (exchange_outcome _ _ _ _ _ Hsr).
      destruct Hc as [fo Hfo].
      destruct (send_receive_frame _ _ _ _ _ _ Hfo Hsr) as ((fo' & Hfo' & _) & _).
      destruct r1 as [[v|]|e]; inj; eauto 8.
  - rewrite (attempt_reconnect_fails _ _ _ _ _ _ Hr). inj.
    destruct (reconnect_cases _ _ _ Hr) as [[[=] _]|(msg & [= ->] & Hm & Hc)].
    do 3 right. eauto.
Qed.


(** How [_send_cmd] ends: with a response and a connection, with the
    error of the version gate and a connection, or with another error
    and no connection. *)
Lemma send_cmd_cases mv cmd ml s r s' :
  _send_cmd mv cmd ml s = (r, s') ->
  (exists v, r = Return v /\ is_Some (_conn s')) \/
  (r = Raise (IBQE (msg_unsupported mv (_version s'))) /\
     is_Some (_conn s') /\ le_str (_version s') mv = true) \/
  (exists msg, r = Raise (IBQE msg) /\
     (msg = msg_reopen_timeout \/
      (exists host port err, msg = msg_cannot_connect host port err) \/
      msg = msg_handshake \/ msg = msg_failed) /\
     _conn s' = None /\ _sock s' = None).
Proof.
  rewrite send_cmd_unrolled.
  destruct (attempt mv cmd ml s) as [r1 s1] eqn:H1.
  destruct (attempt_cases _ _ _ _ _ _ H1)
    as [(v & -> & Hc)|[(-> & Hc & Hs)|[(-> & Hc & Hv)|(msg & -> & Hm & Hc & Hs)]]].
  - inj. eauto.
  - destruct (attempt mv cmd ml s1) as [r2 s2] eqn:H2.
    destruct (attempt_cases _ _ _ _ _ _ H2)
      as [(v & -> & Hc2)|[(-> & Hc2 & Hs2)|[(-> & Hc2 & Hv)
         |(msg & -> & Hm & Hc2 & Hs2)]]].
    + inj. eauto.
    + inj. do 2 right. exists msg_failed. eauto 10.
    + inj. eauto.
    + inj. do 2 right. exists msg. split; [done|]. split; [|done].
      destruct Hm as [?|[?|?]]; eauto.
  - inj. eauto.
  - inj. do 2 right. exists msg. split; [done|]. split; [|done].
    destruct Hm as [?|[?|?]]; eauto.
Qed.

(** The messages of the other errors are not the one of the version
    gate. *)
Lemma other_errors_not_unsupported mv msg :
  msg = msg_reopen_timeout \/
  (exists host port err, msg = msg_cannot_connect host port err) \/
  msg = msg_handshake \/ msg = msg_failed ->
  ~ unsupported mv (IBQE msg).
Proof.
  intros Hm [found [= H]]. revert H.
  destruct Hm as [->|[(host & port & err & ->)|[->| ->]]]; discriminate.
Qed.

(** Every call an attempt makes comes after those made before. *)
Lemma attempt_extends mv cmd ml s r s' :
  attempt mv cmd ml s = (r, s') ->
  exists t, trace (env s') = (trace (env s) ++ t)%list.
Proof.
  destruct (_reconnect s) as [[[]|e] s1] eqn:Hr.
  - destruct (reconnect_frame _ _ _ Hr) as ((t & Ht & _) & _).
    destruct (reconnect_cases _ _ _ Hr) as [[_ [fo Hfo]]|(msg & [=] & _)].
    destruct (le_str (_version s1) mv) eqn:Hv.
    + rewrite (attempt_gate_closed _ _ _ _ _ Hr Hv). inj. eauto.
    + rewrite (attempt_gate_open _ _ _ _ _ Hr Hv).
      destruct (send_receive cmd ml s1) as [r1 s2] eqn:Hsr.
      rewrite (exchange_outcome _ _ _ _ _ Hsr).
      destruct (send_receive_frame _ _ _ _ _ _ Hfo Hsr) as (_ & _ & _ & Ht2).
      pose proof (reset_frame s2) as Hreset. revert Hreset.
      generalize (snd (_reset true s2)) as s3.
      intros s3 (_ & _ & _ & _ & t3 & Ht3 & _).
      destruct r1 as [[v|]|e]; inj.
      * rewrite Ht2, Ht, <- app_assoc. eauto.
      * rewrite Ht3, Ht2, Ht, <- !app_assoc. eauto.
      * rewrite Ht3, Ht2, Ht, <- !app_assoc. eauto.
  - rewrite (attempt_reconnect_fails _ _ _ _ _ _ Hr). inj.
    destruct (reconnect_frame _ _ _ Hr) as ((t & Ht & _) & _). eauto.
Qed.

(** On an open connection whose version passes the gate, the command
    is written to that connection before anything else happens. *)
Lemma send_cmd_reuses mv cmd ml s fo :
  _conn s = Some fo ->
  le_str (_version s) mv = false ->
  exists t, trace (env (snd (_send_cmd mv cmd ml s))) =
            (trace (env s) ++ EvWrite (fo_id fo) (cmd ++ nl)%string :: t)%list.
Proof.
  intros Hfo Hv. rewrite send_cmd_unrolled.
  rewrite (attempt_gate_open _ _ _ _ _ (reconnect_connected _ _ Hfo) Hv).
  destruct (send_receive cmd ml s) as [r1 s2] eqn:Hsr.
  rewrite (exchange_outcome _ _ _ _ _ Hsr).
  destruct (send_receive_frame _ _ _ _ _ _ Hfo Hsr) as (_ & _ & _ & Ht2).
  pose proof (reset_frame s2) as Hreset. revert Hreset.
  generalize (snd (_reset true s2)) as s3.
  intros s3 (_ & _ & _ & _ & t3 & Ht3 & _).
  assert (Hretry : exists t, trace (env (snd
            match attempt mv cmd ml s3 with
            | (Return (Some v), s4) => (Return v, s4)
            | (Return None, s4) => (Raise (IBQE msg_failed), s4)
            | (Raise e, s4) => (Raise e, s4)
            end)) = (trace (env s) ++ EvWrite (fo_id fo) (cmd ++ nl)%string :: t)%list).
  { destruct (attempt mv cmd ml s3) as [r4 s4] eqn:H4.
    destruct (attempt_extends _ _ _ _ _ _ H4) as (t4 & Ht4).
    assert (Hs4 : exists t, trace (env s4) =
              (trace (env s) ++ EvWrite (fo_id fo) (cmd ++ nl)%string :: t)%list).
    { rewrite Ht4, Ht3, Ht2, <- !app_assoc. cbn. eauto. }
    destruct r4 as [[v|]|e]; exact Hs4. }
  destruct r1 as [[v|]|e]; [cbn; rewrite Ht2; eauto | exact Hretry..].
Qed.


(** [_send_cmd] never raises "Timeout waiting for response": the
    clause that would is shadowed by the one for [socket.error]. *)
Lemma send_cmd_never_raises_timeout mv cmd ml s e s' :
  _send_cmd mv cmd ml s = (Raise e, s') -> e <> IBQE msg_timeout.
Proof.
  intros H.
  destruct (send_cmd_cases _ _ _ _ _ _ H)
    as [(v & [=] & _)|[([= ->] & _)|(msg & [= ->] & Hm & _)]].
  - discriminate.
  - destruct Hm as [->|[(host & port & err & ->)|[->| ->]]]; discriminate.
Qed.

(** C4. For every command whose declared minimum version is not
    exceeded by the negotiated version (the version [_reconnect] leaves
    in place compares [<=] to it), [_send_cmd] raises the error of the
    version gate at once and writes nothing to the socket: the state
    it leaves is the one [_reconnect] left, and the trace holds no
    more [write] than before the call. *)
Theorem send_cmd_unsupported_writes_nothing mv cmd ml s s1 :
  _reconnect s = (Return tt, s1) ->
  le_str (_version s1) mv = true ->
  _send_cmd mv cmd ml s =
    (Raise (IBQE (msg_unsupported mv (_version s1))), s1) /\
  unsupported mv (IBQE (msg_unsupported mv (_version s1))) /\
  sent (trace (env s1)) = sent (trace (env s)).
Proof.
  intros Hr Hv. rewrite send_cmd_unrolled.
  rewrite (attempt_gate_closed _ _ _ _ _ Hr Hv).
  split; [reflexivity|]. split; [by eexists|].
  destruct (reconnect_frame _ _ _ Hr) as ((t & Ht & Hst) & _).
  rewrite Ht, sent_app, Hst, app_nil_r. reflexivity.
Qed.

(** C10. When [_send_cmd] raises the error of the version gate, the
    connection is kept: it is still open afterwards, a later command
    that passes the gate is written to that same connection before any
    other call, and a link that was connected when the gate refused is
    left exactly as it was.  Every other error [_send_cmd] raises
    leaves the link disconnected. *)
Theorem unsupported_keeps_connection mv cmd ml s e s' :
  _send_cmd mv cmd ml s = (Raise e, s') ->
  (unsupported mv e ->
     exists fo, _conn s' = Some fo /\
       forall mv2 cmd2 ml2, le_str (_version s') mv2 = false ->
         exists t, trace (env (snd (_send_cmd mv2 cmd2 ml2 s'))) =
           (trace (env s') ++ EvWrite (fo_id fo) (cmd2 ++ nl)%string :: t)%list) /\
  (is_Some (_conn s) -> le_str (_version s) mv = true ->
     s' = s /\ unsupported mv e) /\
  (~ unsupported mv e -> _conn s' = None /\ _sock s' = None).
Proof.
  intros H. split; [|split].
  - intros Hu.
    destruct (send_cmd_cases _ _ _ _ _ _ H)
      as [(v & [=] & _)|[(_ & [fo Hfo] & _)|(msg & [= ->] & Hm & _)]].
    + exists fo. split; [done|]. intros mv2 cmd2 ml2 Hv2.
      by apply send_cmd_reuses.
    + destruct (other_errors_not_unsupported mv msg Hm Hu).
  - intros [fo Hfo] Hv. revert H. rewrite send_cmd_unrolled.
    rewrite (attempt_gate_closed _ _ _ _ _ (reconnect_connected _ _ Hfo) Hv).
    intros [= <- <-]. split; [done|]. by eexists.
  - intros Hn.
    destruct (send_cmd_cases _ _ _ _ _ _ H)
      as [(v & [=] & _)|[([= ->] & _)|(msg & _ & _ & Hc)]]; [|done].
    destruct Hn. by eexists.
Qed.


(** The single-line response: the line read, right-stripped. *)
Lemma send_receive_line cmd s fo line rest :
  _conn s = Some fo ->
  fst (send_on fo) = None ->
  fst (send_on (snd (send_on fo))) = None ->
  fo_recvs fo = inr line :: rest ->
  is_empty line = false ->
  fst (send_receive cmd false s) = Return (Some (rstrip line)).
Proof.
  intros Hc H1 H2 Hr He.
  unfold send_receive, write, flush, sending, _parse_line, readline. run.
  rewrite Hc. destruct fo as [id sends recvs]. cbn in Hr. subst recvs.
  destruct sends as [|[e1|] [|[e2|] sends]]; try discriminate;
    cbn; rewrite He; reflexivity.
Qed.

(** The multi-line response: what the loop makes of the lines read. *)
Lemma send_receive_lines cmd s fo :
  _conn s = Some fo ->
  fst (send_on fo) = None ->
  fst (send_on (snd (send_on fo))) = None ->
  fst (send_receive cmd true s) = fst (parse_multi_line_loop (fo_recvs fo) []).
Proof.
  intros Hc H1 H2.
  unfold send_receive, write, flush, sending, _parse_multi_line. run.
  rewrite Hc. destruct fo as [id sends recvs].
  destruct sends as [|[e1|] [|[e2|] sends]]; try discriminate;
    cbn; destruct (parse_multi_line_loop recvs []); reflexivity.
Qed.

Lemma parse_multi_line_loop_block bodies blank rest acc :
  Forall (fun b => rstrip b <> "") bodies ->
  rstrip blank = "" ->
  parse_multi_line_loop
    (map (fun b => inr (b ++ nl)%string) bodies ++ inr (blank ++ nl)%string :: rest)%list acc =
  (Return (Some (join nl (acc ++ map rstrip bodies)%list)), rest).
Proof.
  intros Hb Hblank. revert acc.
  induction Hb as [|b bodies Hne _ IH]; intros acc; cbn [map app parse_multi_line_loop].
  - rewrite is_empty_app_nl, rstrip_app_nl, Hblank, app_nil_r. reflexivity.
  - rewrite is_empty_app_nl, rstrip_app_nl.
    destruct (is_empty (rstrip b)) eqn:He.
    { apply is_empty_true in He. done. }
    rewrite IH, <- app_assoc. reflexivity.
Qed.

Lemma map_rstrip_clean bodies :
  Forall (fun b => ends_in_space b = false) bodies -> map rstrip bodies = bodies.
Proof.
  induction 1 as [|b bodies Hb _ IH]; [reflexivity|].
  cbn. rewrite IH, (rstrip_clean _ Hb). reflexivity.
Qed.

(** C3, as the code has it.  For every command that passes the
    version gate, when the first send and receive meets no error the
    call returns the peer's response with the trailing whitespace of
    every line removed: for a single-line response the line without its
    newline and without any other trailing whitespace; for a
    multi-line response the lines up to the first one that is blank or
    all whitespace, each right-stripped, joined by newlines.  This is
    the response byte for byte when no line ends in whitespace before
    its newline. *)
Theorem response_is_right_stripped mv cmd s s1 fo :
  _reconnect s = (Return tt, s1) ->
  le_str (_version s1) mv = false ->
  _conn s1 = Some fo ->
  fst (send_on fo) = None ->
  fst (send_on (snd (send_on fo))) = None ->
  (forall body rest,
     fo_recvs fo = inr (body ++ nl) :: rest ->
     fst (_send_cmd mv cmd false s) = Return (rstrip body) /\
     (ends_in_space body = false ->
      fst (_send_cmd mv cmd false s) = Return body)) /\
  (forall bodies blank rest,
     fo_recvs fo =
       (map (fun b => inr (b ++ nl)%string) bodies ++ inr (blank ++ nl)%string :: rest)%list ->
     Forall (fun b => rstrip b <> "") bodies ->
     rstrip blank = "" ->
     fst (_send_cmd mv cmd true s) = Return (join nl (map rstrip bodies)) /\
     (Forall (fun b => ends_in_space b = false) bodies ->
      fst (_send_cmd mv cmd true s) = Return (join nl bodies))).
Proof.
  intros Hr Hv Hc H1 H2.
  assert (Hok : forall ml v,
            fst (send_receive cmd ml s1) = Return (Some v) ->
            fst (_send_cmd mv cmd ml s) = Return v).
  { intros ml v Hsr. rewrite send_cmd_unrolled, (attempt_gate_open _ _ _ _ _ Hr Hv).
    destruct (send_receive cmd ml s1) as [r2 s2] eqn:E. cbn in Hsr. subst r2.
    rewrite (exchange_outcome _ _ _ _ _ E). reflexivity. }
  split.
  - intros body rest Hrecv.
    assert (Hline : fst (_send_cmd mv cmd false s) = Return (rstrip body)).
    { apply Hok. rewrite <- rstrip_app_nl.
      eapply send_receive_line; eauto using is_empty_app_nl. }
    split; [done|]. intros Hclean. by rewrite Hline, rstrip_clean.
  - intros bodies blank rest Hrecv Hb Hblank.
    assert (Hlines : fst (_send_cmd mv cmd true s) =
              Return (join nl (map rstrip bodies))).
    { apply Hok. rewrite (send_receive_lines _ _ _ Hc H1 H2), Hrecv.
      by rewrite parse_multi_line_loop_block. }
    split; [done|]. intros Hclean. by rewrite Hlines, map_rstrip_clean.
Qed.

End ControlLink.

(** ** The control link on concrete peers *)

Section ControlLinkRuns.

Import InfoBeamerQuery Scenarios.

(** C2, on the code.  The peer accepts the connection and the read of
    the response times out; a second peer would answer.  [_send_cmd]
    does not raise "Timeout waiting for response": the clause for
    [socket.error] comes first and catches the [socket.timeout], so the
    connection is dropped, a second one is opened, the command is
    written again, and the call returns the second peer's answer. *)
Theorem send_cmd_retries_after_timeout :
  let run := _send_cmd "0.6" ping false (client [inr peer_stalled; inr peer_pong]) in
  fst run = Return "pong" /\
  sent (trace (env (snd run))) = [ping ++ nl; ping ++ nl] /\
  opened (trace (env (snd run))) = [0; 1]%nat.
Proof. vm_compute. repeat split. Qed.

(** With no second peer to answer, the timeout surfaces as "Failed to
    get a response" after two attempts. *)
Lemma send_cmd_two_timeouts :
  let run := _send_cmd "0.6" ping false (client [inr peer_stalled; inr peer_stalled]) in
  fst run = Raise (IBQE msg_failed) /\
  sent (trace (env (snd run))) = [ping ++ nl; ping ++ nl].
Proof. vm_compute. repeat split. Qed.

(** C3, as the claim states it, fails: the peer sends [pong] followed
    by two spaces and a newline; the call returns [pong], not the line
    as sent. *)
Lemma padded_response_is_not_verbatim :
  recvs peer_padded = [inr ("pong  " ++ nl)] /\
  fst (_send_cmd "0.6" ping false (client [inr peer_padded])) = Return "pong" /\
  fst (_send_cmd "0.6" ping false (client [inr peer_padded])) <> Return "pong  ".
Proof. vm_compute. repeat split. discriminate. Qed.

Lemma response_is_right_stripped_witness :
  fst (_send_cmd "0.6" ping false (client [inr peer_pong])) = Return "pong" /\
  fst (_send_cmd "0.8.2" "*query/*error/root" true (client [inr peer_traceback])) =
    Return (join nl ["error in"; "node.lua:3"]).
Proof.
  split.
  - refine (proj2 (proj1 (response_is_right_stripped "0.6" ping
      (client [inr peer_pong]) (snd (_reconnect (client [inr peer_pong])))
      (FileObj 0 [] [inr ("pong" ++ nl)]) _ _ _ _ _) "pong" [] _) _);
      reflexivity.
  - refine (proj2 (proj2 (response_is_right_stripped "0.8.2" "*query/*error/root"
      (client [inr peer_traceback])
      (snd (_reconnect (client [inr peer_traceback])))
      (FileObj 0 [] (recvs peer_traceback)) _ _ _ _ _)
      ["error in"; "node.lua:3"] "" [] _ _ _) _);
      try reflexivity.
    + repeat constructor; discriminate.
    + repeat constructor.
Defined.

Lemma send_cmd_unsupported_witness :
  fst (_send_cmd "1.0" "status" false (client [inr peer_old])) =
    Raise (IBQE (msg_unsupported "1.0" (Some "0.9"))) /\
  sent (trace (env (snd (_send_cmd "1.0" "status" false (client [inr peer_old]))))) = [].
Proof.
  destruct (send_cmd_unsupported_writes_nothing "1.0" "status" false
              (client [inr peer_old]) (snd (_reconnect (client [inr peer_old]))))
    as (H & _ & Hs); [reflexivity | reflexivity |].
  rewrite H. split; [reflexivity | exact Hs].
Defined.


Lemma unsupported_keeps_connection_witness :
  is_Some (_conn (snd (_send_cmd "1.0" "status" false (client [inr peer_old])))).
Proof.
  destruct (unsupported_keeps_connection "1.0" "status" false
              (client [inr peer_old])
              (IBQE (msg_unsupported "1.0" (Some "0.9")))
              (snd (_send_cmd "1.0" "status" false (client [inr peer_old]))))
    as (Hkeep & _); [reflexivity|].
  destruct Hkeep as (fo & Hfo & _); [by eexists|].
  rewrite Hfo. by eexists.
Defined.

End ControlLinkRuns.

(** ** The RPC channel *)

Section Channel.

Import InfoBeamerQuery RPC.

(** [Node.io] gives the client's connection or raises an
    [InfoBeamerQueryException]. *)
Lemma node_io_cases path raw s r s' :
  Node_io path raw s = (r, s') ->
  (exists fo, r = Return fo /\ InfoBeamerQuery._conn s' = Some fo) \/
  (exists msg, r = Raise (IBQE msg)).
Proof.
  unfold Node_io. run.
  destruct (_send_cmd _ _ _ s) as [r1 s1] eqn:H1.
  destruct (send_cmd_cases _ _ _ _ _ _ H1)
    as [(v & -> & [fo Hfo])|[(-> & _)|(msg & -> & _)]].
  - destruct (negb (String.eqb v "ok!")).
    + inj. eauto.
    + rewrite Hfo. inj. eauto.
  - inj. eauto.
  - inj. eauto.
Qed.

Lemma get_connection_returns s :
  exists o s', _get_connection s = (Return o, s') /\ _con s' = o.
Proof.
  unfold _get_connection. destruct (_con s) as [fo|] eqn:Hc; [eauto|].
  destruct (Node_io _ _ _) as [r ib] eqn:Hio.
  destruct (node_io_cases _ _ _ _ _ Hio) as [(fo & -> & _)|(msg & ->)].
  - eauto.
  - classes. rewrite <- Hc. eauto.
Qed.


End Channel.

Section ChannelRuns.

Import InfoBeamerQuery RPC Scenarios.


End ChannelRuns.

(** ** The event log *)

Section EventLog.

Import ProofOfPlay.

#[local] Arguments Qmax : simpl never.
#[local] Arguments Qplus : simpl never.
#[local] Arguments Qminus : simpl never.

Lemma geb_false a b : (a < b)%Z -> (a >=? b)%Z = false.
Proof. intros H. rewrite Z.geb_leb. apply Z.leb_gt. exact H. Qed.

Lemma geb_true a b : (b <= a)%Z -> (a >=? b)%Z = true.
Proof. intros H. rewrite Z.geb_leb. apply Z.leb_le. exact H. Qed.

(** C9, as the code has it.  With [max_lines >= 1], a turn of the
    writer whose wait times out with no line written since the last
    rotation does not rotate: the deadline moves forward by
    [max_delay], and the same open file, the directory and the
    segments rotated so far are as before. *)
Theorem idle_timeout_extends_deadline s w :
  (1 <= _max_lines s)%Z ->
  lines w = 0%Z ->
  _q s = [] ->
  exists s',
    _writer_thread_turn w s =
      (Return {| submit := submit w + _max_delay s;
                 log_file := log_file w; lines := 0 |}, s') /\
    dir (env s') = dir (env s) /\
    rotated (out (env s')) = rotated (out (env s)) /\
    _log s' = _log s /\
    getrandom (env s') = getrandom (env s).
Proof.
  intros Hmax Hlines Hq.
  unfold _writer_thread_turn, monotonic_time, q_get, emit, on_env. run.
  cbn. rewrite Hq. cbn. classes. cbn. rewrite Hlines. cbn.
  rewrite geb_false by lia. eexists. split; [reflexivity|]. cbn.
  unfold rotated. rewrite omap_app. cbn. rewrite app_nil_r. done.
Qed.
(** C1, as the code has it.  When [getrandom] delivers the twelve
    bytes asked for and [json.dumps] serialises the entry, [log]
    builds the id from the time and those bytes, appends the line to
    the queue, whatever the queue holds, and returns without raising;
    nothing else changes. *)
Theorem log_enqueues json_dumps_utf8 play_start duration asset_id
    asset_filename s buf rest line :
  getrandom (env s) = (12%Z, buf) :: rest ->
  json_dumps_utf8
    [ PyStr (hex08 (hd 0%N (time_time (env s))) ++ encode_hex buf);
      play_start; duration;
      match asset_id with PyNone => PyInt 0 | _ => asset_id end;
      asset_filename ] = Return line ->
  exists s',
    log json_dumps_utf8 play_start duration asset_id asset_filename s =
      (Return tt, s') /\
    _q s' = (_q s ++ [line])%list /\
    dir (env s') = dir (env s) /\
    out (env s') = out (env s).
Proof.
  intros Hrandom Hjson.
  unfold log, time_time_int, get_random_bytes, q_put, on_env. run. cbn.
  rewrite Hrandom. cbn. rewrite Hjson. eauto.
Qed.

(** When [getrandom] delivers anything else, [log] raises [OSError]
    and the queue is as before; when the entry cannot be serialised,
    it raises what [json.dumps] raises. *)
Lemma log_raises json_dumps_utf8 play_start duration asset_id
    asset_filename s :
  fst (hd ((-1)%Z, "") (getrandom (env s))) <> 12%Z ->
  fst (log json_dumps_utf8 play_start duration asset_id asset_filename s) =
    Raise (Exn OSError "Error getting random bytes from getrandom") /\
  _q (snd (log json_dumps_utf8 play_start duration asset_id asset_filename s)) =
    _q s.
Proof.
  intros Hrandom.
  unfold log, time_time_int, get_random_bytes, q_put, on_env. run. cbn.
  destruct (hd _ (getrandom (env s))) as [result buf]. cbn in *.
  destruct (Z.eqb_spec result 12); [done|]. cbn. done.
Qed.

End EventLog.

Section EventLogRuns.

Import ProofOfPlay Scenarios.

(** C1, as the claim states it, fails: [getrandom] returns -1, and
    [log] raises [OSError] instead of enqueuing the entry. *)
Lemma log_raises_without_random_bytes :
  let run := log json_plain (PyInt 1700000000) (PyInt 10) PyNone (PyStr "a.jpg")
               (recorder 3 [] [] [((-1)%Z, "")]) in
  fst run = Raise (Exn OSError "Error getting random bytes from getrandom") /\
  _q (snd run) = [].
Proof. vm_compute. split; reflexivity. Qed.

(** So does an argument that [json.dumps] cannot serialise. *)
Lemma log_raises_on_unserialisable_argument :
  fst (log json_plain (PyInt 1700000000) (PyInt 10) (PyList []) (PyStr "a.jpg")
         (recorder 3 [] [] [(12%Z, "abcdefghijkl")])) =
    Raise (Exn TypeError "is not JSON serializable").
Proof. vm_compute. reflexivity. Qed.

Lemma log_enqueues_witness :
  _q (snd (log json_plain (PyInt 1700000000) (PyInt 10) PyNone (PyStr "a.jpg")
             (recorder 3 ["earlier"] [] [(12%Z, "abcdefghijkl")]))) =
    ["earlier";
     "[" ++ String "034"%char "6553f1006162636465666768696a6b6c"
     ++ String "034"%char ",1700000000,10,0,"
     ++ String "034"%char "a.jpg" ++ String "034"%char "]"].
Proof.
  destruct (log_enqueues json_plain (PyInt 1700000000) (PyInt 10) PyNone
              (PyStr "a.jpg") (recorder 3 ["earlier"] [] [(12%Z, "abcdefghijkl")])
              "abcdefghijkl" []
              ("[" ++ String "034"%char "6553f1006162636465666768696a6b6c"
               ++ String "034"%char ",1700000000,10,0,"
               ++ String "034"%char "a.jpg" ++ String "034"%char "]"))
    as (s' & Hlog & Hq & _); [reflexivity | vm_compute; reflexivity |].
  rewrite Hlog. exact Hq.
Defined.

(** C9, as the claim states it, fails: with [max_lines = 0] the first
    wait that times out, with no line written, is followed by a
    rotation, and the segment rotated out is empty. *)
Lemma idle_timeout_rotates_empty_file :
  let run := (w <- _writer_thread_start ;; _writer_thread_turn w)
               (recorder 0 [] [] [(16%Z, random_a)]) in
  rotated (out (env (snd run))) = [segment_name random_a] /\
  dir (env (snd run)) !! segment_name random_a = Some "" /\
  out (env (snd run)) =
    [Waited 0 60; Renamed log_name (segment_name random_a)].
Proof. vm_compute. repeat split. Qed.

Lemma idle_timeout_extends_deadline_witness :
  fst (_writer_thread_turn {| submit := 60; log_file := log_name; lines := 0 |}
         (recorder 3 [] [(log_name, "")] [])) =
    Return {| submit := 60 + 60; log_file := log_name; lines := 0 |}.
Proof.
  destruct (idle_timeout_extends_deadline (recorder 3 [] [(log_name, "")] [])
              {| submit := 60; log_file := log_name; lines := 0 |})
    as (s' & Hturn & _); [cbn; lia | reflexivity | reflexivity |].
  rewrite Hturn. reflexivity.
Defined.

End EventLogRuns.

(** ** The writer *)

Section Writer.

Import ProofOfPlay.

#[local] Arguments Qmax : simpl never.
#[local] Arguments Qplus : simpl never.
#[local] Arguments Qminus : simpl never.

Lemma rotated_app t u : rotated (t ++ u)%list = (rotated t ++ rotated u)%list.
Proof. apply omap_app. Qed.

(** A turn that takes a line off the queue and stays below
    [max_lines] appends the line to the open file, and that is all. *)
Lemma turn_appends s w l q' :
  _q s = l :: q' ->
  hd false (write_faults (env s)) = false ->
  (lines w + 1 < _max_lines s)%Z ->
  exists s',
    _writer_thread_turn w s =
      (Return {| submit := submit w; log_file := log_file w;
                 lines := lines w + 1 |}, s') /\
    _q s' = q' /\
    dir (env s') =
      <[log_file w := default "" (dir (env s) !! log_file w) ++ (l ++ nl)]>
        (dir (env s)) /\
    getrandom (env s') = getrandom (env s) /\
    write_faults (env s') = tail (write_faults (env s)) /\
    _max_lines s' = _max_lines s /\
    rotated (out (env s')) = rotated (out (env s)).
Proof.
  intros Hq Hfault Hmax.
  unfold _writer_thread_turn, monotonic_time, q_get, write_sync, emit, on_env.
  run. cbn. rewrite Hq. cbn. rewrite Hfault. cbn.
  rewrite geb_false by lia. eexists. split; [reflexivity|]. cbn.
  rewrite rotated_app, app_nil_r. done.
Qed.

(** A turn that takes a line off the queue and reaches [max_lines]
    appends the line, renames the file to a segment and opens an empty
    file in its place. *)
Lemma turn_rotates s w l q' r rs c :
  _q s = l :: q' ->
  hd false (write_faults (env s)) = false ->
  (_max_lines s <= lines w + 1)%Z ->
  log_file w = log_name ->
  dir (env s) !! log_name = Some c ->
  getrandom (env s) = (16%Z, r) :: rs ->
  exists w' s',
    _writer_thread_turn w s = (Return w', s') /\
    lines w' = 0%Z /\ log_file w' = log_name /\
    _q s' = q' /\
    dir (env s') =
      <[log_name := ""]>
        (<[segment_name r := c ++ (l ++ nl)]> (delete log_name (dir (env s)))) /\
    getrandom (env s') = rs /\
    write_faults (env s') = tail (write_faults (env s)) /\
    _max_lines s' = _max_lines s /\
    rotated (out (env s')) = (rotated (out (env s)) ++ [segment_name r])%list.
Proof.
  intros Hq Hfault Hmax Hfile Hdir Hrandom.
  unfold _writer_thread_turn, monotonic_time, q_get, write_sync, emit, on_env.
  run. cbn. rewrite Hq. cbn. rewrite Hfault. cbn.
  rewrite geb_true by lia.
  unfold reopen_log, os_path_exists, get_random_bytes, os_rename, open_wb,
    emit, on_env. run. cbn.
  rewrite Hfile, Hdir. cbn.
  destruct (_log s); cbn; rewrite lookup_insert_eq;
    rewrite bool_decide_eq_true_2 by (by eexists); cbn; rewrite Hrandom; cbn;
    rewrite lookup_insert_eq; cbn; (do 2 eexists); (split; [reflexivity|]); cbn;
    rewrite delete_insert_eq, !rotated_app; cbn; rewrite app_nil_r; done.
Qed.

Lemma append_assoc (a b c : string) : (a ++ b) ++ c = a ++ (b ++ c).
Proof.
  induction a as [|x a IH]; [reflexivity|].
  change (String x ((a ++ b) ++ c) = String x (a ++ (b ++ c))). by rewrite IH.
Qed.

Lemma append_empty_r (a : string) : a ++ "" = a.
Proof.
  induction a as [|x a IH]; [reflexivity|].
  change (String x (a ++ "") = String x a). by rewrite IH.
Qed.

Lemma written_snoc pre l : written (pre ++ [l]) = written pre ++ (l ++ nl).
Proof.
  induction pre as [|x pre IH]; cbn [app written].
  - rewrite append_empty_r. reflexivity.
  - rewrite IH. symmetry. apply append_assoc.
Qed.

Lemma segment_is_not_the_open_log r : segment_name r <> log_name.
Proof. discriminate. Qed.

Lemma turns_app n m w s :
  _writer_thread_turns (n + m) w s =
    (w' <- _writer_thread_turns n w ;; _writer_thread_turns m w') s.
Proof.
  revert w s. induction n as [|n IH]; intros w s.
  - cbn. unfold bind, ret. reflexivity.
  - cbn [Nat.add _writer_thread_turns]. unfold bind in *.
    destruct (_writer_thread_turn w s) as [[w1|e] s1]; [|reflexivity].
    apply IH.
Qed.

(** While the file stays below [max_lines], the turns append the
    lines of the queue to it in order, and nothing is rotated. *)
Lemma turns_fill ls : forall s w pre q',
  _q s = (ls ++ q')%list ->
  Forall (fun b => b = false) (write_faults (env s)) ->
  log_file w = log_name ->
  dir (env s) !! log_name = Some (written pre) ->
  lines w = Z.of_nat (length pre) ->
  (Z.of_nat (length pre + length ls) < _max_lines s)%Z ->
  exists w' s',
    _writer_thread_turns (length ls) w s = (Return w', s') /\
    lines w' = Z.of_nat (length (pre ++ ls)) /\
    log_file w' = log_name /\
    _q s' = q' /\
    dir (env s') = <[log_name := written (pre ++ ls)]> (dir (env s)) /\
    getrandom (env s') = getrandom (env s) /\
    Forall (fun b => b = false) (write_faults (env s')) /\
    _max_lines s' = _max_lines s /\
    rotated (out (env s')) = rotated (out (env s)).
Proof.
  induction ls as [|l ls IH]; intros s w pre q' Hq Hwf Hfile Hdir Hlines Hmax.
  - exists w, s. rewrite app_nil_r. repeat split; try done.
    by rewrite insert_id.
  - destruct (turn_appends s w l (ls ++ q')%list) as (s1 & Hturn & Hq1 & Hdir1
      & Hrandom1 & Hwf1 & Hmax1 & Hrot1); [done| |cbn [length] in Hmax; lia|].
    { by destruct Hwf as [|? ? ->]. }
    rewrite Hfile, Hdir in Hdir1. cbn in Hdir1.
    rewrite <- written_snoc in Hdir1.
    destruct (IH s1 {| submit := submit w; log_file := log_file w;
                       lines := lines w + 1 |} (pre ++ [l])%list q')
      as (w' & s' & Hturns & Hlines' & Hfile' & Hq' & Hdir' & Hrandom' & Hwf'
          & Hmax' & Hrot'); try done.
    { rewrite Hwf1. destruct Hwf; [constructor|done]. }
    { rewrite Hdir1. apply lookup_insert_eq. }
    { cbn. rewrite Hlines, length_app. cbn. lia. }
    { rewrite Hmax1, length_app. cbn [length] in *. lia. }
    exists w', s'. cbn [length _writer_thread_turns]. unfold bind at 1.
    rewrite Hturn. rewrite <- app_assoc in Hlines', Hdir'. cbn [app] in *.
    repeat split; try done; try congruence.
    rewrite Hdir', Hdir1. apply insert_insert_eq.
Qed.

(** From an empty open file, [max_lines] turns fill it with the next
    [max_lines] lines of the queue and rotate it out as one segment. *)
Lemma turns_chunk chunk : forall s w q' r rs,
  chunk <> [] ->
  _max_lines s = Z.of_nat (length chunk) ->
  lines w = 0%Z ->
  log_file w = log_name ->
  dir (env s) !! log_name = Some "" ->
  _q s = (chunk ++ q')%list ->
  Forall (fun b => b = false) (write_faults (env s)) ->
  getrandom (env s) = (16%Z, r) :: rs ->
  exists w' s',
    _writer_thread_turns (length chunk) w s = (Return w', s') /\
    lines w' = 0%Z /\ log_file w' = log_name /\
    _q s' = q' /\
    dir (env s') =
      <[log_name := ""]>
        (<[segment_name r := written chunk]> (delete log_name (dir (env s)))) /\
    getrandom (env s') = rs /\
    Forall (fun b => b = false) (write_faults (env s')) /\
    _max_lines s' = _max_lines s /\
    rotated (out (env s')) = (rotated (out (env s)) ++ [segment_name r])%list.
Proof.
  intros s w q' r rs Hne Hmax Hlines Hfile Hdir Hq Hwf Hrandom.
  destruct (exists_last Hne) as (init & l & ->).
  rewrite length_app in *. cbn [length] in *.
  rewrite <- app_assoc in Hq. cbn [app] in Hq.
  destruct (turns_fill init s w [] (l :: q')) as (w1 & s1 & Hturns & Hlines1
    & Hfile1 & Hq1 & Hdir1 & Hrandom1 & Hwf1 & Hmax1 & Hrot1); try done.
  { rewrite Hmax. cbn [length]. lia. }
  cbn [app] in *.
  destruct (turn_rotates s1 w1 l q' r rs (written init))
    as (w' & s' & Hturn & Hlines' & Hfile' & Hq' & Hdir' & Hrandom' & Hwf'
        & Hmax' & Hrot'); try done.
  { by destruct Hwf1 as [|? ? ->]. }
  { rewrite Hmax1, Hmax, Hlines1. lia. }
  { rewrite Hdir1. apply lookup_insert_eq. }
  { congruence. }
  exists w', s'. rewrite turns_app. unfold bind. rewrite Hturns.
  cbn [_writer_thread_turns]. unfold bind. rewrite Hturn.
  repeat split; try done; try congruence.
  - rewrite Hdir', Hdir1, delete_insert_eq, written_snoc. reflexivity.
  - rewrite Hwf'. destruct Hwf1; [constructor|done].
Qed.

(** Every list splits into runs of [K] and a shorter rest. *)
Lemma chunking K : (1 <= K)%nat -> forall n (ls : list string),
  (length ls <= n)%nat ->
  exists chunks rest,
    ls = (concat chunks ++ rest)%list /\
    Forall (fun c => length c = K) chunks /\
    (length rest < K)%nat.
Proof.
  intros HK. induction n as [|n IH]; intros ls Hn.
  - exists [], ls. destruct ls; [|cbn in Hn; lia]. repeat split; [constructor|cbn; lia].
  - destruct (decide (length ls < K)%nat) as [Hlt|Hge].
    + exists [], ls. repeat split; [constructor|done].
    + destruct (IH (drop K ls)) as (chunks & rest & Hdrop & Hall & Hrest).
      { rewrite length_drop. lia. }
      exists (take K ls :: chunks), rest. repeat split; [|constructor|]; try done.
      * cbn [concat]. rewrite <- app_assoc, <- Hdrop, take_drop. reflexivity.
      * rewrite length_take. lia.
Qed.

Lemma length_chunks K (chunks : list (list string)) (rest : list string) :
  Forall (fun c => length c = K) chunks ->
  length (concat chunks ++ rest) = (length chunks * K + length rest)%nat.
Proof.
  intros Hall. rewrite length_app. f_equal.
  induction Hall as [|c chunks Hc _ IH]; [reflexivity|].
  cbn [concat length]. rewrite length_app, IH, Hc. lia.
Qed.

(** The turns over a queue of whole chunks and a shorter rest: one
    segment for each chunk, in order, and the rest in the open file. *)
Lemma turns_chunks K : (1 <= K)%nat -> forall chunks rest s w rs later,
  _max_lines s = Z.of_nat K ->
  lines w = 0%Z ->
  log_file w = log_name ->
  dir (env s) !! log_name = Some "" ->
  Forall (fun c => length c = K) chunks ->
  (length rest < K)%nat ->
  _q s = (concat chunks ++ rest)%list ->
  Forall (fun b => b = false) (write_faults (env s)) ->
  length rs = length chunks ->
  getrandom (env s) = (map (pair 16%Z) rs ++ later)%list ->
  NoDup (map segment_name rs) ->
  exists w' s',
    _writer_thread_turns (length (concat chunks ++ rest)) w s = (Return w', s') /\
    rotated (out (env s')) = (rotated (out (env s)) ++ map segment_name rs)%list /\
    Forall2 (fun r c => dir (env s') !! segment_name r = Some (written c)) rs chunks /\
    dir (env s') !! log_name = Some (written rest) /\
    lines w' = Z.of_nat (length rest) /\
    _q s' = [] /\
    (forall f, f <> log_name -> f ∉ map segment_name rs ->
       dir (env s') !! f = dir (env s) !! f).
Proof.
  intros HK. induction chunks as [|c chunks IH];
    intros rest s w rs later Hmax Hlines Hfile Hdir Hall Hrest Hq Hwf Hlen
      Hrandom Hnd.
  - destruct rs; [|done]. cbn [concat app map] in *.
    destruct (turns_fill rest s w [] []) as (w' & s' & Hturns & Hlines' & Hfile'
      & Hq' & Hdir' & Hrandom' & Hwf' & Hmax' & Hrot'); try done.
    { by rewrite app_nil_r. }
    { rewrite Hmax. cbn [length]. lia. }
    cbn [app] in *. exists w', s'. rewrite app_nil_r.
    repeat split; try done.
    + rewrite Hdir'. apply lookup_insert_eq.
    + intros f Hf _. rewrite Hdir'. by apply lookup_insert_ne.
  - destruct rs as [|r rs]; [done|]. cbn [length map app concat] in *.
    apply Forall_cons in Hall as [Hc Hall].
    apply NoDup_cons in Hnd as [Hr Hnd].
    rewrite <- app_assoc in Hq.
    destruct (turns_chunk c s w (concat chunks ++ rest)%list r
                (map (pair 16%Z) rs ++ later)%list)
      as (w1 & s1 & Hturns1 & Hlines1 & Hfile1 & Hq1 & Hdir1 & Hrandom1 & Hwf1
          & Hmax1 & Hrot1); try done.
    { intros ->. cbn in Hc. lia. }
    { by rewrite Hc. }
    destruct (IH rest s1 w1 rs later)
      as (w' & s' & Hturns & Hrot & Hsegs & Hopen & Hlines' & Hq' & Hframe);
      try done; try congruence.
    { rewrite Hdir1. apply lookup_insert_eq. }
    exists w', s'. rewrite <- app_assoc, length_app, turns_app. unfold bind.
    rewrite Hturns1, Hturns. repeat split; try done.
    + rewrite Hrot, Hrot1, <- app_assoc. reflexivity.
    + constructor; [|done].
      rewrite Hframe; [|apply segment_is_not_the_open_log|done].
      rewrite Hdir1, lookup_insert_ne, lookup_insert_eq; [done|].
      intros H. by apply (segment_is_not_the_open_log r).
    + intros f Hf Hfs. apply not_elem_of_cons in Hfs as [Hfr Hfs].
      rewrite Hframe, Hdir1 by done.
      rewrite lookup_insert_ne, lookup_insert_ne, lookup_delete_ne; done.
Qed.

(** The start of the writer in a directory without a log file: an
    empty file is opened, and nothing is rotated. *)
Lemma start_opens_empty_log s :
  dir (env s) !! log_name = None ->
  exists w s',
    _writer_thread_start s = (Return w, s') /\
    lines w = 0%Z /\ log_file w = log_name /\
    dir (env s') = <[log_name := ""]> (dir (env s)) /\
    _q s' = _q s /\ _max_lines s' = _max_lines s /\
    getrandom (env s') = getrandom (env s) /\
    write_faults (env s') = write_faults (env s) /\
    out (env s') = out (env s).
Proof.
  intros Hdir.
  unfold _writer_thread_start, monotonic_time, reopen_log, os_path_exists,
    open_wb, on_env. run. cbn.
  destruct (_log s); cbn; rewrite Hdir; cbn; (do 2 eexists);
    (split; [reflexivity|]); done.
Qed.

(** C5, as the code has it.  With [max_lines = K >= 1], an empty open
    file and no failing write, the writer takes the [N] lines of the
    queue in [N] turns and rotates out [N / K] segments, rounded down,
    each holding exactly [K] lines; the [N mod K] lines left over stay
    in the open file, which is not rotated.  The segments in the order
    of their rotation, followed by the open file, hold the lines in the
    order of the queue. *)
Theorem writer_segments (K : nat) (ls : list string) s w rs later :
  (1 <= K)%nat ->
  _max_lines s = Z.of_nat K ->
  lines w = 0%Z ->
  log_file w = log_name ->
  dir (env s) !! log_name = Some "" ->
  _q s = ls ->
  Forall (fun b => b = false) (write_faults (env s)) ->
  length rs = (length ls / K)%nat ->
  getrandom (env s) = (map (pair 16%Z) rs ++ later)%list ->
  NoDup (map segment_name rs) ->
  exists chunks rest w' s',
    _writer_thread_turns (length ls) w s = (Return w', s') /\
    ls = (concat chunks ++ rest)%list /\
    Forall (fun c => length c = K) chunks /\
    length chunks = (length ls / K)%nat /\
    length rest = (length ls mod K)%nat /\
    rotated (out (env s')) = (rotated (out (env s)) ++ map segment_name rs)%list /\
    Forall2 (fun r c => dir (env s') !! segment_name r = Some (written c))
      rs chunks /\
    dir (env s') !! log_name = Some (written rest) /\
    lines w' = Z.of_nat (length rest) /\
    _q s' = [].
Proof.
  intros HK Hmax Hlines Hfile Hdir Hq Hwf Hlen Hrandom Hnd.
  destruct (chunking K HK (length ls) ls) as (chunks & rest & Hls & Hall & Hrest);
    [done|].
  assert (HN : length ls = (K * length chunks + length rest)%nat).
  { rewrite Hls at 1. rewrite (length_chunks K) by done. lia. }
  assert (Hdiv : length chunks = (length ls / K)%nat).
  { by apply (Nat.div_unique _ _ _ (length rest)). }
  assert (Hmod : length rest = (length ls mod K)%nat).
  { by apply (Nat.mod_unique _ _ (length chunks)). }
  destruct (turns_chunks K HK chunks rest s w rs later)
    as (w' & s' & Hturns & Hrot & Hsegs & Hopen & Hlines' & Hq' & _);
    try done; try congruence.
  exists chunks, rest, w', s'. rewrite Hls at 1. done.
Qed.

Lemma append_not_empty (c l : string) : c ++ (l ++ nl) <> "".
Proof. destruct c; [destruct l|]; discriminate. Qed.

(** [reopen_log] on a directory that holds the log file: the file
    becomes a segment, with what it held, and an empty one is opened. *)
Lemma reopen_rotates s c f s' :
  dir (env s) !! log_name = Some c ->
  reopen_log s = (Return f, s') ->
  exists random,
    f = log_name /\
    dir (env s') =
      <[log_name := ""]>
        (<[segment_name random := c]> (delete log_name (dir (env s)))) /\
    rotated (out (env s')) =
      (rotated (out (env s)) ++ [segment_name random])%list /\
    _max_lines s' = _max_lines s.
Proof.
  intros Hdir.
  unfold reopen_log, os_path_exists, get_random_bytes, os_rename, open_wb,
    emit, on_env. run. cbn.
  destruct (hd ((-1)%Z, "") (getrandom (env s))) as [result buf] eqn:Hrandom.
  destruct (_log s); cbn; rewrite Hdir;
    rewrite bool_decide_eq_true_2 by (by eexists); cbn; rewrite Hrandom;
    (destruct (negb (result =? 16)%Z); cbn; [discriminate|]);
    rewrite Hdir; cbn; intros [= <- <-]; exists buf; cbn;
    rewrite rotated_app; done.
Qed.

#[local] Arguments reopen_log : simpl never.

(** With [max_lines >= 1], a turn of the loop rotates a file only
    after a line has been written to it: the loop keeps the line count
    below [max_lines] and the open file empty exactly while the count
    is zero, and a segment it rotates out is not empty. *)
Lemma turn_rotates_written_files s w c w' s' :
  log_file w = log_name ->
  (0 <= lines w < _max_lines s)%Z ->
  dir (env s) !! log_name = Some c ->
  (0 < lines w -> c <> "")%Z ->
  _writer_thread_turn w s = (Return w', s') ->
  (log_file w' = log_name /\
   (0 <= lines w' < _max_lines s')%Z /\
   exists c', dir (env s') !! log_name = Some c' /\
              (0 < lines w' -> c' <> "")%Z) /\
  (rotated (out (env s')) = rotated (out (env s)) \/
   exists seg data,
     rotated (out (env s')) = (rotated (out (env s)) ++ [seg])%list /\
     dir (env s') !! seg = Some data /\ data <> "").
Proof.
  intros Hfile Hlines Hdir Hc.
  assert (Hrotation : forall t data f t',
            dir (env t) !! log_name = Some data -> data <> "" ->
            _max_lines t = _max_lines s ->
            rotated (out (env t)) = rotated (out (env s)) ->
            reopen_log t = (Return f, t') ->
            (f = log_name /\
             (0 <= 0 < _max_lines t')%Z /\
             exists c', dir (env t') !! log_name = Some c' /\
                        (0 < 0 -> c' <> "")%Z) /\
            (rotated (out (env t')) = rotated (out (env s)) \/
             exists seg data',
               rotated (out (env t')) = (rotated (out (env s)) ++ [seg])%list /\
               dir (env t') !! seg = Some data' /\ data' <> "")).
  { intros t data f t' Hd Hne Hmax Hrot Hre.
    destruct (reopen_rotates _ _ _ _ Hd Hre) as (random & -> & Hd' & Hrot' & Hmax').
    split.
    - split; [done|]. split; [lia|]. exists "". split; [|lia].
      rewrite Hd'. apply lookup_insert_eq.
    - right. exists (segment_name random), data. split; [by rewrite Hrot', Hrot|].
      split; [|done].
      rewrite Hd', lookup_insert_ne, lookup_insert_eq; [done|].
      intros H. by apply (segment_is_not_the_open_log random). }
  unfold _writer_thread_turn, monotonic_time, q_get, write_sync, emit, on_env.
  run. cbn.
  destruct (_q s) as [|l q'] eqn:Hq; cbn; classes; cbn.
  - destruct (Z.eqb_spec (lines w) 0) as [H0|H0]; cbn.
    + rewrite geb_false by lia. intros [= <- <-]. cbn.
      rewrite rotated_app, app_nil_r. split; [|by left].
      split; [done|]. split; [lia|]. exists c. split; [done|]. lia.
    + destruct (lines w >=? _max_lines s)%Z;
        (match goal with
         | |- context [reopen_log ?t] =>
             destruct (reopen_log t) as [[f|e] t'] eqn:Hre; [|discriminate]
         end);
        intros [= <- <-]; cbn;
        eapply (Hrotation _ c) in Hre; cbn; try done; try (apply Hc; lia);
        rewrite ?rotated_app, ?app_nil_r; done.
  - destruct (hd false (write_faults (env s))); cbn; classes; cbn.
    + rewrite geb_false by lia. intros [= <- <-]. cbn.
      rewrite rotated_app, app_nil_r. split; [|by left].
      split; [done|]. split; [lia|]. exists c. split; [done|]. done.
    + rewrite Hfile, Hdir. cbn.
      destruct (Z.leb_spec (_max_lines s) (lines w + 1)) as [Hfull|Hroom].
      * rewrite geb_true by lia.
        match goal with
        | |- context [reopen_log ?t] =>
            destruct (reopen_log t) as [[f|e] t'] eqn:Hre; [|discriminate]
        end.
        intros [= <- <-]. cbn.
        eapply (Hrotation _ (c ++ (l ++ nl))) in Hre; cbn; try done.
        -- apply lookup_insert_eq.
        -- apply append_not_empty.
        -- rewrite rotated_app, app_nil_r. done.
      * rewrite geb_false by lia. intros [= <- <-]. cbn.
        rewrite rotated_app, app_nil_r. split; [|by left].
        split; [done|]. split; [lia|]. exists (c ++ (l ++ nl)).
        split; [apply lookup_insert_eq|]. intros _. apply append_not_empty.
Qed.

End Writer.

Section WriterRuns.

Import ProofOfPlay Scenarios.

(** C5, as the claim states it, fails: with [max_lines = 3], seven
    lines give two rotated segments, not the three of [ceil(7/3)]; the
    seventh line is in the open file. *)
Lemma seven_lines_give_two_segments :
  let run := (w <- _writer_thread_start ;; _writer_thread_turns 7 w)
               (recorder 3 seven_lines []
                  [(16%Z, random_a); (16%Z, random_b); (16%Z, random_c)]) in
  rotated (out (env (snd run))) = [segment_name random_a; segment_name random_b] /\
  length (rotated (out (env (snd run)))) <> ((7 + (3 - 1)) / 3)%nat /\
  dir (env (snd run)) !! log_name = Some (written ["e7"]) /\
  _q (snd run) = [].
Proof. vm_compute. repeat split. discriminate. Qed.

Lemma writer_segments_witness :
  rotated (out (env (snd (_writer_thread_turns 7
     {| submit := 60; log_file := log_name; lines := 0 |}
     (recorder 3 seven_lines [(log_name, "")]
        [(16%Z, random_a); (16%Z, random_b)]))))) =
  [segment_name random_a; segment_name random_b].
Proof.
  destruct (writer_segments 3 seven_lines
              (recorder 3 seven_lines [(log_name, "")]
                 [(16%Z, random_a); (16%Z, random_b)])
              {| submit := 60; log_file := log_name; lines := 0 |}
              [random_a; random_b] [])
    as (chunks & rest & w' & s' & Hturns & _ & _ & _ & _ & Hrot & _);
    [lia | reflexivity | reflexivity | reflexivity | reflexivity | reflexivity
    | constructor | reflexivity | reflexivity
    | apply (bool_decide_unpack _); vm_compute; reflexivity |].
  change (length seven_lines) with 7%nat in Hturns. rewrite Hturns. exact Hrot.
Defined.

End WriterRuns.

(** ** The submitter *)

Section Submitter.

Import ProofOfPlay.












End Submitter.

Section SubmitterRuns.

Import ProofOfPlay Scenarios.


End SubmitterRuns.

(** * More properties of the code *)

(** ** Comparisons and control flow *)

Lemma lt_spec a b : Builtin.lt a b = true <-> (a < b)%Q.
Proof.
  unfold Builtin.lt. rewrite negb_true_iff, <- not_true_iff_false, Qle_bool_iff.
  split; [apply Qnot_le_lt | apply Qlt_not_le].
Qed.

Lemma lt_false a b : Builtin.lt a b = false <-> ~ (a < b)%Q.
Proof. by rewrite <- not_true_iff_false, lt_spec. Qed.

(** A computation that starts with a call whose outcome is known. *)
Lemma bind_run {S A B} (m : M S A) (k : A -> M S B) s r s' :
  m s = (r, s') ->
  bind m k s = match r with
               | Return a => k a s'
               | Raise e => (Raise e, s')
               end.
Proof. intros H. unfold bind. rewrite H. by destruct r. Qed.

(** ** Schedules *)

Section Schedules.

Import Builtin OptionExpandedSchedule.







End Schedules.

(** ** The queries of the control link *)

Section ControlQueries.

Import InfoBeamerQuery Builtin Queries.

(** The fields of a split, joined again, are the string. *)
Lemma str_split_not_nil sep s : str_split sep s <> [].
Proof.
  destruct s as [|c s]; cbn; [done|].
  destruct (Ascii.eqb c sep); [done|]. by destruct (str_split sep s).
Qed.

Lemma join_cons sep x y ys :
  join sep (x :: y :: ys) = (x ++ sep ++ join sep (y :: ys))%string.
Proof. reflexivity. Qed.

Lemma join_split sep s :
  join (String sep EmptyString) (str_split sep s) = s.
Proof.
  induction s as [|c s IH]; [done|]. cbn [str_split].
  destruct (Ascii.eqb_spec c sep) as [->|Hne].
  - pose proof (str_split_not_nil sep s) as Hnil.
    destruct (str_split sep s) as [|y ys]; [done|].
    rewrite join_cons, IH. reflexivity.
  - pose proof (str_split_not_nil sep s) as Hnil.
    destruct (str_split sep s) as [|y ys]; [done|].
    destruct ys as [|z zs].
    + change (String c (join (String sep "") [y]) = String c s).
      by rewrite IH.
    + rewrite join_cons in IH. rewrite join_cons.
      change (String c (y ++ (String sep "" ++ join (String sep "") (z :: zs)))
              = String c s).
      by rewrite IH.
Qed.

(** No field of a split holds the separator. *)
Lemma split_fields sep s :
  Forall (fun field => ~ In sep (list_ascii_of_string field)) (str_split sep s).
Proof.
  induction s as [|c s IH]; cbn [str_split].
  - constructor; [|constructor]. intros [].
  - destruct (Ascii.eqb_spec c sep) as [->|Hne].
    + constructor; [|done]. intros [].
    + pose proof (str_split_not_nil sep s) as Hnil.
      destruct (str_split sep s) as [|y ys]; [done|].
      inversion IH as [|? ? Hy Hys]; subst.
      constructor; [|done]. cbn. intros [?|?]; [congruence | done].
Qed.

(** The first field is empty exactly when the string is empty or
    starts with the separator. *)
Lemma split_first_empty sep s :
  is_empty (hd "" (str_split sep s)) = true <->
  s = "" \/ exists rest, s = String sep rest.
Proof.
  destruct s as [|c s]; cbn [str_split].
  - cbn. split; [by left | done].
  - destruct (Ascii.eqb_spec c sep) as [->|Hne]; cbn.
    + split; [by right; eexists | done].
    + pose proof (str_split_not_nil sep s) as Hnil.
      destruct (str_split sep s) as [|y ys]; [done|]. cbn.
      split; [done|]. intros [?|[rest ?]]; [done | congruence].
Qed.

(** X3. Whatever [_send_cmd] raises is an [InfoBeamerQueryException],
    and so for the queries built on it and for [Node.io]: the errors of
    the socket and of the parsing never reach the caller. *)
Theorem queries_raise_query_exceptions e :
  (forall mv cmd ml s s',
     _send_cmd mv cmd ml s = (Raise e, s') ->
     exn_class e = InfoBeamerQueryException) /\
  (forall s s', ping s = (Raise e, s') ->
     exn_class e = InfoBeamerQueryException) /\
  (forall s s', nodes s = (Raise e, s') ->
     exn_class e = InfoBeamerQueryException) /\
  (forall path s s', Node_error path s = (Raise e, s') ->
     exn_class e = InfoBeamerQueryException) /\
  (forall path raw s s', Node_io path raw s = (Raise e, s') ->
     exn_class e = InfoBeamerQueryException).
Proof.
  assert (Hsend : forall mv cmd ml s s',
            _send_cmd mv cmd ml s = (Raise e, s') ->
            exn_class e = InfoBeamerQueryException).
  { intros mv cmd ml s s' H.
    destruct (send_cmd_cases _ _ _ _ _ _ H)
      as [(v & [=] & _)|[([= ->] & _)|(msg & [= ->] & _)]]; reflexivity. }
  repeat split.
  - exact Hsend.
  - intros s s'. unfold ping. run.
    destruct (_send_cmd _ _ _ s) as [[v|e'] s1] eqn:H; [done|].
    intros [= -> ->]. eauto.
  - intros s s'. unfold nodes. run.
    destruct (_send_cmd _ _ _ s) as [[v|e'] s1] eqn:H.
    + by destruct (is_empty _).
    + intros [= -> ->]. eauto.
  - intros path s s'. unfold Node_error. eauto.
  - intros path raw s s' H.
    destruct (node_io_cases _ _ _ _ _ H) as [(fo & [=] & _)|(msg & [= ->])].
    reflexivity.
Qed.

(** X4. [nodes] gives the names between the commas of the response:
    none holds a comma, and joined by commas they are the response.
    A response that is empty or starts with a comma gives the empty
    list, whatever follows the comma. *)
Theorem nodes_are_the_fields s response s' :
  _send_cmd "0.9.3" "*query/*nodes" false s = (Return response, s') ->
  exists names,
    nodes s = (Return names, s') /\
    (names = [] <-> response = "" \/ exists rest, response = String "," rest) /\
    (names <> [] -> join "," names = response) /\
    Forall (fun name => ~ In ","%char (list_ascii_of_string name)) names.
Proof.
  intros H. unfold nodes. run. rewrite H.
  destruct (is_empty (hd "" (str_split "," response))) eqn:He.
  - exists []. split; [done|]. split; [|split; [done | constructor]].
    split; [intros _; by apply split_first_empty | done].
  - exists (str_split "," response). split; [done|].
    split; [|split].
    + split; [intros Hnil; by destruct (str_split_not_nil _ _ Hnil)|].
      intros Hs. apply split_first_empty in Hs. congruence.
    + intros _. apply join_split.
    + apply split_fields.
Qed.

(** X5. [close] leaves the link disconnected and can be repeated;
    the command after it opens a new connection before anything
    else. *)
Theorem close_disconnects s :
  let s1 := snd (close s) in
  fst (close s) = Return tt /\
  _conn s1 = None /\ _sock s1 = None /\
  close s1 = (Return tt, s1) /\
  forall mv cmd ml,
    exists t, trace (env (snd (_send_cmd mv cmd ml s1))) =
              (trace (env s1) ++ EvConnect (connects (env s1)) :: t)%list.
Proof.
  intros s1. subst s1. unfold close.
  destruct (reset_frame s) as (Hc & Hs & _).
  revert Hc Hs. generalize (snd (_reset true s)) as s1. intros s1 Hc Hs.
  split; [done|]. split; [done|]. split; [done|]. split.
  - unfold _reset. rewrite Hc. destruct s1; cbn in *; by subst.
  - intros mv cmd ml. rewrite send_cmd_unrolled.
    assert (Hfirst : forall r1 s2, attempt mv cmd ml s1 = (r1, s2) ->
              exists t, trace (env s2) =
                (trace (env s1) ++ EvConnect (connects (env s1)) :: t)%list).
    { intros r1 s2. unfold attempt, _reconnect. run. rewrite Hc.
      unfold create_connection.
      destruct (net (env s1)) as [|[f|p] rest] eqn:Hn; cbn.
      - classes. cbn. rewrite Hc. inj. cbn. eauto.
      - destruct f; cbn; classes; cbn; rewrite Hc; cbn; inj; cbn; eauto.
      - destruct (banner p) as [f|intro] eqn:Hb; cbn.
        + destruct f; cbn; classes; cbn; inj; cbn; rewrite <- app_assoc;
            cbn; eauto.
        + destruct (match_intro intro) as [v|] eqn:Hm; cbn.
          * set (s2' := set_version _ _).
            destruct (String.leb v mv); [inj; cbn; rewrite <- ?app_assoc; cbn; eauto|].
            intros Hx. destruct (send_receive cmd ml s2') as [r3 s3] eqn:Hsr.
            rewrite (exchange_outcome _ _ _ _ _ Hsr) in Hx.
            destruct (send_receive_frame _ _ s2' _ _ _ eq_refl Hsr)
              as (_ & _ & _ & Ht).
            pose proof (reset_frame s3) as Hreset. revert Hreset Hx.
            generalize (snd (_reset true s3)) as s4.
            intros s4 (_ & _ & _ & _ & t4 & Ht4 & _) Hx.
            destruct r3 as [[v'|]|e']; injection Hx as <- <-;
              rewrite ?Ht4, Ht; cbn; rewrite <- ?app_assoc; cbn; eauto.
          * inj. cbn. rewrite <- app_assoc. cbn. eauto. }
    destruct (attempt mv cmd ml s1) as [r1 s2] eqn:H1.
    destruct (Hfirst _ _ eq_refl) as (t & Ht).
    destruct r1 as [[v|]|e']; cbn [snd]; [eauto| |eauto].
    destruct (attempt mv cmd ml s2) as [r2 s3] eqn:H2.
    destruct (attempt_extends _ _ _ _ _ _ H2) as (t2 & Ht2).
    assert (exists t', trace (env s3) =
              (trace (env s1) ++ EvConnect (connects (env s1)) :: t')%list).
    { rewrite Ht2, Ht, <- app_assoc. cbn. eauto. }
    destruct r2 as [[v|]|e']; done.
Qed.

End ControlQueries.

(** ** The receiving side of the channel *)

Section ChannelListener.

Import InfoBeamerQuery RPC Listener.

(** How [_recv] ends. *)
Lemma recv_returns s :
  exists r s', _recv s = (Return r, s') /\
    match r with
    | Some line =>
        exists s1 fo, _get_connection s = (Return (Some fo), s1) /\
          line = match fo_recvs fo with inr l :: _ => l | _ => "" end /\
          exists fo', _con s' = Some fo' /\ fo_id fo' = fo_id fo /\
                      fo_recvs fo' = tail (fo_recvs fo)
    | None => _con s' = None
    end.
Proof.
  unfold _recv. run.
  destruct (get_connection_returns s) as (o & s1 & Hg & Ho). rewrite Hg.
  unfold readline. rewrite Ho.
  destruct o as [fo|].
  - destruct (fo_recvs fo) as [|[e|line] rest] eqn:Hr.
    + do 2 eexists. split; [done|]. exists s1, fo. rewrite Hr.
      split; [done|]. split; [done|]. exists fo. by rewrite Hr.
    + do 2 eexists. split; [reflexivity|]. cbn. by destruct (_con _).
    + do 2 eexists. split; [reflexivity|]. exists s1, fo. rewrite Hr.
      split; [done|]. split; [done|]. eexists. split; [reflexivity|]. done.
  - do 2 eexists. split; [reflexivity|]. reflexivity.
Qed.

Lemma close_connection_closes s :
  exists s', _close_connection s = (Return tt, s') /\ _con s' = None.
Proof. unfold _close_connection. eauto. Qed.

(** X6. [_recv] never raises.  It gives the next line of the stream,
    which stays open, or Python's [None] after closing the stream: when
    no stream could be opened or the read raised. *)
Theorem recv_never_raises s :
  exists r s', _recv s = (Return r, s') /\
    match r with
    | Some line =>
        exists s1 fo, _get_connection s = (Return (Some fo), s1) /\
          line = match fo_recvs fo with inr l :: _ => l | _ => "" end /\
          exists fo', _con s' = Some fo' /\ fo_id fo' = fo_id fo /\
                      fo_recvs fo' = tail (fo_recvs fo)
    | None => _con s' = None
    end.
Proof. apply recv_returns. Qed.

(** X7. A turn of the listening loop never raises, whatever the line
    holds and whatever the callback does; when there is no line (the
    stream could not be opened, the read raised, or the peer closed)
    the turn leaves the channel without a stream, so that the next
    turn opens a new one. *)
Theorem listen_turn_never_raises json_loads callbacks s :
  exists t s',
    _listen_thread_turn json_loads callbacks s = (Return t, s') /\
    (t = Idle -> _con s' = None) /\
    (forall line s1, _recv s = (Return line, s1) ->
       (line = None \/ line = Some "") <-> t = Idle).
Proof.
  unfold _listen_thread_turn. run.
  destruct (recv_returns s) as (r & s1 & Hr & _). rewrite Hr.
  assert (Hidle : exists s',
            (let (r0, s'0) := _close_connection s1 in
             match r0 with
             | Return _ => (Return Idle, s'0)
             | Raise e => (@Raise turn e, s'0)
             end) = (Return Idle, s') /\ _con s' = None).
  { destruct (close_connection_closes s1) as (s' & -> & Hc). eauto. }
  destruct r as [line|].
  - destruct (is_empty line) eqn:He.
    + destruct Hidle as (s' & -> & Hc). exists Idle, s'.
      split; [done|]. split; [done|].
      intros line' s1' [= <- <-]. split; [done|]. intros _. right.
      by destruct line.
    + unfold dispatch. run.
      assert (Hne : forall t, t <> Idle ->
                forall line' s1', (Return (Some line), s1) = (Return line', s1') ->
                  (line' = None \/ line' = Some "") <-> t = Idle).
      { intros t Ht line' s1' [= <- <-]. split; [|done].
        intros [?|[= ->]]; done. }
      destruct (json_loads line) as [args|e]; cbn;
        [|exists Failed; eexists; split; [done|]; split; [done|];
          by apply Hne].
      destruct (pop0 args) as [[method rest]|]; cbn;
        [|exists Failed; eexists; split; [done|]; split; [done|];
          by apply Hne].
      destruct (lookup_callback callbacks method) as [[fn|]|e]; cbn.
      * destruct (fn rest s1) as [[[]|e] s2];
          eexists; eexists; (split; [done|]); (split; [done|]);
          by apply Hne.
      * eexists; eexists; (split; [done|]); (split; [done|]); by apply Hne.
      * eexists; eexists; (split; [done|]); (split; [done|]); by apply Hne.
  - destruct Hidle as (s' & -> & Hc). exists Idle, s'.
    split; [done|]. split; [done|].
    intros line' s1' [= <- <-]. split; eauto.
Qed.

(** X8. A line that decodes to the list of a method name and arguments
    runs the callback last registered under that name, once, on these
    arguments; an exception of the callback is swallowed and leaves the
    channel as the callback left it.  A name with no callback changes
    nothing. *)
Theorem listen_turn_dispatches json_loads callbacks name fn s line s1 args :
  _recv s = (Return (Some line), s1) ->
  line <> "" ->
  json_loads line = Return (ProofOfPlay.PyList (ProofOfPlay.PyStr name :: args)) ->
  _listen_thread_turn json_loads (register name fn callbacks) s =
    (Return match fst (fn args s1) with
            | Return _ => Called (ProofOfPlay.PyStr name)
            | Raise _ => Failed
            end,
     snd (fn args s1)) /\
  (callbacks !! name = None ->
   _listen_thread_turn json_loads callbacks s =
     (Return (NotFound (ProofOfPlay.PyStr name)), s1)).
Proof.
  intros Hr Hne Hj. unfold _listen_thread_turn, dispatch. run. rewrite Hr.
  assert (He : is_empty line = false) by by destruct line.
  rewrite He, Hj. cbn. split.
  - unfold register. rewrite lookup_insert_eq.
    by destruct (fn args s1) as [[[]|e] s2].
  - intros ->. reflexivity.
Qed.

End ChannelListener.

(** ** The file cache *)

Section FileCache.

Import Builtin Cache.

Variable md5_hexdigest : string -> string.

Lemma gt_false a b : gt a b = false <-> (a <= b)%Q.
Proof.
  unfold gt. rewrite <- not_true_iff_false, lt_spec.
  split; [apply Qnot_lt_le | apply Qle_not_lt].
Qed.

(** A file is fresh when no age is asked for or it is not older. *)
Lemma expired_false max_age mtime s :
  expired max_age mtime s =
    (Return (match max_age with
             | None => false
             | Some age => gt (now (env s)) (mtime + age)
             end), s).
Proof. by destruct max_age. Qed.

Lemma has_outcome key max_age s :
  has md5_hexdigest key max_age s =
    (Return match files (env s) !! file_of md5_hexdigest key s with
            | None => false
            | Some f => match max_age with
                        | None => true
                        | Some age => negb (gt (now (env s)) (st_mtime f + age))
                        end
            end, s).
Proof.
  unfold Cache.has, Cache.key_to_fname, os_stat. run. fold (file_of md5_hexdigest key s).
  destruct (files (env s) !! file_of md5_hexdigest key s) as [f|]; [|done].
  rewrite expired_false. destruct max_age as [age|]; [|done].
  by destruct (gt _ _).
Qed.

Lemma get_outcome key max_age s :
  Cache.get md5_hexdigest key max_age s =
    (Return match files (env s) !! file_of md5_hexdigest key s with
            | None => None
            | Some f => match max_age with
                        | None => Some (data f)
                        | Some age =>
                            if gt (now (env s)) (st_mtime f + age) then None
                            else Some (data f)
                        end
            end, marked md5_hexdigest key s).
Proof.
  unfold Cache.get, Cache.file_ref, Cache.key_to_fname, open_r. run.
  fold (file_of md5_hexdigest key s). fold (marked md5_hexdigest key s).
  change (files (env (marked md5_hexdigest key s))) with (files (env s)).
  destruct (files (env s) !! file_of md5_hexdigest key s) as [f|]; [|done].
  rewrite expired_false. destruct max_age as [age|]; [|done].
  change (now (env (marked md5_hexdigest key s))) with (now (env s)).
  by destruct (gt _ _).
Qed.

(** X9. [has] and [get] never raise and agree: [has] is true exactly
    when [get] gives the bytes, which is when the file of the key
    exists and, if an age is given, is not older.  [has] changes
    nothing; [get] marks the file of the key as used, found or not. *)
Theorem has_agrees_with_get key max_age s :
  exists b r,
    has md5_hexdigest key max_age s = (Return b, s) /\
    Cache.get md5_hexdigest key max_age s =
      (Return r,
       set_touched ({[ (_prefix s ++ md5_hexdigest key)%string ]} ∪ _touched s) s) /\
    (b = true <-> is_Some r) /\
    (b = true <->
     exists f, files (env s) !! (_prefix s ++ md5_hexdigest key)%string = Some f /\
       r = Some (data f) /\
       forall age, max_age = Some age -> (now (env s) <= st_mtime f + age)%Q).
Proof.
  rewrite has_outcome, get_outcome. do 2 eexists.
  split; [reflexivity|]. split; [reflexivity|].
  unfold file_of. destruct (files (env s) !! _) as [f|].
  - destruct max_age as [age|].
    + destruct (gt _ _) eqn:Hgt; cbn.
      * split; [split; [done | by intros [? ?]]|].
        split; [done|]. intros (f' & [= <-] & _ & Hage).
        specialize (Hage _ eq_refl). apply gt_false in Hage. congruence.
      * split; [by split; eauto|]. split; [|done]. intros _.
        exists f. split; [done|]. split; [done|].
        intros age' [= <-]. by apply gt_false.
    + split; [by split; eauto|]. split; [|done]. intros _.
      exists f. split; [done|]. split; [done|]. done.
  - split; [split; [done | by intros [? ?]]|].
    split; [done|]. by intros (f' & [=] & _).
Qed.

Lemma set_outcome key value s :
  Cache.set md5_hexdigest key value s =
    let s1 := set_env (set_write_faults (tail (write_faults (env s))) (env s))
                (marked md5_hexdigest key s) in
    match hd None (write_faults (env s)) with
    | Some open_fails =>
        (Raise (Exn IOError "[Errno 13] Permission denied"), s1)
    | Some write_fails =>
        (Raise (Exn IOError "[Errno 28] No space left on device"),
         set_env (set_files (<[file_of md5_hexdigest key s := File "" (now (env s))]>
                               (files (env s))) (env s1)) s1)
    | None =>
        (Return tt,
         set_env (set_files (<[file_of md5_hexdigest key s := File value (now (env s))]>
                               (files (env s))) (env s1)) s1)
    end.
Proof.
  unfold Cache.set, Cache.file_ref, Cache.key_to_fname, open_wb_write, on_env.
  run. fold (file_of md5_hexdigest key s). fold (marked md5_hexdigest key s).
  change (env (marked md5_hexdigest key s)) with (env s).
  by destruct (hd None (write_faults (env s))) as [[]|].
Qed.

(** X10. What [set] has written, [get] gives back, at any later time
    at which the file is not older than the age asked for; once it is
    older, [get] gives [None].  The same holds for [set_json] and
    [get_json] on a value that [json.loads] recovers from its
    [json.dumps]. *)
Theorem set_then_get key value s s1 t max_age :
  Cache.set md5_hexdigest key value s = (Return tt, s1) ->
  ((forall age, max_age = Some age -> (t <= now (env s) + age)%Q) ->
   fst (Cache.get md5_hexdigest key max_age (at_time t s1)) =
     Return (Some value)) /\
  (forall age, max_age = Some age -> (now (env s) + age < t)%Q ->
   fst (Cache.get md5_hexdigest key max_age (at_time t s1)) = Return None) /\
  (forall json_loads json_dumps v,
     json_loads value = Return v ->
     json_dumps v = Return value ->
     (forall age, max_age = Some age -> (t <= now (env s) + age)%Q) ->
     set_json md5_hexdigest json_dumps key v s = (Return tt, s1) /\
     fst (get_json md5_hexdigest json_loads key max_age (at_time t s1)) =
       Return (Some v)).
Proof.
  rewrite set_outcome. cbn zeta.
  destruct (hd None (write_faults (env s))) as [[]|] eqn:Hf; [done..|].
  intros [= <-].
  assert (Hget : forall (r : option string),
    r = match max_age with
        | None => Some value
        | Some age => if gt t (now (env s) + age) then None else Some value
        end ->
    fst (Cache.get md5_hexdigest key max_age
           (at_time t
              (set_env (set_files (<[file_of md5_hexdigest key s := File value (now (env s))]>
                                     (files (env s)))
                          (env (set_env (set_write_faults
                                           (tail (write_faults (env s))) (env s))
                                  (marked md5_hexdigest key s))))
                 (set_env (set_write_faults (tail (write_faults (env s))) (env s))
                    (marked md5_hexdigest key s))))) = Return r).
  { intros r ->. rewrite get_outcome. cbn. unfold file_of. cbn.
    rewrite lookup_insert_eq. cbn. by destruct max_age. }
  split; [|split].
  - intros Hage. apply Hget. destruct max_age as [age|]; [|done].
    specialize (Hage _ eq_refl). apply gt_false in Hage. by rewrite Hage.
  - intros age -> Hlt. apply Hget. apply lt_spec in Hlt.
    unfold gt. by rewrite Hlt.
  - intros json_loads json_dumps v Hl Hd Hage. split.
    + assert (Hs : set_json md5_hexdigest json_dumps key v s =
                     Cache.set md5_hexdigest key value s).
      { unfold set_json. run. by rewrite Hd. }
      rewrite Hs, set_outcome, Hf. done.
    + unfold get_json. run.
      assert (Hfresh : Some value =
                match max_age with
                | Some age => if gt t (now (env s) + age) then None else Some value
                | None => Some value
                end).
      { destruct max_age as [age|]; [|done].
        specialize (Hage _ eq_refl). apply gt_false in Hage. by rewrite Hage. }
      apply Hget in Hfresh.
      match goal with |- context [Cache.get ?m ?k ?a ?st] =>
        change (fst (Cache.get m k a st) = Return (Some value)) in Hfresh;
        revert Hfresh; destruct (Cache.get m k a st) as [r0 s0] end.
      cbn. intros ->. by rewrite Hl.
Qed.


Lemma for_each_cons {S X} (x : X) (xs : list X) (body : X -> M S unit) s :
  for_each (x :: xs) body s =
    match body x s with
    | (Return _, s1) => for_each xs body s1
    | (Raise e, s1) => (Raise e, s1)
    end.
Proof.
  unfold for_each. cbn [for_in]. unfold bind at 1 2. unfold ret at 1.
  by destruct (body x s) as [[[]|e] s1].
Qed.

(** Removing a file in [prune]: the error of [os.unlink] is passed
    over. *)
Lemma unlink_passed_over x s :
  try_except_all (os_unlink x) (ret tt) s =
    (Return tt,
     if bool_decide (is_Some (files (env s) !! x) /\ x ∉ undeletable (env s))
     then set_env (set_files (delete x (files (env s))) (env s)) s
     else s).
Proof.
  unfold os_unlink, on_env. run.
  destruct (files (env s) !! x) as [f|] eqn:Hx.
  - destruct (bool_decide (x ∈ undeletable (env s))) eqn:Hu.
    + apply bool_decide_eq_true in Hu.
      rewrite bool_decide_eq_false_2; [done | tauto].
    + apply bool_decide_eq_false in Hu.
      rewrite bool_decide_eq_true_2; [done | eauto].
  - rewrite bool_decide_eq_false_2; [done|]. by intros [[? ?] _].
Qed.

(** What the loop of [prune] does to the files it is given. *)
Lemma prune_loop names s :
  exists s',
    for_each names (fun fname => try_except_all (os_unlink fname) (ret tt)) s
      = (Return tt, s') /\
    _touched s' = _touched s /\ _prefix s' = _prefix s /\
    undeletable (env s') = undeletable (env s) /\
    forall name,
      files (env s') !! name =
        if bool_decide (name ∈ names /\ name ∉ undeletable (env s))
        then None else files (env s) !! name.
Proof.
  revert s. induction names as [|x names IH]; intros s.
  - exists s. split; [done|]. repeat split.
  - rewrite for_each_cons, unlink_passed_over.
    match goal with |- context [for_each names _ ?st] =>
      destruct (IH st) as (s' & -> & Ht & Hp & Hun & Hfiles);
      assert (Hst : _touched st = _touched s /\ _prefix st = _prefix s /\
                    undeletable (env st) = undeletable (env s) /\
                    forall name, files (env st) !! name =
                      if bool_decide (name = x /\ x ∉ undeletable (env s))
                      then None else files (env s) !! name);
      [|destruct Hst as (Ht0 & Hp0 & Hun0 & Hfiles0)]
    end.
    { destruct (bool_decide (is_Some _ /\ _)) eqn:Hd.
      - apply bool_decide_eq_true in Hd. destruct Hd as [_ Hd].
        repeat split. intros name. cbn.
        destruct (decide (name = x)) as [->|Hne].
        + rewrite lookup_delete_eq, bool_decide_eq_true_2; done.
        + rewrite lookup_delete_ne by done.
          rewrite bool_decide_eq_false_2; [done | tauto].
      - apply bool_decide_eq_false in Hd. repeat split. intros name.
        destruct (bool_decide (name = x /\ _)) eqn:Hd2; [|done].
        apply bool_decide_eq_true in Hd2. destruct Hd2 as [-> Hu].
        destruct (files (env s) !! x) eqn:Hx; [|done].
        destruct Hd. eauto. }
    exists s'. split; [done|].
    split; [congruence|]. split; [congruence|]. split; [congruence|].
    intros name. rewrite Hfiles, Hun0, Hfiles0.
    destruct (decide (name = x)) as [->|Hne].
    + destruct (decide (x ∈ undeletable (env s))) as [Hu|Hu].
      * rewrite !bool_decide_eq_false_2; [done|tauto..].
      * rewrite (bool_decide_eq_true_2 (x = x /\ _)) by done.
        rewrite (bool_decide_eq_true_2 (x ∈ x :: names /\ _));
          [destruct (bool_decide (x ∈ names /\ _)); reflexivity
          |split; [apply elem_of_cons; by left | done]].
    + rewrite (bool_decide_eq_false_2 (name = x /\ _)) by tauto.
      same_test. rewrite elem_of_cons. tauto.
Qed.

Lemma prune_outcome s :
  exists s',
    prune s = (Return tt, s') /\
    _touched s' = _touched s /\ _prefix s' = _prefix s /\
    forall name,
      files (env s') !! name =
        if bool_decide (String.prefix (_prefix s) name = true /\
                        (name ∉ _touched s) /\ name ∉ undeletable (env s))
        then None else files (env s) !! name.
Proof.
  change (prune s) with
    (for_each
       (elements
          (list_to_set (List.filter (String.prefix (_prefix s))
                          (map_to_list (files (env s))).*1) ∖ _touched s))
       (fun fname => try_except_all (os_unlink fname) (ret tt)) s).
  match goal with |- context [for_each ?l ?b s] =>
    destruct (prune_loop l s) as (s' & -> & Ht & Hp & _ & Hfiles) end.
  exists s'. split; [done|]. split; [done|]. split; [done|].
  intros name. rewrite Hfiles.
  destruct (files (env s) !! name) as [f|] eqn:Hname;
    [|by repeat destruct (bool_decide _)].
  same_test.
  rewrite elem_of_elements, elem_of_difference, elem_of_list_to_set.
  rewrite list_elem_of_In, List.filter_In, <- list_elem_of_In.
  rewrite list_elem_of_fmap.
  split.
  - intros [[[_ Hpre] Hnt] Hnu]. done.
  - intros (Hpre & Hnt & Hnu). repeat split; try done.
    exists (name, f). split; [done|]. by apply elem_of_map_to_list.
Qed.

(** X12. [prune] never raises and removes exactly the files whose
    names start with the prefix of the cache and that were not marked
    as used since the last [start], as far as the system lets it:
    every other file stays as it is.  [clear] removes all the files
    with the prefix that can be removed. *)
Theorem prune_removes_the_unused s :
  (exists s',
     prune s = (Return tt, s') /\
     _touched s' = _touched s /\
     forall name,
       files (env s') !! name =
         if bool_decide (String.prefix (_prefix s) name = true /\
                         (name ∉ _touched s) /\ name ∉ undeletable (env s))
         then None else files (env s) !! name) /\
  (exists s',
     clear s = (Return tt, s') /\
     _touched s' = ∅ /\
     forall name,
       files (env s') !! name =
         if bool_decide (String.prefix (_prefix s) name = true /\
                         name ∉ undeletable (env s))
         then None else files (env s) !! name).
Proof.
  split.
  - destruct (prune_outcome s) as (s' & Hp & Ht & _ & Hf). eauto.
  - unfold clear, start. run.
    destruct (prune_outcome (set_touched ∅ s)) as (s' & -> & Ht & _ & Hf).
    exists s'. split; [done|]. split; [done|].
    intros name. rewrite Hf. cbn. same_test.
    split; [by intros (? & _ & ?)|].
    intros [? ?]. split; [done|]. split; [apply not_elem_of_empty | done].
Qed.



(** X14. The file name the wrapper of [file_producer] returns is the
    name of a file that exists, and the file is marked as used, so
    that the next [prune] keeps it. *)
Theorem file_producer_file_is_kept marshal_dumps_call max_age name fn args
    s f s1 :
  file_producer md5_hexdigest marshal_dumps_call max_age name fn args s
    = (Return (Some f), s1) ->
  is_Some (files (env s1) !! f) /\
  f ∈ _touched s1 /\
  exists s2, prune s1 = (Return tt, s2) /\
             files (env s2) !! f = files (env s1) !! f.
Proof.
  intros H.
  assert (Hkept : is_Some (files (env s1) !! f) /\ f ∈ _touched s1).
  { revert H. unfold file_producer. unfold bind at 1 2, lift at 1.
    destruct (marshal_dumps_call name args) as [key|e]; [|done].
    cbv beta iota. rewrite has_outcome.
    destruct (files (env s) !! file_of md5_hexdigest key s) as [f0|] eqn:Hfile.
    - destruct (match max_age with Some _ => _ | None => true end).
      + unfold Cache.file_ref, Cache.key_to_fname. run.
        intros [= <- <-]. cbn. fold (file_of md5_hexdigest key s). rewrite Hfile.
        split; [eauto | set_solver].
      + unfold bind at 1.
        destruct (fn args s) as [[[val|]|e] s2]; [|done..].
        unfold bind at 1. rewrite set_outcome. cbn zeta.
        destruct (hd None (write_faults (env s2))) as [[]|]; [done..|].
        unfold Cache.file_ref, Cache.key_to_fname. run.
        intros [= <- <-]. cbn. unfold file_of. cbn.
        rewrite lookup_insert_eq. split; [eauto | set_solver].
    - unfold bind at 1.
      destruct (fn args s) as [[[val|]|e] s2]; [|done..].
      unfold bind at 1. rewrite set_outcome. cbn zeta.
      destruct (hd None (write_faults (env s2))) as [[]|]; [done..|].
      unfold Cache.file_ref, Cache.key_to_fname. run.
      intros [= <- <-]. cbn. unfold file_of. cbn.
      rewrite lookup_insert_eq. split; [eauto | set_solver]. }
  destruct Hkept as [Hex Ht]. split; [done|]. split; [done|].
  destruct (prune_outcome s1) as (s2 & Hp & _ & _ & Hf).
  exists s2. split; [done|]. rewrite Hf.
  rewrite bool_decide_eq_false_2; [done | tauto].
Qed.

End FileCache.

(** ** The key-value store *)

Section KeyValueStore.

Import Builtin ProofOfPlay DeviceKV.

(** What is caught is wrapped: a guarded block never lets an
    exception of the interpreter through. *)
Lemma guarded_outcome {A} (body : M state A) s :
  guarded body s =
    match body s with
    | (Return a, s') => (Returned a, s')
    | (Raise e, s') => (RaisedError e, s')
    end.
Proof.
  unfold guarded. destruct (body s) as [[a|e] s']; [done|].
  by rewrite isinstance_Exception.
Qed.

Lemma api_outcome r s :
  api r s = (hd (Raise (Exn APIError "connection error")) (answers (env s)),
             requested r s).
Proof. reflexivity. Qed.

Lemma monotonic_time_outcome s :
  monotonic_time s = (Return (next_reading s), after_reading s).
Proof. reflexivity. Qed.

(** [maybe_refresh]: nothing but the reading of the clock while the
    refresh is not due; then one empty post, with the next refresh an
    hour after a second reading. *)
Lemma maybe_refresh_outcome s :
  maybe_refresh s =
    if lt (next_reading s) (_next_refresh s) then (Returned tt, after_reading s)
    else
      let s1 := set_next_refresh (next_reading (after_reading s) + 3600)
                  (after_reading (after_reading s)) in
      (match hd (Raise (Exn APIError "connection error")) (answers (env s)) with
       | Return _ => Returned tt
       | Raise err => RaisedError err
       end, requested (Post ∅) s1).
Proof.
  unfold maybe_refresh, and_then, plain. rewrite monotonic_time_outcome.
  change (_next_refresh (after_reading s)) with (_next_refresh s).
  destruct (lt _ _); [done|].
  unfold postpone_refresh.
  rewrite (bind_run _ _ _ _ _ (monotonic_time_outcome _)).
  unfold modify. rewrite guarded_outcome.
  rewrite (bind_run _ _ _ _ _ (api_outcome _ _)).
  change (answers (env (set_next_refresh _ (after_reading (after_reading s)))))
    with (answers (env s)).
  by destruct (hd _ (answers (env s))).
Qed.

Lemma maybe_refresh_returns_or_errors s :
  (exists s', maybe_refresh s = (Returned tt, s')) \/
  (exists err s', maybe_refresh s = (RaisedError err, s')).
Proof.
  rewrite maybe_refresh_outcome. destruct (lt _ _); [eauto|].
  destruct (hd _ _); eauto.
Qed.

Lemma maybe_refresh_frame s r s' :
  maybe_refresh s = (r, s') ->
  _cache s' = _cache s /\ _cache_complete s' = _cache_complete s /\
  _use_cache s' = _use_cache s.
Proof.
  rewrite maybe_refresh_outcome. destruct (lt _ _); by intros [= <- <-].
Qed.

Lemma KeyError_only e : isinstance e KeyError = true -> exn_class e = KeyError.
Proof. destruct e as [[] msg]; vm_compute; congruence. Qed.

Lemma guarded_but_KeyError_outcome {A} (body : M state A) s :
  guarded_but_KeyError body s =
    match body s with
    | (Return a, s') => (Returned a, s')
    | (Raise e, s') =>
        if isinstance e KeyError then (Raised e, s') else (RaisedError e, s')
    end.
Proof.
  unfold guarded_but_KeyError. destruct (body s) as [[a|e] s']; [done|].
  by rewrite isinstance_Exception.
Qed.

(** X15. The methods of the store raise nothing but [DeviceKV.Error]:
    whatever the request raises is wrapped.  The one exception is the
    [KeyError] of [__getitem__], which [get] turns into the default. *)
Theorem store_raises_its_own_error e :
  (forall key value s s', __setitem__ key value s <> (Raised e, s')) /\
  (forall key s s', __delitem__ key s <> (Raised e, s')) /\
  (forall dct s s', update dct s <> (Raised e, s')) /\
  (forall s s', items s <> (Raised e, s')) /\
  (forall s s', clear s <> (Raised e, s')) /\
  (forall s s', maybe_refresh s <> (Raised e, s')) /\
  (forall key default s s', DeviceKV.get key default s <> (Raised e, s')) /\
  (forall key s s', __getitem__ key s = (Raised e, s') ->
     exn_class e = KeyError).
Proof.
  assert (Hg : forall A (body : M state A) s s',
            guarded body s <> (Raised e, s')).
  { intros A body s s'. rewrite guarded_outcome.
    by destruct (body s) as [[a|e'] s1]. }
  assert (Hm : forall s s', maybe_refresh s <> (Raised e, s')).
  { intros s s'.
    destruct (maybe_refresh_returns_or_errors s)
      as [(s1 & ->)|(err & s1 & ->)]; done. }
  assert (Hget : forall key s s', __getitem__ key s = (Raised e, s') ->
            exn_class e = KeyError).
  { intros key s s'. unfold __getitem__.
    destruct (if _use_cache s then _cache s !! key else None).
    - unfold and_then, plain.
      destruct (maybe_refresh_returns_or_errors s)
        as [(s1 & ->)|(err & s1 & ->)]; [|done].
      run. destruct (_cache s1 !! key); [done|]. by intros [= <- <-].
    - rewrite guarded_but_KeyError_outcome.
      match goal with |- context [match ?b s with _ => _ end] =>
        destruct (b s) as [[a|e'] s1] end; [done|].
      destruct (isinstance e' KeyError) eqn:He; [|done].
      intros [= <- <-]. by apply KeyError_only. }
  repeat split.
  - intros key value s s'. unfold __setitem__.
    destruct (_ && _); [apply Hm | apply Hg].
  - intros key s s'. unfold __delitem__.
    destruct (_ && _); [apply Hm | apply Hg].
  - intros dct s s'. unfold update. cbv zeta.
    destruct (_ && _); [|apply Hg].
    unfold and_then, returning.
    destruct (maybe_refresh_returns_or_errors s)
      as [(s1 & ->)|(err & s1 & ->)]; done.
  - intros s s'. unfold items.
    destruct (_ && _); [|apply Hg].
    unfold and_then.
    destruct (maybe_refresh_returns_or_errors s)
      as [(s1 & ->)|(err & s1 & ->)]; done.
  - intros s s'. apply Hg.
  - exact Hm.
  - intros key default s s'. unfold DeviceKV.get.
    destruct (__getitem__ key s) as [[v|err|e'] s1] eqn:Hk; [done..|].
    destruct (isinstance e' KeyError) eqn:He; [done|].
    intros [= -> ->]. apply Hget in Hk.
    destruct e as [c msg]. cbn in Hk. subst c. by vm_compute in He.
  - exact Hget.
Qed.

Lemma cached_as_spec key value s :
  cached_as key value s = true <-> _cache s !! key = Some (PyStr value).
Proof.
  unfold cached_as. destruct (_cache s !! key) as [v|]; [|done].
  destruct v; cbn; try done.
  rewrite String.eqb_eq. split; congruence.
Qed.

(** A cached entry, read or written again. *)
Lemma hit_outcome key value s :
  _use_cache s = true ->
  _cache s !! key = Some (PyStr value) ->
  __setitem__ key value s = maybe_refresh s /\
  __getitem__ key s =
    match maybe_refresh s with
    | (Returned _, s') => (Returned (PyStr value), s')
    | (RaisedError err, s') => (RaisedError err, s')
    | (Raised e, s') => (Raised e, s')
    end.
Proof.
  intros Hu Hc. split.
  - unfold __setitem__. apply cached_as_spec in Hc. by rewrite Hu, Hc.
  - unfold __getitem__. rewrite Hu, Hc. unfold and_then, plain.
    destruct (maybe_refresh s) as [[[]|err|e] s'] eqn:Hm; [|done..].
    apply maybe_refresh_frame in Hm as (Hc' & _). run.
    by rewrite Hc', Hc.
Qed.

(** X16. Reading, or writing again, a value that is cached makes no
    request while the refresh is not due.  Once it is due, the call
    first posts an empty update and puts the next refresh an hour
    ahead, and it raises the error of that post when the post fails,
    although the value is cached. *)
Theorem cached_value_costs_no_request key value s :
  _use_cache s = true ->
  _cache s !! key = Some (PyStr value) ->
  ((next_reading s < _next_refresh s)%Q ->
   __setitem__ key value s = (Returned tt, after_reading s) /\
   __getitem__ key s = (Returned (PyStr value), after_reading s) /\
   requests (env (after_reading s)) = requests (env s)) /\
  (~ (next_reading s < _next_refresh s)%Q ->
   exists s',
     requests (env s') = (requests (env s) ++ [Post ∅])%list /\
     _next_refresh s' = (next_reading (after_reading s) + 3600)%Q /\
     _cache s' = _cache s /\
     match hd (Raise (Exn APIError "connection error")) (answers (env s)) with
     | Return _ =>
         __setitem__ key value s = (Returned tt, s') /\
         __getitem__ key s = (Returned (PyStr value), s')
     | Raise err =>
         __setitem__ key value s = (RaisedError err, s') /\
         __getitem__ key s = (RaisedError err, s')
     end).
Proof.
  intros Hu Hc. destruct (hit_outcome _ _ _ Hu Hc) as [-> ->].
  rewrite maybe_refresh_outcome. split.
  - intros Hlt. apply lt_spec in Hlt. by rewrite Hlt.
  - intros Hlt. apply lt_false in Hlt. rewrite Hlt. cbv zeta.
    eexists. split; [|split; [|split]];
      [| | |destruct (hd _ (answers (env s))); split; reflexivity]; done.
Qed.

(** What a successful [__setitem__] leaves in the cache. *)
Lemma setitem_caches key value s s1 :
  _use_cache s = true ->
  __setitem__ key value s = (Returned tt, s1) ->
  _use_cache s1 = true /\ _cache s1 !! key = Some (PyStr value).
Proof.
  intros Hu. unfold __setitem__. rewrite Hu. cbn [andb].
  destruct (cached_as key value s) eqn:Hc.
  - intros Hm. apply maybe_refresh_frame in Hm as (Hc' & _ & Hu').
    apply cached_as_spec in Hc. by rewrite Hu', Hc'.
  - rewrite guarded_outcome.
    rewrite (bind_run _ _ _ _ _ (api_outcome _ _)).
    destruct (hd _ (answers (env s))) as [v|e]; [|done].
    run. unfold postpone_refresh. run. cbn. rewrite Hu. cbn.
    intros [= <-]. cbn. by rewrite lookup_insert_eq.
Qed.

(** X17. With the cache in use, a value that [__setitem__] has stored
    is read back by [__getitem__] from the cache, without a request,
    as long as the refresh is not due. *)
Theorem read_your_write key value s s1 :
  _use_cache s = true ->
  __setitem__ key value s = (Returned tt, s1) ->
  (next_reading s1 < _next_refresh s1)%Q ->
  __getitem__ key s1 = (Returned (PyStr value), after_reading s1) /\
  requests (env (after_reading s1)) = requests (env s1).
Proof.
  intros Hu Hset Hlt.
  destruct (setitem_caches _ _ _ _ Hu Hset) as [Hu1 Hc1].
  destruct (hit_outcome _ _ _ Hu1 Hc1) as [_ ->].
  rewrite maybe_refresh_outcome. apply lt_spec in Hlt. by rewrite Hlt.
Qed.

(** X18. [get] gives the default when the key is not cached and the
    answer of the server does not list it, and also when the answer
    has no ['v'] at all: both raise a [KeyError] inside.  The cache
    stays as it was. *)
Theorem get_gives_default key default s d :
  _use_cache s = false \/ _cache s !! key = None ->
  hd (Raise (Exn APIError "connection error")) (answers (env s))
    = Return (PyDict d) ->
  dict_lookup d "v" = None \/
  (exists vs, dict_lookup d "v" = Some (PyDict vs) /\ dict_lookup vs key = None) ->
  DeviceKV.get key default s = (Returned default, requested (Get (Some key)) s) /\
  _cache (requested (Get (Some key)) s) = _cache s.
Proof.
  intros Hmiss Ha Hv. split; [|done].
  unfold DeviceKV.get, __getitem__.
  assert (Hm : (if _use_cache s then _cache s !! key else None) = None).
  { destruct Hmiss as [-> | ->]; [done | by destruct (_use_cache s)]. }
  rewrite Hm, guarded_but_KeyError_outcome.
  rewrite (bind_run _ _ _ _ _ (api_outcome _ _)), Ha.
  unfold lift at 1. unfold bind at 1. cbn [getitem].
  destruct Hv as [Hv|(vs & Hv & Hk)]; rewrite Hv.
  - classes. reflexivity.
  - unfold contains, lift at 1, bind at 1. rewrite Hk.
    rewrite bool_decide_eq_false_2 by (by intros [? ?]).
    cbn. classes. reflexivity.
Qed.

(** The calls on the clock and on the API leave the attributes alone. *)
Lemma postpone_refresh_outcome s :
  postpone_refresh s =
    (Return tt, set_next_refresh (next_reading s + 3600) (after_reading s)).
Proof. reflexivity. Qed.

(** X19. A call that raises leaves the cache as it was: a request
    that fails, or an answer that cannot be used, never changes what
    is cached. *)
Theorem failed_call_keeps_cache s s' :
  (forall key value err,
     __setitem__ key value s = (RaisedError err, s') -> _cache s' = _cache s) /\
  (forall key err,
     __delitem__ key s = (RaisedError err, s') -> _cache s' = _cache s) /\
  (forall dct err,
     update dct s = (RaisedError err, s') -> _cache s' = _cache s) /\
  (forall err, items s = (RaisedError err, s') -> _cache s' = _cache s) /\
  (forall err, clear s = (RaisedError err, s') -> _cache s' = _cache s) /\
  (forall key err,
     __getitem__ key s = (RaisedError err, s') -> _cache s' = _cache s) /\
  (forall key e,
     __getitem__ key s = (Raised e, s') -> _cache s' = _cache s).
Proof.
  assert (Hm : forall (r : outcome unit), maybe_refresh s = (r, s') ->
            _cache s' = _cache s).
  { intros r H. by apply maybe_refresh_frame in H as (? & _). }
  assert (Hthen : forall A (k : unit -> K A) (r : outcome A),
            (forall s1 r1 s2, k tt s1 = (r1, s2) -> _cache s2 = _cache s1) ->
            and_then maybe_refresh k s = (r, s') -> _cache s' = _cache s).
  { intros A k r Hk. unfold and_then.
    destruct (maybe_refresh s) as [[[]|err|e] s1] eqn:Hs1;
      apply maybe_refresh_frame in Hs1 as (Hc & _).
    - intros H. apply Hk in H. congruence.
    - by intros [= <- <-].
    - by intros [= <- <-]. }
  repeat split.
  - intros key value err. unfold __setitem__.
    destruct (_ && _); [apply Hm|].
    rewrite guarded_outcome, (bind_run _ _ _ _ _ (api_outcome _ _)).
    destruct (hd _ (answers (env s))) as [v|e]; [|by intros [= <- <-]].
    run. cbn. by destruct (_use_cache s).
  - intros key err. unfold __delitem__.
    destruct (_ && _ && _); [apply Hm|].
    rewrite guarded_outcome, (bind_run _ _ _ _ _ (api_outcome _ _)).
    destruct (hd _ (answers (env s))) as [v|e]; [|by intros [= <- <-]].
    run. cbn. by destruct (_ && _).
  - intros dct err. unfold update. cbv zeta.
    destruct (_ && _).
    + apply Hthen. by intros s1 r1 s2 [= <- <-].
    + rewrite guarded_outcome, (bind_run _ _ _ _ _ (api_outcome _ _)).
      destruct (hd _ (answers (env s))) as [v|e]; [|by intros [= <- <-]].
      run. cbn. by destruct (_use_cache s).
  - intros err. unfold items.
    destruct (_ && _).
    + apply Hthen. by intros s1 r1 s2 [= <- <-].
    + rewrite guarded_outcome, (bind_run _ _ _ _ _ (api_outcome _ _)).
      destruct (hd _ (answers (env s))) as [v|e]; [|by intros [= <- <-]].
      unfold lift at 1, bind at 1.
      destruct (getitem v "v") as [result|e]; [|by intros [= <- <-]].
      run. cbn.
      destruct (_use_cache s); destruct (dict_items result) as [entries|e];
        (done || by intros [= <- <-]).
  - intros err. unfold clear.
    rewrite guarded_outcome, (bind_run _ _ _ _ _ (api_outcome _ _)).
    destruct (hd _ (answers (env s))) as [v|e]; [|by intros [= <- <-]].
    run. cbn. by destruct (_use_cache s).
  - intros key err. unfold __getitem__.
    destruct (if _use_cache s then _cache s !! key else None).
    + apply Hthen. intros s1 r1 s2. unfold plain. run.
      destruct (_cache s1 !! key); by intros [= <- <-].
    + rewrite guarded_but_KeyError_outcome,
        (bind_run _ _ _ _ _ (api_outcome _ _)).
      destruct (hd _ (answers (env s))) as [v|e];
        [|destruct (isinstance e KeyError); by intros [= <- <-]].
      unfold lift at 1, bind at 1.
      destruct (getitem v "v") as [result|e];
        [|destruct (isinstance e KeyError); by intros [= <- <-]].
      unfold lift at 1, bind at 1.
      destruct (contains result key) as [[]|e]; cbn;
        [| classes; by intros [= <- <-]
         | destruct (isinstance e KeyError); by intros [= <- <-]].
      destruct (getitem result key) as [value|e];
        [|destruct (isinstance e KeyError); by intros [= <- <-]].
      run. cbn. by destruct (_use_cache s).
  - intros key e. unfold __getitem__.
    destruct (if _use_cache s then _cache s !! key else None).
    + apply Hthen. intros s1 r1 s2. unfold plain. run.
      destruct (_cache s1 !! key); by intros [= <- <-].
    + rewrite guarded_but_KeyError_outcome,
        (bind_run _ _ _ _ _ (api_outcome _ _)).
      destruct (hd _ (answers (env s))) as [v|e'];
        [|destruct (isinstance e' KeyError); by intros [= <- <-]].
      unfold lift at 1, bind at 1.
      destruct (getitem v "v") as [result|e'];
        [|destruct (isinstance e' KeyError); by intros [= <- <-]].
      unfold lift at 1, bind at 1.
      destruct (contains result key) as [[]|e']; cbn;
        [| classes; by intros [= <- <-]
         | destruct (isinstance e' KeyError); by intros [= <- <-]].
      destruct (getitem result key) as [value|e'];
        [|destruct (isinstance e' KeyError); by intros [= <- <-]].
      run. cbn. by destruct (_use_cache s).
Qed.

Lemma changed_spec dct s k v :
  changed dct s !! k = Some v <->
  dct !! k = Some v /\ _cache s !! k <> Some (PyStr v).
Proof.
  unfold changed. rewrite map_lookup_filter_Some. cbn.
  by rewrite <- not_true_iff_false, cached_as_spec.
Qed.

(** X20. With the cache in use, [update] posts the entries that are
    not cached with the same value, and only them, in one request;
    when all are cached it posts nothing but the refresh that is due.
    The dict of the caller loses the entries that were cached.  After
    a call that returns, every entry given is in the cache. *)
Theorem update_posts_the_changes dct s :
  _use_cache s = true ->
  (forall k v, changed dct s !! k = Some v <->
     dct !! k = Some v /\ _cache s !! k <> Some (PyStr v)) /\
  (changed dct s <> ∅ ->
   requests (env (snd (update dct s))) =
     (requests (env s) ++ [Post (changed dct s)])%list) /\
  (changed dct s = ∅ -> (next_reading s < _next_refresh s)%Q ->
   update dct s = (Returned ∅, after_reading s)) /\
  (forall d s', update dct s = (Returned d, s') ->
     d = changed dct s /\
     forall k v, dct !! k = Some v -> _cache s' !! k = Some (PyStr v)).
Proof.
  intros Hu. split; [intros k v; apply changed_spec|].
  unfold update. rewrite Hu. cbv zeta. cbn [andb].
  split; [|split].
  - intros Hne. rewrite bool_decide_eq_false_2 by done.
    rewrite guarded_outcome, (bind_run _ _ _ _ _ (api_outcome _ _)).
    destruct (hd _ (answers (env s))) as [v|e]; [|done].
    run. cbn. by rewrite Hu.
  - intros -> Hlt. rewrite bool_decide_eq_true_2 by done.
    unfold and_then, returning. rewrite maybe_refresh_outcome.
    apply lt_spec in Hlt. by rewrite Hlt.
  - intros d s'. destruct (bool_decide (changed dct s = ∅)) eqn:He.
    + apply bool_decide_eq_true in He. unfold and_then, returning.
      destruct (maybe_refresh s) as [[[]|err|e] s1] eqn:Hm; [|done..].
      intros [= <- <-]. split; [done|]. intros k v Hk.
      apply maybe_refresh_frame in Hm as (-> & _).
      destruct (cached_as k v s) eqn:Hca; [by apply cached_as_spec|].
      assert (Hin : changed dct s !! k = Some v).
      { apply changed_spec. split; [done|].
        rewrite <- cached_as_spec. congruence. }
      by rewrite He in Hin.
    + rewrite guarded_outcome, (bind_run _ _ _ _ _ (api_outcome _ _)).
      destruct (hd _ (answers (env s))) as [v|e]; [|done].
      run. cbn. rewrite Hu. cbn. intros [= <- <-]. split; [done|].
      intros k v' Hk. cbn.
      destruct (cached_as k v' s) eqn:Hca;
        [apply cached_as_spec in Hca as Hc
        |assert (Hn : _cache s !! k <> Some (PyStr v'))
           by (rewrite <- cached_as_spec; congruence)].
      * rewrite lookup_union, lookup_fmap.
        destruct (changed dct s !! k) as [w|] eqn:Hw.
        -- apply changed_spec in Hw as [Hw _]. cbn. rewrite Hc. cbn.
           congruence.
        -- cbn. by rewrite Hc.
      * apply lookup_union_Some_l. rewrite lookup_fmap.
        by rewrite (proj2 (changed_spec dct s k v') (conj Hk Hn)).
Qed.

(** The entries of an answer, put into the cache one by one. *)
Lemma dict_lookup_None (entries : list (string * pyval)) k :
  k ∉ entries.*1 -> dict_lookup entries k = None.
Proof.
  induction entries as [|[k0 v0] rest IH]; [done|].
  cbn. intros Hk. apply not_elem_of_cons in Hk as [Hne Hk].
  destruct (String.eqb k0 k) eqn:He; [|by apply IH].
  apply String.eqb_eq in He. congruence.
Qed.

Lemma dict_lookup_is_Some (entries : list (string * pyval)) k :
  k ∈ entries.*1 -> is_Some (dict_lookup entries k).
Proof.
  induction entries as [|[k0 v0] rest IH]; [by intros H; inversion H|].
  cbn. intros Hk. destruct (String.eqb k0 k) eqn:He; [by eexists|].
  apply String.eqb_neq in He.
  apply elem_of_cons in Hk as [?|Hk]; [congruence | by apply IH].
Qed.

Lemma cache_entries (entries : list (string * pyval)) (c : gmap string pyval) k :
  NoDup entries.*1 ->
  foldl (fun c kv => <[fst kv := snd kv]> c) c entries !! k =
    match dict_lookup entries k with
    | Some v => Some v
    | None => c !! k
    end.
Proof.
  revert c. induction entries as [|[k0 v0] rest IH]; intros c Hnd; [done|].
  cbn in Hnd. apply NoDup_cons in Hnd as [Hk0 Hnd].
  cbn. rewrite IH by done.
  destruct (String.eqb k0 k) eqn:He.
  - apply String.eqb_eq in He. subst k0.
    by rewrite (dict_lookup_None _ _ Hk0), lookup_insert_eq.
  - apply String.eqb_neq in He.
    destruct (dict_lookup rest k); [done|]. by rewrite lookup_insert_ne.
Qed.

(** X28. With the cache in use and not yet complete, [items] asks the
    server, returns the entries of the answer and puts them into the
    cache, over what was cached; the cache then counts as complete.
    From then on, while no refresh is due, [items] makes no request
    and returns the entries of the cache: also an entry cached before
    that the answer did not list, which the first call did not
    return. *)
Theorem items_are_served_from_the_cache s d entries :
  _use_cache s = true ->
  _cache_complete s = false ->
  hd (Raise (Exn APIError "connection error")) (answers (env s))
    = Return (PyDict d) ->
  dict_lookup d "v" = Some (PyDict entries) ->
  NoDup entries.*1 ->
  exists s1,
    items s = (Returned entries, s1) /\
    requests (env s1) = (requests (env s) ++ [Get None])%list /\
    _cache_complete s1 = true /\
    (forall k, _cache s1 !! k =
       match dict_lookup entries k with
       | Some v => Some v
       | None => _cache s !! k
       end) /\
    ((next_reading s1 < _next_refresh s1)%Q ->
     items s1 = (Returned (map_to_list (_cache s1)), after_reading s1) /\
     requests (env (after_reading s1)) = requests (env s1) /\
     forall k v, _cache s !! k = Some v -> dict_lookup entries k = None ->
       (k, v) ∈ map_to_list (_cache s1) /\ (k, v) ∉ entries).
Proof.
  intros Hu Hcc Ha Hv Hnd.
  unfold items at 1. rewrite Hu, Hcc. cbn [andb].
  rewrite guarded_outcome, (bind_run _ _ _ _ _ (api_outcome _ _)), Ha.
  unfold lift at 1, bind at 1. cbn [getitem]. rewrite Hv.
  run. cbn. rewrite Hu. cbn.
  match goal with |- exists s1, (_, ?t) = _ /\ _ => set (s1 := t) end.
  assert (Hu1 : _use_cache s1 = true) by done.
  assert (Hc1 : _cache_complete s1 = true) by done.
  assert (Hcache : forall k, _cache s1 !! k =
            match dict_lookup entries k with
            | Some v => Some v
            | None => _cache s !! k
            end) by (intros k; by apply cache_entries).
  assert (Hreq : requests (env s1) = (requests (env s) ++ [Get None])%list)
    by done.
  clearbody s1. exists s1. split; [done|].
  split; [done|]. split; [done|]. split; [done|].
  intros Hlt. unfold items. rewrite Hu1, Hc1. cbn [andb].
  unfold and_then. rewrite maybe_refresh_outcome.
  apply lt_spec in Hlt. rewrite Hlt.
  split; [done|]. split; [done|].
  intros k v Hk Hnone. split.
  - apply elem_of_map_to_list. by rewrite Hcache, Hnone.
  - intros Hin. destruct (dict_lookup_is_Some entries k) as [w Hw]; [|congruence].
    apply list_elem_of_fmap. by exists (k, v).
Qed.

(** X29. With the cache in use, after a [del] that returns the key is
    not cached and the other keys are cached as before, so that the
    next read of the key asks the server: a key that was deleted is
    never served from the cache. *)
Theorem deleted_key_is_asked_again key s s1 :
  _use_cache s = true ->
  __delitem__ key s = (Returned tt, s1) ->
  _cache s1 !! key = None /\
  (forall k, k <> key -> _cache s1 !! k = _cache s !! k) /\
  requests (env (snd (__getitem__ key s1))) =
    (requests (env s1) ++ [Get (Some key)])%list.
Proof.
  intros Hu. unfold __delitem__. rewrite Hu. cbn [andb]. intros Hdel.
  assert (Hc : _use_cache s1 = true /\ _cache s1 !! key = None /\
               forall k, k <> key -> _cache s1 !! k = _cache s !! k).
  { destruct (_cache_complete s &&
              negb (bool_decide (is_Some (_cache s !! key))))%bool eqn:Hb.
    - apply andb_true_iff in Hb as [_ Hb].
      apply negb_true_iff, bool_decide_eq_false in Hb.
      apply maybe_refresh_frame in Hdel as (Hc & _ & Hu').
      rewrite Hc, Hu'. split; [done|]. split; [|done].
      by apply eq_None_not_Some.
    - revert Hdel.
      rewrite guarded_outcome, (bind_run _ _ _ _ _ (api_outcome _ _)).
      destruct (hd _ (answers (env s))) as [v|e]; [|done].
      run. cbn. rewrite Hu. cbn.
      destruct (bool_decide (is_Some (_cache s !! key))) eqn:Hk.
      + intros [= <-]. cbn. split; [done|].
        split; [apply lookup_delete_eq | intros; by apply lookup_delete_ne].
      + intros [= <-]. apply bool_decide_eq_false in Hk.
        split; [done|]. split; [by apply eq_None_not_Some | done]. }
  destruct Hc as (Hu1 & Hk1 & Hother). split; [done|]. split; [done|].
  unfold __getitem__. rewrite Hu1, Hk1.
  rewrite guarded_but_KeyError_outcome, (bind_run _ _ _ _ _ (api_outcome _ _)).
  destruct (hd _ (answers (env s1))) as [v|e];
    [|by destruct (isinstance e KeyError)].
  unfold lift at 1, bind at 1.
  destruct (getitem v "v") as [result|e];
    [|by destruct (isinstance e KeyError)].
  unfold lift at 1, bind at 1.
  destruct (contains result key) as [[]|e]; cbn;
    [| by classes | by destruct (isinstance e KeyError)].
  destruct (getitem result key) as [value|e];
    [|by destruct (isinstance e KeyError)].
  run. cbn. by rewrite Hu1.
Qed.

End KeyValueStore.

(** ** The index of the APIs *)

Section ApiIndex.

Import Builtin ProofOfPlay OnDeviceAPIs.

(** X21. [get_api_index] gives the index it holds, without a request,
    as long as the time read is not after [_valid_until].  After that
    it fetches the index: what it returns then is the ["apis"] of the
    answer to this very call, valid until 300 seconds before the time
    the answer names; when the fetch fails in any way the call raises
    and [_valid_until] stays, so that the next call fetches again. *)
Theorem api_index_is_fetched_when_stale s :
  ((next_reading s <= _valid_until s)%Q ->
   get_api_index s = (Return (_index s), after_reading s) /\
   fetched (env (after_reading s)) = fetched (env s)) /\
  ((_valid_until s < next_reading s)%Q ->
   forall r s', get_api_index s = (r, s') ->
     (fetched (env s') <= S (fetched (env s)))%nat /\
     match r with
     | Return index =>
         fetched (env s') = S (fetched (env s)) /\
         _index s' = index /\
         exists answer resp valid_until,
           hd (Raise (Exn RequestException "connection error"))
              (answers (env s)) = Return answer /\
           ProofOfPlay.json answer = Return resp /\
           getitem resp "apis" = Return index /\
           getitem resp "valid_until" = Return valid_until /\
           exists v, number valid_until = Return v /\
                     _valid_until s' = (v - 300)%Q
     | Raise e => _valid_until s' = _valid_until s
     end).
Proof.
  split.
  - intros Hle. unfold get_api_index, now. run. cbn.
    fold (next_reading s).
    assert (Hgt : gt (next_reading s) (_valid_until s) = false).
    { unfold gt. apply lt_false. by apply Qle_not_lt. }
    by rewrite Hgt.
  - intros Hlt r s'. unfold get_api_index, now. run. cbn.
    fold (next_reading s).
    assert (Hgt : gt (next_reading s) (_valid_until s) = true).
    { unfold gt. by apply lt_spec. }
    rewrite Hgt. unfold update_apis, session_get. run. cbn.
    destruct (dict_lookup (metadata s) "api") as [url|]; cbn;
      [|intros [= <- <-]; cbn; split; [lia | done]].
    destruct (hd _ (answers (env s))) as [answer|e] eqn:Ha; cbn;
      [|intros [= <- <-]; cbn; split; [lia | done]].
    destruct (raise_for_status answer) as [e|]; cbn;
      [intros [= <- <-]; cbn; split; [lia | done]|].
    destruct (ProofOfPlay.json answer) as [resp|e] eqn:Hj; cbn;
      [|intros [= <- <-]; cbn; split; [lia | done]].
    destruct (getitem resp "ok") as [ok|e]; cbn;
      [|intros [= <- <-]; cbn; split; [lia | done]].
    destruct (truthy ok); cbn; [|intros [= <- <-]; cbn; split; [lia | done]].
    destruct (getitem resp "apis") as [apis|e] eqn:Hapis; cbn;
      [|intros [= <- <-]; cbn; split; [lia | done]].
    destruct (getitem resp "valid_until") as [v|e] eqn:Hv; cbn;
      [|intros [= <- <-]; cbn; split; [lia | done]].
    destruct (number v) as [n|e] eqn:Hn; cbn;
      [|intros [= <- <-]; cbn; split; [lia | done]].
    intros [= <- <-]. cbn. split; [lia|]. split; [done|]. split; [done|].
    exists answer, resp, v. eauto 10.
Qed.

End ApiIndex.

(** ** The key for the hosted API *)

Section HostedKey.

Import Builtin ProofOfPlay HostedAPI.

(** What a refresh does to the requests for a key: none, or one, made
    after two readings of the clock of which the first is not before
    [_next_refresh], which is then put 15 seconds after the second. *)
Lemma refresh_api_key_step now_ s r s' :
  refresh_api_key now_ s = (r, s') ->
  time_time (env s') = time_time (env s) /\
  sent (env s') = sent (env s) /\
  answers (env s') = answers (env s) /\
  (key_requests (env s') = key_requests (env s) /\
   _next_refresh s' = _next_refresh s /\
   r = Return PyNone \/
   key_requests (env s') =
     (key_requests (env s) ++ [time_time (env s) (S (reads (env s)))])%list /\
   _next_refresh s' = (time_time (env s) (S (reads (env s))) + 15)%Q /\
   ~ (time_time (env s) (reads (env s)) < _next_refresh s)%Q).
Proof.
  unfold refresh_api_key, now, get_api_key, on_env. run. cbn.
  destruct (lt _ _) eqn:Hlt; [intros [= <- <-]; cbn; eauto 10|].
  apply lt_false in Hlt. unfold last_reading. cbn.
  destruct (hd _ (key_answers (env s))) as [r0|e]; cbn;
    [|intros [= <- <-]; cbn; eauto 10].
  repeat (match goal with
          | |- context [match getitem ?a ?b with _ => _ end] =>
              destruct (getitem a b); cbn
          | |- context [match number ?a with _ => _ end] =>
              destruct (number a); cbn
          end);
    intros [= <- <-]; cbn; eauto 10.
Qed.

#[local] Arguments refresh_api_key : simpl never.

(** The start of [use_api_key], up to the test of [self._api_key]. *)
Lemma use_api_key_outcome s :
  use_api_key s =
    match minus_one (_uses s) with
    | Raise e => (Raise e, set_env (set_reads (S (reads (env s))) (env s)) s)
    | Return uses =>
        let now_ := time_time (env s) (reads (env s)) in
        let s1 := set_uses (PyInt uses)
                    (set_env (set_reads (S (reads (env s))) (env s)) s) in
        let s2 := if ((uses <=? 0)%Z || gt now_ (_expire s))%bool
                  then set_api_key PyNone s1 else s1 in
        if is_None (_api_key s2) then refresh_api_key now_ s2
        else (Return (_api_key s2), s2)
    end.
Proof.
  unfold use_api_key, now, on_env. run. cbn.
  destruct (minus_one (_uses s)) as [uses|e]; [|done]. cbn.
  destruct (uses <=? 0)%Z; [done|]. cbn.
  destruct (gt _ _); cbn; [done|]. by destruct (is_None _).
Qed.

(** What one call of [use_api_key] does to the requests for a key:
    none, or one, made after three readings of the clock of which the
    second is not before [_next_refresh], which is then put 15 seconds
    after the third. *)
Lemma use_api_key_step s r s' :
  use_api_key s = (r, s') ->
  time_time (env s') = time_time (env s) /\
  sent (env s') = sent (env s) /\
  answers (env s') = answers (env s) /\
  (key_requests (env s') = key_requests (env s) /\
   _next_refresh s' = _next_refresh s \/
   key_requests (env s') =
     (key_requests (env s) ++ [time_time (env s) (S (S (reads (env s))))])%list /\
   _next_refresh s' = (time_time (env s) (S (S (reads (env s)))) + 15)%Q /\
   ~ (time_time (env s) (S (reads (env s))) < _next_refresh s)%Q).
Proof.
  rewrite use_api_key_outcome.
  destruct (minus_one (_uses s)) as [uses|e];
    [|intros [= <- <-]; cbn; eauto 10].
  cbv zeta.
  match goal with |- context [refresh_api_key ?n ?st] =>
    set (s2 := st); set (now_ := n) end.
  assert (Hs2 : time_time (env s2) = time_time (env s) /\
                sent (env s2) = sent (env s) /\
                answers (env s2) = answers (env s) /\
                key_requests (env s2) = key_requests (env s) /\
                _next_refresh s2 = _next_refresh s /\
                reads (env s2) = S (reads (env s))).
  { subst s2. by destruct (_ || _). }
  destruct Hs2 as (Ht & Hs & Ha & Hk & Hn & Hr).
  destruct (is_None (_api_key s2)).
  - intros H. apply refresh_api_key_step in H.
    rewrite Ht, Hs, Ha, Hk, Hn, Hr in H.
    destruct H as (? & ? & ? & [(? & ? & _)|(? & ? & ?)]); eauto 10.
  - intros [= <- <-]. eauto 10.
Qed.

Lemma after_calls_succ n s :
  after_calls (S n) s = snd (use_api_key (after_calls n s)).
Proof. revert s. induction n as [|n IH]; intros s; [done|]. cbn. apply IH. Qed.

Lemma spaced_snoc times t :
  spaced times -> Forall (fun t' => (t' + 15 <= t)%Q) times ->
  spaced (times ++ [t]).
Proof.
  induction times as [|a rest IH]; cbn; [by repeat constructor|].
  intros [Hall Hrest] Hle. inversion Hle as [|? ? Ha Hle']; subst.
  split; [|by apply IH].
  apply Forall_app. split; [done|]. by constructor.
Qed.

(** X22. The requests for a key are at least 15 seconds apart, by the
    clock the object reads, whatever the calls return or raise and
    however often [use_api_key] is called: a request is made only when
    the time read is not before [_next_refresh], and every request
    puts [_next_refresh] 15 seconds after the time read before it. *)
Theorem key_requests_are_spaced n s :
  monotone (time_time (env s)) ->
  spaced (key_requests (env s)) ->
  Forall (fun t => (t + 15 <= _next_refresh s)%Q) (key_requests (env s)) ->
  spaced (key_requests (env (after_calls n s))) /\
  Forall (fun t => (t + 15 <= _next_refresh (after_calls n s))%Q)
         (key_requests (env (after_calls n s))).
Proof.
  revert s. induction n as [|n IH]; intros s Hmono Hsp Hall; [done|].
  cbn [after_calls].
  destruct (use_api_key s) as [r s'] eqn:Hcall. cbn [snd].
  destruct (use_api_key_step _ _ _ Hcall)
    as (Ht & _ & _ & [(Hk & Hn)|(Hk & Hn & Hnot)]).
  - apply IH; rewrite ?Ht, ?Hk, ?Hn; done.
  - set (t2 := time_time (env s) (S (reads (env s)))) in *.
    set (t3 := time_time (env s) (S (S (reads (env s))))) in *.
    assert (H23 : (t2 <= t3)%Q) by (apply Hmono; lia).
    assert (Hnr : (_next_refresh s <= t2)%Q) by by apply Qnot_lt_le.
    assert (Hold : Forall (fun t' => (t' + 15 <= t3)%Q) (key_requests (env s))).
    { eapply Forall_impl; [exact Hall|]. cbn. intros t Hle. lra. }
    apply IH; rewrite ?Ht, ?Hk, ?Hn; [done| |].
    + by apply spaced_snoc.
    + apply Forall_app. split.
      * eapply Forall_impl; [exact Hold|]. cbn. intros t Hle. lra.
      * constructor; [lra | constructor].
Qed.

(** A call while the key has uses left and has not expired. *)
Lemma use_api_key_hit k u s :
  _api_key s = PyStr k ->
  _uses s = PyInt u ->
  (2 <= u)%Z ->
  (time_time (env s) (reads (env s)) <= _expire s)%Q ->
  use_api_key s =
    (Return (PyStr k),
     set_uses (PyInt (u - 1))
       (set_env (set_reads (S (reads (env s))) (env s)) s)).
Proof.
  intros Hk Hu Hle Hexp. rewrite use_api_key_outcome, Hu. cbn.
  assert (Hpos : (u - 1 <=? 0)%Z = false) by (apply Z.leb_gt; lia).
  assert (Hgt : gt (time_time (env s) (reads (env s))) (_expire s) = false).
  { unfold gt. apply lt_false. by apply Qle_not_lt. }
  rewrite Hpos, Hgt. cbn. by rewrite Hk.
Qed.

(** X23. A key that has [u] uses left and does not expire meanwhile
    is handed out by the next [u - 1] calls of [use_api_key], which
    make no request; the call after them does not hand it out: unless it makes
    a request for a new key, it returns [None]. *)
Theorem key_is_handed_out_while_uses_last k u s :
  _api_key s = PyStr k ->
  _uses s = PyInt (Z.of_nat u) ->
  (forall i, (i < u)%nat ->
     (time_time (env s) (reads (env s) + i) <= _expire s)%Q) ->
  (forall m, (S m < u)%nat ->
     fst (use_api_key (after_calls m s)) = Return (PyStr k) /\
     key_requests (env (after_calls (S m) s)) = key_requests (env s)) /\
  ((1 <= u)%nat ->
   key_requests (env (after_calls u s)) = key_requests (env s) ->
   fst (use_api_key (after_calls (u - 1) s)) = Return PyNone).
Proof.
  intros Hk Hu Hexp.
  assert (Hinv : forall m, (m < u)%nat ->
    _api_key (after_calls m s) = PyStr k /\
    _uses (after_calls m s) = PyInt (Z.of_nat u - Z.of_nat m) /\
    _expire (after_calls m s) = _expire s /\
    time_time (env (after_calls m s)) = time_time (env s) /\
    reads (env (after_calls m s)) = (reads (env s) + m)%nat /\
    key_requests (env (after_calls m s)) = key_requests (env s)).
  { induction m as [|m IH]; intros Hm.
    - cbn. rewrite Hu, Z.sub_0_r, Nat.add_0_r. done.
    - destruct IH as (Hk' & Hu' & He' & Ht' & Hr' & Hq'); [lia|].
      rewrite after_calls_succ.
      rewrite (use_api_key_hit k _ _ Hk' Hu');
        [|lia|rewrite Ht', Hr', He'; apply Hexp; lia].
      cbn. rewrite Hr'. repeat split; first [done | f_equal; lia | lia]. }
  split.
  - intros m Hm. destruct (Hinv m) as (Hk' & Hu' & He' & Ht' & Hr' & Hq'); [lia|].
    rewrite after_calls_succ.
    rewrite (use_api_key_hit k _ _ Hk' Hu');
      [|lia|rewrite Ht', Hr', He'; apply Hexp; lia].
    done.
  - intros Hpos. destruct (Hinv (u - 1)%nat) as (Hk' & Hu' & _ & _ & _ & Hq');
      [lia|].
    replace u with (S (u - 1)) at 1 by lia. rewrite after_calls_succ.
    set (s1 := after_calls (u - 1) s) in *.
    rewrite use_api_key_outcome, Hu'. cbn.
    assert (Hzero : (Z.of_nat u - Z.of_nat (u - 1) - 1 <=? 0)%Z = true)
      by (apply Z.leb_le; lia).
    rewrite Hzero. cbn.
    match goal with |- context [refresh_api_key ?n ?st] =>
      destruct (refresh_api_key n st) as [r s'] eqn:Href end.
    apply refresh_api_key_step in Href
      as (_ & _ & _ & [(_ & _ & ->)|(Hq & _)]); [done|].
    cbn in Hq. cbn [fst snd]. rewrite Hq, Hq'. intros Heq.
    apply (f_equal length) in Heq. rewrite length_app in Heq. cbn in Heq. lia.
Qed.

(** X24. [get], [post] and [delete] raise nothing but [APIError].
    When [use_api_key] gives no key they raise it without sending a
    request. *)
Theorem hosted_api_raises_api_error endpoint kwargs s :
  (forall e s',
     HostedAPI.get endpoint kwargs s = (Raise e, s') \/
     post endpoint kwargs s = (Raise e, s') \/
     HostedAPI.delete endpoint kwargs s = (Raise e, s') ->
     exn_class e = APIError) /\
  (forall s1, use_api_key s = (Return PyNone, s1) ->
     sent (env s1) = sent (env s) /\
     forall v, request v endpoint kwargs s =
                 (Raise (Exn APIError "cannot retrieve API key"), s1)).
Proof.
  assert (Hreq : forall v e s', request v endpoint kwargs s = (Raise e, s') ->
            exn_class e = APIError).
  { intros v e s'. unfold request, try_except.
    match goal with |- context [match ?b s with _ => _ end] =>
      destruct (b s) as [[a|e0] s0] end; [done|].
    cbn [select_handler].
    destruct (isinstance e0 APIError) eqn:Hi.
    - intros [= <- <-]. revert Hi.
      destruct e0 as [[] msg]; vm_compute; congruence.
    - rewrite isinstance_Exception. by intros [= <- <-]. }
  split.
  - intros e s' [H|[H|H]]; eapply Hreq; exact H.
  - intros s1 Hkey. split.
    + by destruct (use_api_key_step _ _ _ Hkey) as (_ & -> & _).
    + intros v. unfold request, try_except, ensure_api_key.
      rewrite (bind_run _ _ _ _ _ (bind_run _ _ _ _ _ Hkey)). cbn.
      classes. reflexivity.
Qed.

End HostedKey.

(** ** The connection to the syncer *)

Section Upstream.

Import Device.

Lemma delivered_app t u :
  delivered (t ++ u)%list = (delivered t ++ delivered u)%list.
Proof. apply omap_app. Qed.

Lemma attempts_app t u :
  attempts (t ++ u)%list = (attempts t ++ attempts u)%list.
Proof. apply omap_app. Qed.

(** X25. [send_raw] never raises and tells the caller nothing: the
    line is delivered, with its newline, on a socket that is kept, or
    it is dropped, and then the socket is given up or is one on which
    [connect] has failed.  On a connected socket whose [send] succeeds
    the line is delivered without a new connection. *)
Theorem send_raw_never_raises raw s :
  (exists s', send_raw raw s = (Return tt, s') /\
     (delivered (trace (env s')) =
        (delivered (trace (env s)) ++ [(raw ++ nl)%string])%list /\
      (exists sk, _socket s' = Some sk /\ connected sk = true) \/
      delivered (trace (env s')) = delivered (trace (env s)) /\
      (_socket s' = None \/
       exists sk, _socket s' = Some sk /\ connected sk = false))) /\
  (forall sk, _socket s = Some sk -> connected sk = true ->
     hd None (sends (env s)) = None ->
     exists s', send_raw raw s = (Return tt, s') /\
       _socket s' = Some sk /\
       trace (env s') = (trace (env s) ++ [EvSend (sock_id sk) (raw ++ nl)%string])%list).
Proof.
  split.
  - unfold send_raw, ensure_connected, send, connect, socket_socket, emit.
    run. cbn [select_handler].
    destruct (_socket s) as [sk|] eqn:Hs; cbn.
    + rewrite Hs. destruct (connected sk) eqn:Hc; cbn.
      * destruct (hd None (sends (env s))) as [e|]; cbn.
        -- rewrite isinstance_Exception. cbn. rewrite Hs. cbn.
           eexists. split; [done|]. right. cbn.
           rewrite delivered_app. cbn. rewrite app_nil_r. eauto.
        -- eexists. split; [done|]. left. cbn.
           rewrite delivered_app. cbn. rewrite Hs. eauto.
      * classes. cbn. rewrite Hs. cbn.
        eexists. split; [done|]. right. cbn.
        rewrite delivered_app. cbn. rewrite app_nil_r. eauto.
    + destruct (hd None (connects (env s))) as [e|]; cbn.
      * rewrite isinstance_Exception. cbn.
        eexists. split; [done|]. right. cbn.
        rewrite delivered_app. cbn. rewrite app_nil_r. eauto.
      * destruct (hd None (sends (env s))) as [e|]; cbn.
        -- rewrite isinstance_Exception. cbn.
           eexists. split; [done|]. right. cbn.
           rewrite !delivered_app. cbn. rewrite !app_nil_r. eauto.
        -- eexists. split; [done|]. left. cbn.
           rewrite !delivered_app. cbn. rewrite app_nil_r. eauto.
  - intros sk Hs Hc Hsend.
    unfold send_raw, ensure_connected, send, emit. run. cbn [select_handler].
    rewrite Hs. cbn. rewrite Hs, Hc. cbn. rewrite Hsend. cbn.
    eexists. split; [done|]. cbn. by rewrite Hs.
Qed.

(** X26. After a [connect] that failed, [_socket] holds the socket
    that is not connected: the next [send_raw] does not try to
    connect, even if the syncer would accept by then; its [send] fails
    on that socket, the line is dropped and the socket is given up.
    It is the [send_raw] after that one which connects anew. *)
Theorem failed_connect_costs_the_next_line raw s e :
  _socket s = None ->
  hd None (connects (env s)) = Some e ->
  let s1 := snd (send_raw raw s) in
  (exists sk, _socket s1 = Some sk /\ connected sk = false) /\
  delivered (trace (env s1)) = delivered (trace (env s)) /\
  forall raw2,
    let s2 := snd (send_raw raw2 s1) in
    _socket s2 = None /\
    connects (env s2) = connects (env s1) /\
    attempts (trace (env s2)) = attempts (trace (env s1)) /\
    delivered (trace (env s2)) = delivered (trace (env s1)) /\
    forall raw3,
      length (attempts (trace (env (snd (send_raw raw3 s2))))) =
        S (length (attempts (trace (env s2)))).
Proof.
  intros Hs He.
  assert (H1 : send_raw raw s =
    (Return tt,
     {| _socket := Some {| sock_id := created (env s); connected := false |};
        env := {| connects := tail (connects (env s));
                  sends := sends (env s);
                  created := S (created (env s));
                  trace := trace (env s) ++
                             [EvConnect (created (env s)) false] |} |})).
  { unfold send_raw, ensure_connected, send, connect, socket_socket, emit.
    run. cbn [select_handler]. rewrite Hs. cbn. rewrite He. cbn.
    by rewrite isinstance_Exception. }
  rewrite H1. cbn [snd]. split; [eauto|]. split.
  { cbn. rewrite delivered_app. cbn. by rewrite app_nil_r. }
  intros raw2.
  match goal with |- context [send_raw raw2 ?st] => set (s1 := st) end.
  assert (H2 : send_raw raw2 s1 =
    (Return tt,
     {| _socket := None;
        env := {| connects := connects (env s1);
                  sends := sends (env s1);
                  created := created (env s1);
                  trace := trace (env s1) ++ [EvClose (created (env s))] |} |})).
  { unfold send_raw, ensure_connected, send, emit. run. cbn [select_handler].
    cbn. classes. reflexivity. }
  rewrite H2. cbn [snd]. split; [done|]. split; [done|].
  split; [cbn; rewrite !attempts_app; cbn; by rewrite !app_nil_r|].
  split; [cbn; rewrite !delivered_app; cbn; by rewrite !app_nil_r|].
  intros raw3.
  unfold send_raw, ensure_connected, send, connect, socket_socket, emit.
  run. cbn [select_handler]. cbn.
  destruct (hd None (tail (connects (env s)))) as [e3|]; cbn.
  - rewrite isinstance_Exception. cbn.
    rewrite !attempts_app. cbn. rewrite !length_app. cbn. lia.
  - destruct (hd None (sends (env s))) as [e4|]; cbn.
    + rewrite isinstance_Exception. cbn.
      rewrite !attempts_app. cbn. rewrite !length_app. cbn. lia.
    + rewrite !attempts_app. cbn. rewrite !length_app. cbn. lia.
Qed.

End Upstream.

(** ** Files written for the node *)

Section NodeFiles.

Import Node.

Lemma prefix_append p x : String.prefix p (p ++ x) = true.
Proof.
  induction p as [|a p IH].
  - change ("" ++ x)%string with x. by destruct x.
  - change (String a p ++ x)%string with (String a (p ++ x)). cbn.
    by destruct (ascii_dec a a).
Qed.

(** The name of the temporary file is a temporary name that is not
    taken. *)
Lemma first_free_spec taken candidates f rest :
  first_free taken candidates = (Some f, rest) ->
  temporary f = true /\ taken !! f = None.
Proof.
  induction candidates as [|c cs IH]; cbn; [done|].
  destruct (taken !! (temp_prefix ++ c)%string) eqn:Hc; [exact IH|].
  intros [= <- <-]. split; [apply prefix_append | done].
Qed.

(** X27. [write_file] replaces the file in one step or not at all:
    when it returns the file holds the content, and when it raises the
    file is as it was, never in part written.  No other file changes,
    temporary files apart; a temporary file is left behind only when
    closing it or renaming it fails. *)
Theorem write_file_is_atomic filename content w r w' :
  temporary filename = false ->
  write_file filename content w = (r, w') ->
  match r with
  | Return _ => files w' !! filename = Some content
  | Raise _ => files w' !! filename = files w !! filename
  end /\
  (forall name, name <> filename -> temporary name = false ->
     files w' !! name = files w !! name) /\
  (match hd None (faults w) with
   | Some (close_fails _) | Some rename_fails => False
   | _ => True
   end ->
   forall name, name <> filename -> files w' !! name = files w !! name).
Proof.
  intros Hname. unfold write_file, NamedTemporaryFile, next_fault.
  unfold bind at 1 2, get at 1.
  destruct (first_free (files w) (random_names w)) as [[f|] rest] eqn:Hfree.
  - apply first_free_spec in Hfree as [Htemp Hfresh].
    assert (Hne : f <> filename) by congruence.
    run. cbn.
    destruct (hd None (faults w)) as [[|written|]|]; cbn.
    + intros [= <- <-]. cbn.
      rewrite delete_insert_id by done. by repeat split.
    + intros [= <- <-]. cbn.
      split; [by rewrite !lookup_insert_ne|]. split; [|done].
      intros name _ Hn. rewrite !lookup_insert_ne; [done|congruence..].
    + intros [= <- <-]. cbn.
      split; [by rewrite !lookup_insert_ne|]. split; [|done].
      intros name _ Hn. rewrite !lookup_insert_ne; [done|congruence..].
    + rewrite lookup_insert_eq. intros [= <- <-]. cbn.
      split; [by rewrite lookup_insert_eq|].
      assert (Hother : forall name, name <> filename ->
                (<[filename:=content]>
                   (delete f (<[f:=content]> (<[f:=""]> (files w))))) !! name
                = files w !! name).
      { intros name Hn. rewrite lookup_insert_ne by done.
        destruct (decide (name = f)) as [->|?].
        - by rewrite lookup_delete_eq.
        - by rewrite lookup_delete_ne, !lookup_insert_ne. }
      split; [intros name Hn _; by apply Hother | intros _; exact Hother].
  - run. intros [= <- <-]. cbn. done.
Qed.

End NodeFiles.

(** ** The properties on concrete runs *)

Section Runs.

Import ProofOfPlay Examples.



Lemma nodes_are_the_fields_witness :
  exists names,
    Queries.nodes (Scenarios.client [inr peer_nodes]) =
      (Return names,
       snd (InfoBeamerQuery._send_cmd "0.9.3" "*query/*nodes" false
              (Scenarios.client [inr peer_nodes]))) /\
    (names = [] <->
     "root,root/child" = "" \/
     exists rest, "root,root/child" = String "," rest) /\
    (names <> [] -> join "," names = "root,root/child") /\
    Forall (fun name => ~ In ","%char (list_ascii_of_string name)) names.
Proof.
  apply (nodes_are_the_fields (Scenarios.client [inr peer_nodes])
           "root,root/child").
  vm_compute. reflexivity.
Defined.

Lemma listen_turn_dispatches_witness :
  fst (Listener._listen_thread_turn decode_beat
         (Listener.register "beat" hang_up ∅)
         (Scenarios.channel [inr peer_calling])) =
    Return (Listener.Called (PyStr "beat")).
Proof.
  destruct (listen_turn_dispatches decode_beat ∅ "beat" hang_up
              (Scenarios.channel [inr peer_calling])
              ("[beat,1]" ++ nl)
              (snd (Listener._recv (Scenarios.channel [inr peer_calling])))
              [PyInt 1]) as [H _];
    [vm_compute; reflexivity | done | reflexivity |].
  rewrite H. reflexivity.
Defined.

Lemma set_then_get_witness :
  fst (Cache.get digest "k" (Some 60%Q)
         (Cache.at_time 160 (snd (Cache.set digest "k" "v" (empty_cache [])))))
    = Return (Some "v") /\
  fst (Cache.get digest "k" (Some 60%Q)
         (Cache.at_time 161 (snd (Cache.set digest "k" "v" (empty_cache [])))))
    = Return None.
Proof.
  split.
  - destruct (set_then_get digest "k" "v" (empty_cache [])
                (snd (Cache.set digest "k" "v" (empty_cache []))) 160
                (Some 60%Q)) as (H & _ & _); [vm_compute; reflexivity|].
    apply H. intros age [= <-]. by vm_compute.
  - destruct (set_then_get digest "k" "v" (empty_cache [])
                (snd (Cache.set digest "k" "v" (empty_cache []))) 161
                (Some 60%Q)) as (_ & H & _); [vm_compute; reflexivity|].
    apply (H 60%Q eq_refl). by vm_compute.
Defined.



Lemma file_producer_file_is_kept_witness :
  is_Some (Cache.files
             (Cache.env
                (snd (Cache.file_producer digest dumps_call None "picture"
                        (fun _ => ret (Some "bytes")) PyNone (empty_cache []))))
           !! "cache-default-picture").
Proof.
  apply (file_producer_file_is_kept digest dumps_call None "picture"
           (fun _ => ret (Some "bytes")) PyNone (empty_cache [])
           "cache-default-picture").
  vm_compute. reflexivity.
Defined.

Lemma cached_value_costs_no_request_witness :
  DeviceKV.__getitem__ "k" store_with_k =
    (DeviceKV.Returned (PyStr "v"), DeviceKV.after_reading store_with_k).
Proof.
  destruct (cached_value_costs_no_request "k" "v" store_with_k)
    as [Hidle _]; [reflexivity | reflexivity |].
  destruct Hidle as (_ & H & _); [by vm_compute | exact H].
Defined.

Lemma read_your_write_witness :
  DeviceKV.__getitem__ "k"
    (snd (DeviceKV.__setitem__ "k" "v" (store [Return PyNone]))) =
  (DeviceKV.Returned (PyStr "v"),
   DeviceKV.after_reading
     (snd (DeviceKV.__setitem__ "k" "v" (store [Return PyNone])))).
Proof.
  apply (read_your_write "k" "v" (store [Return PyNone])
           (snd (DeviceKV.__setitem__ "k" "v" (store [Return PyNone]))));
    [reflexivity | vm_compute; reflexivity | by vm_compute].
Defined.

Lemma get_gives_default_witness :
  fst (DeviceKV.get "k" (PyStr "none yet")
         (store [Return (PyDict [("v", PyDict [])])])) =
    DeviceKV.Returned (PyStr "none yet").
Proof.
  destruct (get_gives_default "k" (PyStr "none yet")
              (store [Return (PyDict [("v", PyDict [])])])
              [("v", PyDict [])]) as [H _];
    [right; reflexivity | reflexivity | right; eexists; split; reflexivity |].
  rewrite H. reflexivity.
Defined.

Lemma update_posts_the_changes_witness :
  DeviceKV.requests
    (DeviceKV.env
       (snd (DeviceKV.update {[ "k" := "v"; "l" := "w" ]} store_with_k))) =
    [DeviceKV.Post {[ "l" := "w" ]}].
Proof.
  destruct (update_posts_the_changes {[ "k" := "v"; "l" := "w" ]} store_with_k)
    as (_ & H & _); [reflexivity|].
  rewrite H; vm_compute; [reflexivity | discriminate].
Defined.

Lemma items_are_served_from_the_cache_witness :
  exists s1,
    DeviceKV.items (store_holding_k [Return only_a]) =
      (DeviceKV.Returned [("a", PyStr "1")], s1) /\
    DeviceKV.items s1 =
      (DeviceKV.Returned (map_to_list (DeviceKV._cache s1)),
       DeviceKV.after_reading s1) /\
    ("k", PyStr "v") ∈ map_to_list (DeviceKV._cache s1).
Proof.
  destruct (items_are_served_from_the_cache (store_holding_k [Return only_a])
              [("v", PyDict [("a", PyStr "1")])] [("a", PyStr "1")])
    as (s1 & Hitems & _ & _ & _ & Hnext);
    [reflexivity | reflexivity | reflexivity | reflexivity
    | repeat constructor; set_solver |].
  exists s1.
  assert (Hlt : (DeviceKV.next_reading s1 < DeviceKV._next_refresh s1)%Q).
  { assert (Hs1 : s1 = snd (DeviceKV.items (store_holding_k [Return only_a])))
      by (by rewrite Hitems).
    rewrite Hs1. by vm_compute. }
  destruct (Hnext Hlt) as (Hagain & _ & Hstale).
  split; [done|]. split; [done|].
  by apply (Hstale "k" (PyStr "v")).
Defined.

Lemma deleted_key_is_asked_again_witness :
  DeviceKV._cache
    (snd (DeviceKV.__delitem__ "k" (store_holding_k [Return PyNone]))) !! "k"
  = None.
Proof.
  destruct (deleted_key_is_asked_again "k" (store_holding_k [Return PyNone])
              (snd (DeviceKV.__delitem__ "k" (store_holding_k [Return PyNone]))))
    as (H & _ & _); [reflexivity | vm_compute; reflexivity | exact H].
Defined.

Lemma key_requests_are_spaced_witness :
  HostedAPI.spaced
    (HostedAPI.key_requests
       (HostedAPI.env (HostedAPI.after_calls 40 (hosted [])))).
Proof.
  apply (key_requests_are_spaced 40 (hosted [])).
  - intros i j Hij. unfold HostedAPI.monotone, ticking, Qle. cbn. lia.
  - exact I.
  - constructor.
Defined.

Lemma key_is_handed_out_while_uses_last_witness :
  fst (HostedAPI.use_api_key (HostedAPI.after_calls 1 hosted_with_key)) =
    Return (PyStr "secret").
Proof.
  destruct (key_is_handed_out_while_uses_last "secret" 3 hosted_with_key)
    as [H _]; [reflexivity | reflexivity | |].
  - intros i Hi. unfold ticking, Qle. cbn. lia.
  - apply (H 1%nat). lia.
Defined.

Lemma failed_connect_costs_the_next_line_witness :
  Device.delivered
    (Device.trace
       (Device.env
          (snd (Device.send_raw "tv on"
                  (snd (Device.send_raw "tv off"
                          (device [Some (Exn socket_error "[Errno 111] Connection refused")])))))))
    = [].
Proof.
  destruct (failed_connect_costs_the_next_line "tv off"
              (device [Some (Exn socket_error "[Errno 111] Connection refused")])
              (Exn socket_error "[Errno 111] Connection refused"))
    as (_ & H1 & H2); [reflexivity | reflexivity |].
  destruct (H2 "tv on") as (_ & _ & _ & H3 & _).
  rewrite H3, H1. reflexivity.
Defined.

Lemma write_file_is_atomic_witness :
  Node.files
    (snd (Node.write_file "data.json" "new"
            (directory (Some (Node.close_fails "ne")))))
    !! "data.json" = Some "old".
Proof.
  destruct (write_file_is_atomic "data.json" "new"
              (directory (Some (Node.close_fails "ne")))
              (Raise (Exn IOError "[Errno 28] No space left on device"))
              (snd (Node.write_file "data.json" "new"
                      (directory (Some (Node.close_fails "ne"))))))
    as [H _]; [reflexivity | vm_compute; reflexivity |].
  rewrite H. reflexivity.
Defined.

End Runs.
